(** * cpx: recursive copy with a global progress bar

    A shallow embedding of [Code.c] (cpx.c).  The C program talks to the
    operating system through [stat], [opendir]/[readdir], [mkdir] and the
    stdio streams; the embedding threads an explicit [World] (file system,
    open streams, the two global counters, what was printed) through the
    functions of the program, which keep their C names. *)

From Stdlib Require Import ZArith String Ascii List Lia SpecFloat.
From Stdlib Require Import Strings.Byte.
From stdpp Require Import base option list gmap strings.
Import ListNotations.

Set Warnings "-abstract-large-number,-register-all".

(* ================================================================== *)
(** * C strings *)
(* ================================================================== *)

Definition slash : ascii := "/"%char.

(** [strrchr(s, c)]: the suffix of [s] that starts at the last [c]. *)
Fixpoint strrchr (s : string) (c : ascii) : option string :=
  match s with
  | EmptyString => None
  | String a s' =>
      match strrchr s' c with
      | Some r => Some r
      | None => if Ascii.eqb a c then Some s else None
      end
  end.

(** [p = strrchr(s, '/'); p ? p + 1 : s] *)
Definition base_of (s : string) : string :=
  match strrchr s slash with
  | Some (String _ r) => r
  | _ => s
  end.

Definition INT_MAX : Z := 2147483647.

(** [snprintf(buf, size, "%s...", ...)] once the format is expanded to
    [s]: the return value is the length of [s] (negative when it does
    not fit an [int]), the buffer holds at most [size - 1] characters. *)
Definition snprintf (size : nat) (s : string) : Z * string :=
  let n := Z.of_nat (String.length s) in
  (if (INT_MAX <? n)%Z then (-1)%Z else n, String.substring 0 (size - 1) s).

(** ["%s/%s"] *)
Definition join (a b : string) : string := a +:+ String slash b.

(** The loop of [trim_trailing_slashes]:
    [while (len > 1 && in[len - 1] == '/') len--;] *)
Fixpoint trim_loop (s : string) (len : nat) : nat :=
  match len with
  | S (S _ as len') =>
      match String.get len' s with
      | Some c => if Ascii.eqb c slash then trim_loop s len' else len
      | None => len
      end
  | _ => len
  end.

Definition trim_trailing_slashes (s : string) (bufsz : nat) : string :=
  let len := trim_loop s (String.length s) in
  let len := if bufsz <=? len then bufsz - 1 else len in
  String.substring 0 len s.

(* ================================================================== *)
(** * Path names *)
(* ================================================================== *)

(** The components of a path name, empty ones included:
    [split "a//b" = ["a"; ""; "b"]]. *)
Fixpoint split (s : string) : list string :=
  match s with
  | EmptyString => [EmptyString]
  | String c s' =>
      if Ascii.eqb c slash then EmptyString :: split s'
      else match split s' with
           | x :: r => String c x :: r
           | [] => [String c EmptyString]
           end
  end.

(** A resolved path name: the names from the root directory down. *)
Abbreviation key := (list string).

Definition walk (k : key) (c : string) : key :=
  if String.eqb c "" || String.eqb c "." then k
  else if String.eqb c ".." then removelast k
  else k ++ [c].

Definition absolute (p : string) : bool :=
  match p with
  | String c _ => Ascii.eqb c slash
  | EmptyString => false
  end.

Fixpoint ends_slash (p : string) : bool :=
  match p with
  | EmptyString => false
  | String c EmptyString => Ascii.eqb c slash
  | String _ p' => ends_slash p'
  end.

(** Name lookup is lexical: [".."] drops a component, the directories
    passed on the way are not inspected. *)
Definition namei (cwd : key) (p : string) : key :=
  fold_left walk (split p) (if absolute p then [] else cwd).

(* ================================================================== *)
(** * The operating system *)
(* ================================================================== *)

Inductive errno :=
  ENOENT | EACCES | EEXIST | ENOTDIR | EISDIR | ENAMETOOLONG | ENXIO.

Definition strerror (e : errno) : string :=
  match e with
  | ENOENT => "No such file or directory"
  | EACCES => "Permission denied"
  | EEXIST => "File exists"
  | ENOTDIR => "Not a directory"
  | EISDIR => "Is a directory"
  | ENAMETOOLONG => "File name too long"
  | ENXIO => "No such device or address"
  end.

Definition is_EEXIST (e : errno) : bool :=
  match e with EEXIST => true | _ => false end.

(** The outcome of a system or library call that can fail. *)
Inductive res (A : Type) :=
| Ok (a : A)
| Err (e : errno).
Arguments Ok {A} a.
Arguments Err {A} e.

(** What a path name leads to, as [stat] sees it: a regular file with
    its bytes, a directory with the names [readdir] yields (in that
    order, ["."] and [".."] among them), or anything else (a device, a
    socket, a FIFO).  [rd] and [wr] say whether the process may open the
    entry for reading and for writing (for a directory: list it, and
    create entries in it). *)
Inductive node :=
| Reg (rd wr : bool) (data : list byte)
| Dir (rd wr : bool) (names : list string)
| Other.

Definition is_dir (n : node) : bool :=
  match n with Dir _ _ _ => true | _ => false end.

(** [st_mode], as far as [S_ISREG] and [S_ISDIR] read it. *)
Inductive st_mode := S_IFREG | S_IFDIR | S_IFOTHER.

Definition mode_of (n : node) : st_mode :=
  match n with
  | Reg _ _ _ => S_IFREG
  | Dir _ _ _ => S_IFDIR
  | Other => S_IFOTHER
  end.

Definition S_ISREG (m : st_mode) : bool :=
  match m with S_IFREG => true | _ => false end.

Definition S_ISDIR (m : st_mode) : bool :=
  match m with S_IFDIR => true | _ => false end.

(** An open [FILE]: the file it reads or writes, the position in that
    file, and the bytes [fwrite] has taken into the buffer of the stream
    and not yet handed to the device. *)
Record stream := Stream { s_key : key; s_pos : nat; s_buf : list byte }.

(** What the program prints on standard output: plain text, or one
    rendering of the progress line (the cells between the brackets, the
    percentage, and the two counters). *)
Inductive out_event :=
| Text (s : string)
| Bar (cells : string) (percent : spec_float) (copied total : Z).

Record World := mkWorld {
  cwd : key;                      (* the working directory *)
  fs : gmap key node;             (* the file system *)
  space : nat;                    (* bytes the device still accepts *)
  streams : gmap nat stream;      (* the open stdio streams *)
  stdout : list out_event;
  stderr : list string;
  total_files : Z;                (* static size_t total_files *)
  copied_files : Z                (* static size_t copied_files *)
}.

Definition set_fs (w : World) (m : gmap key node) : World :=
  mkWorld (cwd w) m (space w) (streams w) (stdout w) (stderr w)
          (total_files w) (copied_files w).

Definition set_space (w : World) (n : nat) : World :=
  mkWorld (cwd w) (fs w) n (streams w) (stdout w) (stderr w)
          (total_files w) (copied_files w).

Definition set_streams (w : World) (m : gmap nat stream) : World :=
  mkWorld (cwd w) (fs w) (space w) m (stdout w) (stderr w)
          (total_files w) (copied_files w).

Definition set_total (w : World) (z : Z) : World :=
  mkWorld (cwd w) (fs w) (space w) (streams w) (stdout w) (stderr w)
          z (copied_files w).

Definition set_copied (w : World) (z : Z) : World :=
  mkWorld (cwd w) (fs w) (space w) (streams w) (stdout w) (stderr w)
          (total_files w) z.

(** [printf] / [putchar] on stdout *)
Definition print (w : World) (e : out_event) : World :=
  mkWorld (cwd w) (fs w) (space w) (streams w) (stdout w ++ [e]) (stderr w)
          (total_files w) (copied_files w).

(** [fprintf(stderr, ...)] *)
Definition eprint (w : World) (s : string) : World :=
  mkWorld (cwd w) (fs w) (space w) (streams w) (stdout w) (stderr w ++ [s])
          (total_files w) (copied_files w).

Definition nl : string := String (ascii_of_nat 10) EmptyString.

(** [size_t] is 64 bits wide (LP64); [x++] wraps around. *)
Definition size_wrap (z : Z) : Z := (z mod 2 ^ 64)%Z.

Section Platform.

(** [PATH_MAX] of <limits.h>: the size of the path buffers, and the
    length from which the kernel refuses a path name. *)
Variable PATH_MAX : nat.

(** The buffering of the C library.  The program opens its streams with
    [fopen] and never calls [setvbuf], so how much of what [fwrite] is
    given goes to the device at once is the library's business:
    [buffering n] is the number of bytes that it writes through when [n]
    bytes are pending.  A stream without a buffer has [buffering n = n];
    a fully buffered one with room for [b] bytes has [buffering n = 0]
    below [b]. *)
Variable buffering : nat -> nat.

Definition resolve (w : World) (p : string) : res key :=
  if String.eqb p "" then Err ENOENT
  else if PATH_MAX <=? String.length p then Err ENAMETOOLONG
  else Ok (namei (cwd w) p).

(** The entry a path name leads to.  A trailing slash asks for a
    directory. *)
Definition lookup_path (w : World) (p : string) : res (key * node) :=
  match resolve w p with
  | Err e => Err e
  | Ok k =>
      match fs w !! k with
      | None => Err ENOENT
      | Some n =>
          if ends_slash p && negb (is_dir n) then Err ENOTDIR else Ok (k, n)
      end
  end.

Definition stat (w : World) (p : string) : res st_mode :=
  match lookup_path w p with
  | Err e => Err e
  | Ok (_, n) => Ok (mode_of n)
  end.

(** [opendir] followed by [readdir] until it returns NULL: the names of
    the directory as they stood when it was opened. *)
Definition opendir (w : World) (p : string) : res (list string) :=
  match lookup_path w p with
  | Err e => Err e
  | Ok (_, Dir true _ names) => Ok names
  | Ok (_, Dir false _ _) => Err EACCES
  | Ok _ => Err ENOTDIR
  end.

(** Enter a new entry [k] into its parent directory. *)
Definition link_child (m : gmap key node) (k : key) (n : node)
  : res (gmap key node) :=
  match last k with
  | None => Err ENOENT
  | Some name =>
      match m !! removelast k with
      | Some (Dir rd true names) =>
          Ok (<[k := n]> (<[removelast k := Dir rd true (names ++ [name])]> m))
      | Some (Dir _ false _) => Err EACCES
      | Some _ => Err ENOTDIR
      | None => Err ENOENT
      end
  end.

(** [mkdir(p, 0755)] *)
Definition mkdir (w : World) (p : string) : res World :=
  match resolve w p with
  | Err e => Err e
  | Ok k =>
      match fs w !! k with
      | Some _ => Err EEXIST
      | None =>
          match link_child (fs w) k (Dir true true ["."; ".."]) with
          | Err e => Err e
          | Ok m => Ok (set_fs w m)
          end
      end
  end.

Definition new_stream (w : World) (k : key) : nat * World :=
  let id := fresh (dom (streams w)) in
  (id, set_streams w (<[id := Stream k 0 []]> (streams w))).

(** [fopen(p, "rb")] *)
Definition fopen_rb (w : World) (p : string) : res (nat * World) :=
  match lookup_path w p with
  | Err e => Err e
  | Ok (k, Reg true _ _) => Ok (new_stream w k)
  | Ok (_, Reg false _ _) => Err EACCES
  | Ok (_, Dir _ _ _) => Err EISDIR
  | Ok (_, Other) => Err ENXIO
  end.

(** [fopen(p, "wb")]: an existing file is truncated, a missing one is
    created in its directory. *)
Definition fopen_wb (w : World) (p : string) : res (nat * World) :=
  match resolve w p with
  | Err e => Err e
  | Ok k =>
      match fs w !! k with
      | Some (Reg rd true _) =>
          if ends_slash p then Err ENOTDIR
          else Ok (new_stream (set_fs w (<[k := Reg rd true []]> (fs w))) k)
      | Some (Reg _ false _) => Err EACCES
      | Some (Dir _ _ _) => Err EISDIR
      | Some Other => Err ENXIO
      | None =>
          if ends_slash p then Err EISDIR
          else match link_child (fs w) k (Reg true true []) with
               | Err e => Err e
               | Ok m => Ok (new_stream (set_fs w m) k)
               end
      end
  end.

(** [write] on the descriptor of a stream, at [pos]: the device takes
    as many of the bytes as it still has room for, and their number is
    returned. *)
Definition dev_write (w : World) (k : key) (pos : nat) (bytes : list byte)
  : nat * World :=
  match bytes with
  | [] => (0, w)
  | _ =>
      match fs w !! k with
      | Some (Reg rd wr data) =>
          let n := min (length bytes) (space w) in
          let data' := take pos data ++ replicate (pos - length data) x00
                       ++ take n bytes ++ drop (pos + n) data in
          (n, set_space (set_fs w (<[k := Reg rd wr data']> (fs w)))
                        (space w - n))
      | _ => (0, w)
      end
  end.

Definition EOF : Z := (-1)%Z.

(** [fclose(f)]: what is left in the buffer is written, as far as the
    device takes it, and the stream is released whether this worked or
    not.  The return value is [EOF] when it did not. *)
Definition fclose (w : World) (f : nat) : Z * World :=
  match streams w !! f with
  | Some (Stream k pos pend) =>
      let '(n, w1) := dev_write w k pos pend in
      (if n <? length pend then EOF else 0%Z,
       set_streams w1 (delete f (streams w)))
  | None => (EOF, w)
  end.

(** [fread(buf, 1, size, f)]: the bytes read (their number is the
    return value); nothing at the end of the file. *)
Definition fread (w : World) (f : nat) (size : nat) : list byte * World :=
  match streams w !! f with
  | Some (Stream k pos pend) =>
      match fs w !! k with
      | Some (Reg _ _ data) =>
          let buf := take size (drop pos data) in
          (buf, set_streams w (<[f := Stream k (pos + length buf) pend]>
                                 (streams w)))
      | _ => ([], w)
      end
  | None => ([], w)
  end.

(** [fwrite(buf, 1, n, f)]: the bytes join those pending in the buffer
    of the stream; of these the library writes through as many as its
    buffering has it, and the rest stays pending until a later call or
    [fclose].  The return value is [n] unless the device took fewer
    bytes than were written through; what was still in the buffer when
    it is [n] has not been written at all. *)
Definition fwrite (w : World) (f : nat) (buf : list byte) : nat * World :=
  match streams w !! f with
  | Some (Stream k pos pend) =>
      let pend' := pend ++ buf in
      let due := min (buffering (length pend')) (length pend') in
      let '(n, w1) := dev_write w k pos (take due pend') in
      (length buf - min (length buf) (due - n),
       set_streams w1 (<[f := Stream k (pos + n) (drop n pend')]> (streams w)))
  | None => (0, w)
  end.

(* ================================================================== *)
(** * The program *)
(* ================================================================== *)

(** ** [double] arithmetic, as IEEE 754 binary64 *)

Definition double_of_Z (z : Z) : spec_float :=
  binary_normalize 53 1024 z 0 false.

Definition ddiv : spec_float -> spec_float -> spec_float := SFdiv 53 1024.
Definition dmul : spec_float -> spec_float -> spec_float := SFmul 53 1024.

Definition INT_MIN : Z := (-2147483648)%Z.

(** [(int)x]: truncation towards zero.  Where C leaves the conversion
    undefined (the value does not fit an [int]) the model answers as
    x86-64 does, with [INT_MIN]. *)
Definition int_of_double (x : spec_float) : Z :=
  match x with
  | S754_zero _ => 0%Z
  | S754_finite s m e =>
      let a := Z.shiftl (Zpos m) e in
      let v := if s then (- a)%Z else a in
      if (INT_MIN <=? v)%Z && (v <=? INT_MAX)%Z then v else INT_MIN
  | _ => INT_MIN
  end.

(** ** [show_progress] *)

(** One turn of the [for] loop: the character put for cell [i]. *)
Definition cell (pos i : Z) : ascii :=
  if (i <? pos)%Z then "="%char
  else if (i =? pos)%Z then ">"%char
  else " "%char.

(** [for (; i < bar_width; ++i) putchar(...)], [n] turns left. *)
Fixpoint bar_loop (pos i : Z) (n : nat) : string :=
  match n with
  | O => EmptyString
  | S n' => String (cell pos i) (bar_loop pos (i + 1) n')
  end.

Definition bar_width : Z := 40.

Definition progress_of (copied total : Z) : spec_float :=
  dmul (ddiv (double_of_Z copied) (double_of_Z total)) (double_of_Z 100).

Definition pos_of (progress : spec_float) : Z :=
  int_of_double (dmul (ddiv progress (double_of_Z 100)) (double_of_Z bar_width)).

Definition show_progress (w : World) : World :=
  if (total_files w =? 0)%Z then w
  else
    let progress := progress_of (copied_files w) (total_files w) in
    let pos := pos_of progress in
    print w (Bar (bar_loop pos 0 (Z.to_nat bar_width)) progress
                 (copied_files w) (total_files w)).

Definition is_dot (name : string) : bool :=
  String.eqb name "." || String.eqb name "..".

(** [rc < 0 || rc >= sizeof(buf)] *)
Definition too_long (rc : Z) : bool :=
  (rc <? 0)%Z || (Z.of_nat PATH_MAX <=? rc)%Z.

(** ** [count_files]

    [fuel] bounds the depth of the recursion; [None] means it ran out.
    [count_files_total] shows that [S PATH_MAX] is always enough. *)

(** One turn of the [readdir] loop, [rec] standing for the recursive
    call. *)
Definition count_entry (rec : World -> string -> option World)
    (path : string) (acc : option World) (d_name : string) : option World :=
  match acc with
  | None => None
  | Some w =>
      if is_dot d_name then Some w
      else
        let '(rc, full) := snprintf PATH_MAX (join path d_name) in
        if too_long rc then Some w
        else rec w full
  end.

Fixpoint count_files (fuel : nat) (w : World) (path : string) : option World :=
  match fuel with
  | O => None
  | S fuel' =>
      match stat w path with
      | Err _ => Some w
      | Ok st =>
          if S_ISREG st then
            Some (set_total w (size_wrap (total_files w + 1)))
          else if S_ISDIR st then
            match opendir w path with
            | Err _ => Some w
            | Ok names =>
                fold_left (count_entry (count_files fuel') path) names (Some w)
            end
          else Some w
      end
  end.

(** ** [copy_file] *)

Definition BUFFER_SIZE : nat := 8192.

(** The [while] loop of [copy_file] and what follows it, for the open
    streams [fsrc] and [fdst].  What [fclose] returns is dropped, as it
    is in the source. *)
Fixpoint copy_loop (fuel : nat) (w : World) (fsrc fdst : nat) (dst : string)
  : option (Z * World) :=
  match fuel with
  | O => None
  | S fuel' =>
      let '(buf, w1) := fread w fsrc BUFFER_SIZE in
      let n := length buf in
      if n =? 0 then
        let '(_, w2) := fclose w1 fsrc in
        let '(_, w3) := fclose w2 fdst in
        let w4 := set_copied w3 (size_wrap (copied_files w3 + 1)) in
        Some (0%Z, show_progress w4)
      else
        let '(wrote, w2) := fwrite w1 fdst buf in
        if negb (wrote =? n) then
          let w3 := eprint w2 ("write error to '" +:+ dst +:+ "'" +:+ nl) in
          let '(_, w4) := fclose w3 fsrc in
          let '(_, w5) := fclose w4 fdst in
          Some ((-1)%Z, w5)
        else copy_loop fuel' w2 fsrc fdst dst
  end.

(** Bytes of the file behind an open stream. *)
Definition stream_size (w : World) (f : nat) : nat :=
  match streams w !! f with
  | Some (Stream k _ _) =>
      match fs w !! k with
      | Some (Reg _ _ data) => length data
      | _ => 0
      end
  | None => 0
  end.

(** The loop gets one turn per byte of the source and one more, which
    [copy_file_spec] shows to be enough. *)
Definition copy_file (w : World) (src dst : string) : option (Z * World) :=
  match fopen_rb w src with
  | Err e =>
      Some ((-1)%Z,
            eprint w ("open source '" +:+ src +:+ "': " +:+ strerror e +:+ nl))
  | Ok (fsrc, w1) =>
      match fopen_wb w1 dst with
      | Err e =>
          let w2 :=
            eprint w1 ("open dest '" +:+ dst +:+ "': " +:+ strerror e +:+ nl) in
          let '(_, w3) := fclose w2 fsrc in
          Some ((-1)%Z, w3)
      | Ok (fdst, w2) =>
          copy_loop (S (stream_size w2 fsrc)) w2 fsrc fdst dst
      end
  end.

(** ** [copy_dir] *)

(** [mkdir(dst, 0755) != 0 && errno != EEXIST]: the world to go on
    with, or the error to report. *)
Definition mkdir_unless_exists (w : World) (dst : string) : res World :=
  match mkdir w dst with
  | Ok w0 => Ok w0
  | Err e => if is_EEXIST e then Ok w else Err e
  end.

(** One turn of the [readdir] loop, [rec] standing for the recursive
    call. *)
Definition copy_entry (rec : World -> string -> string -> option (Z * World))
    (src dst : string) (acc : option World) (d_name : string) : option World :=
  match acc with
  | None => None
  | Some w =>
      if is_dot d_name then Some w
      else
        let '(r1, srcpath) := snprintf PATH_MAX (join src d_name) in
        let '(r2, dstpath) := snprintf PATH_MAX (join dst d_name) in
        if too_long r1 || too_long r2 then
          Some (eprint w ("path too long" +:+ nl))
        else
          match stat w srcpath with
          | Err e =>
              Some (eprint w ("stat '" +:+ srcpath +:+ "': "
                              +:+ strerror e +:+ nl))
          | Ok st =>
              if S_ISDIR st then option_map snd (rec w srcpath dstpath)
              else if S_ISREG st then
                option_map snd (copy_file w srcpath dstpath)
              else Some w
          end
  end.

Fixpoint copy_dir (fuel : nat) (w : World) (src dst : string)
  : option (Z * World) :=
  match fuel with
  | O => None
  | S fuel' =>
      match mkdir_unless_exists w dst with
      | Err e =>
          Some ((-1)%Z,
                eprint w ("mkdir '" +:+ dst +:+ "': " +:+ strerror e +:+ nl))
      | Ok w0 =>
          match opendir w0 src with
          | Err e =>
              Some ((-1)%Z,
                    eprint w0 ("opendir '" +:+ src +:+ "': "
                               +:+ strerror e +:+ nl))
          | Ok names =>
              match
                fold_left (copy_entry (copy_dir fuel') src dst) names (Some w0)
              with
              | None => None
              | Some w' => Some (0%Z, w')
              end
          end
      end
  end.

(** ** [main] *)

(** [printf("\nDone.\n"); return 0;] after a copy whose status is
    not looked at. *)
Definition done (r : option (Z * World)) : option (Z * World) :=
  match r with
  | None => None
  | Some (_, w) => Some (0%Z, print w (Text (nl +:+ "Done." +:+ nl)))
  end.

Definition main (fuel : nat) (w : World) (argv : list string)
  : option (Z * World) :=
  if negb (length argv =? 3) then
    Some (1%Z, eprint w ("Usage: " +:+ nth 0 argv "" +:+
                         " <source> <destination>" +:+ nl))
  else
    let src := nth 1 argv "" in
    let dst := nth 2 argv "" in
    match stat w src with
    | Err e =>
        Some (1%Z, eprint w ("stat '" +:+ src +:+ "': " +:+ strerror e +:+ nl))
    | Ok st =>
        match count_files fuel w src with
        | None => None
        | Some w1 =>
            if (total_files w1 =? 0)%Z then
              Some (0%Z, print w1 (Text ("No files to copy." +:+ nl)))
            else if S_ISDIR st then
              let src_trim := trim_trailing_slashes src PATH_MAX in
              let base := base_of src_trim in
              let '(rc, newdst) := snprintf PATH_MAX (join dst base) in
              if too_long rc then
                Some (1%Z, eprint w1 ("destination path too long" +:+ nl))
              else
                match mkdir_unless_exists w1 newdst with
                | Err e =>
                    Some (1%Z, eprint w1 ("mkdir '" +:+ newdst +:+ "': "
                                          +:+ strerror e +:+ nl))
                | Ok w2 => done (copy_dir fuel w2 src newdst)
                end
            else if S_ISREG st then
              let '(rc, dstpath) :=
                match stat w1 dst with
                | Ok dstst =>
                    if S_ISDIR dstst then
                      snprintf PATH_MAX (join dst (base_of src))
                    else snprintf PATH_MAX dst
                | Err _ => snprintf PATH_MAX dst
                end in
              if too_long rc then
                Some (1%Z, eprint w1 ("destination path too long" +:+ nl))
              else done (copy_file w1 src dstpath)
            else Some (1%Z, eprint w1 ("unsupported source type" +:+ nl))
        end
    end.

End Platform.

(** The state in which the process starts: nothing printed, no stream
    open, both counters zero. *)
Definition boot (cwd0 : key) (fs0 : gmap key node) (space0 : nat) : World :=
  mkWorld cwd0 fs0 space0 ∅ [] [] 0 0.

(** The program run from a fresh process; the recursion gets
    [S PATH_MAX] levels. *)
Definition run (PATH_MAX : nat) (buffering : nat -> nat)
    (cwd0 : key) (fs0 : gmap key node)
    (space0 : nat) (argv : list string) : option (Z * World) :=
  main PATH_MAX buffering (S PATH_MAX) (boot cwd0 fs0 space0) argv.

(** Two ways of buffering: none at all, and in full with a buffer of
    [b] bytes. *)
Definition unbuffered : nat -> nat := fun n => n.

Definition buffered (b : nat) : nat -> nat := fun n => if n <? b then 0 else n.

(* ================================================================== *)
(** * Vocabulary of the specification *)
(* ================================================================== *)

(** [n] times the character [c]. *)
Fixpoint rep (c : ascii) (n : nat) : string :=
  match n with O => EmptyString | S n' => String c (rep c n') end.

(** What one call of [show_progress] adds to standard output. *)
Definition progress_line (copied total : Z) : list out_event :=
  if (total =? 0)%Z then []
  else [Bar (bar_loop (pos_of (progress_of copied total)) 0 (Z.to_nat bar_width))
            (progress_of copied total) copied total].

(** ** File names *)

Fixpoint has_slash (s : string) : bool :=
  match s with
  | EmptyString => false
  | String c s' => Ascii.eqb c slash || has_slash s'
  end.

(** What a directory entry other than ["."] and [".."] is called: a
    non-empty name without a slash. *)
Definition valid_name (n : string) : Prop :=
  n <> EmptyString /\ is_dot n = false /\ has_slash n = false.

(** The path fits its buffer: [snprintf] reports neither an error nor a
    truncation. *)
Definition fits (PATH_MAX : nat) (s : string) : Prop :=
  String.length s < PATH_MAX /\ (Z.of_nat (String.length s) <= INT_MAX)%Z.

(** What [fopen(p, "wb")] does to the file system when it succeeds:
    it empties the file [k], or enters it into its directory. *)
Definition opened_wb (m m' : gmap key node) (k : key) : Prop :=
  (exists rd d, m !! k = Some (Reg rd true d) /\ m' = <[k := Reg rd true []]> m)
  \/
  (m !! k = None /\
   exists name rd names,
     last k = Some name /\ m !! removelast k = Some (Dir rd true names) /\
     m' = <[k := Reg true true []]>
            (<[removelast k := Dir rd true (names ++ [name])]> m)).

(** ** Directory trees *)

(** A file system below some path, as [stat] and [readdir] show it: the
    entries of a directory are listed in the order of enumeration, ["."]
    and [".."] left out. *)
Inductive tree :=
| TFile (rd wr : bool) (data : list byte)
| TDir (rd wr : bool) (ents : list (string * tree))
| TOther.

Fixpoint tree_ind' (P : tree -> Prop)
    (Hf : forall rd wr data, P (TFile rd wr data))
    (Hd : forall rd wr ents,
        Forall (fun e => P (snd e)) ents -> P (TDir rd wr ents))
    (Ho : P TOther) (t : tree) : P t :=
  match t with
  | TFile rd wr data => Hf rd wr data
  | TDir rd wr ents =>
      Hd rd wr ents
         ((fix go (l : list (string * tree)) : Forall (fun e => P (snd e)) l :=
             match l with
             | [] => List.Forall_nil _
             | e :: l' =>
                 List.Forall_cons _ e l' (tree_ind' P Hf Hd Ho (snd e)) (go l')
             end) ents)
  | TOther => Ho
  end.

Definition tree_is_dir (t : tree) : bool :=
  match t with TDir _ _ _ => true | _ => false end.

Definition tree_mode (t : tree) : st_mode :=
  match t with
  | TFile _ _ _ => S_IFREG
  | TDir _ _ _ => S_IFDIR
  | TOther => S_IFOTHER
  end.

(** The names [readdir] yields, ["."] and [".."] skipped. *)
Definition entries (names : list string) : list string :=
  List.filter (fun n => negb (is_dot n)) names.

(** [has_tree m k t]: below the key [k] the file system [m] looks like
    [t]. *)
Inductive has_tree (m : gmap key node) : key -> tree -> Prop :=
| HT_file k rd wr data :
    m !! k = Some (Reg rd wr data) -> has_tree m k (TFile rd wr data)
| HT_dir k rd wr names ents :
    m !! k = Some (Dir rd wr names) ->
    entries names = map fst ents ->
    NoDup (map fst ents) ->
    Forall valid_name (map fst ents) ->
    Forall (fun e => has_tree m (k ++ [fst e]) (snd e)) ents ->
    has_tree m k (TDir rd wr ents)
| HT_other k :
    m !! k = Some Other -> has_tree m k TOther.

(** The regular files of a tree. *)
Fixpoint nfiles (t : tree) : nat :=
  match t with
  | TFile _ _ _ => 1
  | TDir _ _ ents => list_sum (map (fun e => nfiles (snd e)) ents)
  | TOther => 0
  end.

(** [snprintf] reports neither an error nor a truncation. *)
Definition fitsb (PATH_MAX : nat) (s : string) : bool :=
  negb (too_long PATH_MAX (fst (snprintf PATH_MAX s))).

(** Every directory of the tree can be listed. *)
Fixpoint listable (t : tree) : bool :=
  match t with
  | TDir rd _ ents => rd && forallb (fun e => listable (snd e)) ents
  | _ => true
  end.

(** Every path composed below [path] fits the path buffer. *)
Fixpoint paths_fit (PATH_MAX : nat) (path : string) (t : tree) : bool :=
  match t with
  | TDir _ _ ents =>
      forallb (fun e => fitsb PATH_MAX (join path (fst e))
                        && paths_fit PATH_MAX (join path (fst e)) (snd e)) ents
  | _ => true
  end.

(** The regular files [count_files] gets to: those below directories
    it can list, at paths that fit its buffer. *)
Fixpoint scanned (PATH_MAX : nat) (path : string) (t : tree) : nat :=
  match t with
  | TFile _ _ _ => 1
  | TDir rd _ ents =>
      if rd then
        list_sum (map (fun e =>
                         if fitsb PATH_MAX (join path (fst e))
                         then scanned PATH_MAX (join path (fst e)) (snd e)
                         else 0) ents)
      else 0
  | TOther => 0
  end.

(** The same tree with the entries of its directories enumerated in
    another order. *)
Inductive reordered : tree -> tree -> Prop :=
| RO_file rd wr data : reordered (TFile rd wr data) (TFile rd wr data)
| RO_other : reordered TOther TOther
| RO_dir rd wr ents ents1 ents' :
    Forall2 (fun e e' => fst e = fst e' /\ reordered (snd e) (snd e')) ents ents1 ->
    Permutation ents1 ents' ->
    reordered (TDir rd wr ents) (TDir rd wr ents').

(** [total_files++] *)
Definition bump (w : World) : World :=
  set_total w (size_wrap (total_files w + 1)).

(** The levels of recursion left are enough for [path]. *)
Definition fuel_ok (PATH_MAX fuel : nat) (path : string) : Prop :=
  0 < fuel /\ PATH_MAX <= fuel + String.length path.

(** ** The copy pass *)

(** From [w] to [w'] nothing was printed or counted. *)
Definition same_output (w w' : World) : Prop :=
  cwd w' = cwd w /\ stdout w' = stdout w /\ stderr w' = stderr w /\
  total_files w' = total_files w /\ copied_files w' = copied_files w.

(** Some call of [fwrite] in the loop of [copy_file] returns fewer
    bytes than it was given. *)
Fixpoint writes_short (buffering : nat -> nat) (fuel : nat) (w : World)
    (fsrc fdst : nat) : bool :=
  match fuel with
  | O => false
  | S fuel' =>
      let '(buf, w1) := fread w fsrc BUFFER_SIZE in
      if length buf =? 0 then false
      else
        let '(wrote, w2) := fwrite buffering w1 fdst buf in
        if negb (wrote =? length buf) then true
        else writes_short buffering fuel' w2 fsrc fdst
  end.

(** [copied_files++] on the value of the counter. *)
Definition incr (z : Z) : Z := size_wrap (z + 1).

(** The progress lines of [c] successive copies, the counter standing
    at [z] before the first. *)
Fixpoint lines (z total : Z) (c : nat) : list out_event :=
  match c with
  | O => []
  | S c' => progress_line (incr z) total ++ lines (incr z) total c'
  end.

(** [k] is neither [kd], nor below it, nor the directory [kd] is
    entered in. *)
Definition outside (kd k : key) : Prop :=
  ~ kd `prefix_of` k /\ k <> removelast kd.

(** Neither key is at or below the other. *)
Definition incomparable (a b : key) : Prop :=
  ~ a `prefix_of` b /\ ~ b `prefix_of` a.

(** From [w] to [w'] the program copied [c] files and wrote nowhere
    [outside] of [kd]. *)
Definition copy_step (w w' : World) (kd : key) (c : nat) : Prop :=
  cwd w' = cwd w /\ streams w' = streams w /\
  total_files w' = total_files w /\ space w' <= space w /\
  (forall k, outside kd k -> fs w' !! k = fs w !! k) /\
  copied_files w' = Nat.iter c incr (copied_files w) /\
  stdout w' = stdout w ++ lines (copied_files w) (total_files w) c.

(** The regular files of a tree that can be opened for reading, those
    that cannot, and the bytes of the former. *)
Fixpoint nreadable (t : tree) : nat :=
  match t with
  | TFile rd _ _ => if rd then 1 else 0
  | TDir _ _ ents => list_sum (map (fun e => nreadable (snd e)) ents)
  | TOther => 0
  end.

Fixpoint nunreadable (t : tree) : nat :=
  match t with
  | TFile rd _ _ => if rd then 0 else 1
  | TDir _ _ ents => list_sum (map (fun e => nunreadable (snd e)) ents)
  | TOther => 0
  end.

Fixpoint readable_bytes (t : tree) : nat :=
  match t with
  | TFile rd _ data => if rd then length data else 0
  | TDir _ _ ents => list_sum (map (fun e => readable_bytes (snd e)) ents)
  | TOther => 0
  end.

(** [copied_to m k t]: below [k] the file system [m] holds a copy of
    [t]: its directories, its readable files with their bytes, and
    nothing for a file that cannot be read or for a special file. *)
Inductive copied_to (m : gmap key node) : key -> tree -> Prop :=
| CT_file k wr data rd' :
    m !! k = Some (Reg rd' true data) -> copied_to m k (TFile true wr data)
| CT_unreadable k wr data :
    m !! k = None -> copied_to m k (TFile false wr data)
| CT_dir k rd wr ents rd' names :
    m !! k = Some (Dir rd' true names) ->
    Forall (fun e => copied_to m (k ++ [fst e]) (snd e)) ents ->
    copied_to m k (TDir rd wr ents)
| CT_other k :
    m !! k = None -> copied_to m k TOther.

(** Nothing exists at [k] or below. *)
Definition vacant (m : gmap key node) (k : key) : Prop :=
  forall k', k `prefix_of` k' -> m !! k' = None.

(** [k] is a directory in which entries can be created. *)
Definition writable_dir (m : gmap key node) (k : key) : Prop :=
  exists rd names, m !! k = Some (Dir rd true names).

(** A directory can be made at [kd], or is there already. *)
Definition dst_ready (m : gmap key node) (kd : key) : Prop :=
  writable_dir m kd
  \/ (m !! kd = None /\ exists name, last kd = Some name
                         /\ writable_dir m (removelast kd)).

(** The directory at [k], if any, is still one, with the same
    permissions. *)
Definition dir_kept (m m' : gmap key node) (k : key) : Prop :=
  forall rd wr names, m !! k = Some (Dir rd wr names) ->
  exists names', m' !! k = Some (Dir rd wr names').

(** What [copy_dir] achieves from [w] to [w'] when nothing but
    unreadable files stands in its way: every readable file of [t] is
    copied below [kd] and counted, every unreadable one is reported. *)
Definition copied_exactly (w w' : World) (kd : key) (t : tree) : Prop :=
  copy_step w w' kd (nreadable t) /\
  copied_to (fs w') kd t /\
  space w' = space w - readable_bytes t /\
  length (stderr w') = length (stderr w) + nunreadable t /\
  (removelast kd <> kd -> dir_kept (fs w) (fs w') (removelast kd)).

(** ** Source paths *)

(** The path has a character other than the separator. *)
Fixpoint has_name (s : string) : bool :=
  match s with
  | EmptyString => false
  | String c s' => negb (Ascii.eqb c slash) || has_name s'
  end.

(** The two counters as each rendering of the progress line showed
    them. *)
Definition bars (out : list out_event) : list (Z * Z) :=
  flat_map (fun e => match e with
                     | Bar _ _ copied total => [(copied, total)]
                     | Text _ => []
                     end) out.

(** ** The exit status *)

(** The path [main] copies a regular file to: into [dst] when that is a
    directory, onto [dst] otherwise. *)
Definition file_target (PATH_MAX : nat) (w : World) (src dst : string) : string :=
  match stat PATH_MAX w dst with
  | Ok dstst => if S_ISDIR dstst then join dst (base_of src) else dst
  | Err _ => dst
  end.

(** What makes [main] give up before the copy pass: the wrong number of
    arguments, a source [stat] fails on, or, once files were counted, a
    destination path that does not fit or a top folder that cannot be
    made. *)
Definition top_level_failure (PATH_MAX : nat) (w : World) (argv : list string)
  : Prop :=
  let src := nth 1 argv "" in
  let dst := nth 2 argv "" in
  length argv <> 3 \/
  (exists e, stat PATH_MAX w src = Err e) \/
  (exists st w1,
     stat PATH_MAX w src = Ok st /\
     count_files PATH_MAX (S PATH_MAX) w src = Some w1 /\
     total_files w1 <> 0%Z /\
     ((st = S_IFDIR /\
       let newdst := join dst (base_of (trim_trailing_slashes src PATH_MAX)) in
       (fitsb PATH_MAX newdst = false \/
        exists e, mkdir_unless_exists PATH_MAX w1 newdst = Err e))
      \/
      (st = S_IFREG /\
       fitsb PATH_MAX (file_target PATH_MAX w1 src dst) = false))).

(* ================================================================== *)
(** * Checking a concrete file system *)
(* ================================================================== *)

Fixpoint bytes_eqb (a b : list byte) : bool :=
  match a, b with
  | [], [] => true
  | x :: a', y :: b' => Byte.eqb x y && bytes_eqb a' b'
  | _, _ => false
  end.

Fixpoint names_eqb (a b : list string) : bool :=
  match a, b with
  | [], [] => true
  | x :: a', y :: b' => String.eqb x y && names_eqb a' b'
  | _, _ => false
  end.

Fixpoint distinctb (l : list string) : bool :=
  match l with
  | [] => true
  | x :: l' => negb (existsb (String.eqb x) l') && distinctb l'
  end.

Definition valid_nameb (n : string) : bool :=
  negb (String.eqb n "") && negb (is_dot n) && negb (has_slash n).

Fixpoint has_treeb (m : gmap key node) (k : key) (t : tree) : bool :=
  match t with
  | TFile rd wr data =>
      match m !! k with
      | Some (Reg rd' wr' data') =>
          Bool.eqb rd rd' && Bool.eqb wr wr' && bytes_eqb data' data
      | _ => false
      end
  | TDir rd wr ents =>
      match m !! k with
      | Some (Dir rd' wr' names) =>
          Bool.eqb rd rd' && Bool.eqb wr wr'
          && names_eqb (entries names) (map fst ents)
          && distinctb (map fst ents)
          && forallb valid_nameb (map fst ents)
          && forallb (fun e => has_treeb m (k ++ [fst e]) (snd e)) ents
      | _ => false
      end
  | TOther =>
      match m !! k with
      | Some Other => true
      | _ => false
      end
  end.

(** Nothing of a concrete file system lies at [kd] or below it, [kd]
    itself excepted when [strict]. *)
Definition clearb (strict : bool) (m : gmap key node) (kd : key) : bool :=
  forallb (fun kn => negb (bool_decide (kd `prefix_of` fst kn))
                     || (strict && bool_decide (fst kn = kd)))
          (map_to_list m).

Definition incomparableb (a b : key) : bool :=
  negb (bool_decide (a `prefix_of` b)) && negb (bool_decide (b `prefix_of` a)).

(* ================================================================== *)
(** * Concrete file systems *)
(* ================================================================== *)

(** ** A small file system

    [/d] holds a readable file [f], a file [g] the process may not read,
    a FIFO [p] and a folder [s] with one more file; [/e] holds empty
    folders only; [/b] is empty. *)
Definition fs_demo : gmap key node :=
  list_to_map
    [ ([], Dir true true ["."; ".."; "d"; "e"; "b"]);
      (["d"], Dir true true ["."; ".."; "f"; "g"; "p"; "s"]);
      (["d"; "f"], Reg true true [x01; x02; x03]);
      (["d"; "g"], Reg false true [x04]);
      (["d"; "p"], Other);
      (["d"; "s"], Dir true true ["."; ".."; "h"]);
      (["d"; "s"; "h"], Reg true true [x05; x06]);
      (["e"], Dir true true ["."; ".."; "x"; "y"]);
      (["e"; "x"], Dir true true ["."; ".."]);
      (["e"; "y"], Dir true true ["."; ".."]);
      (["b"], Dir true true ["."; ".."]) ].

Definition t_demo : tree :=
  TDir true true
    [ ("f", TFile true true [x01; x02; x03]);
      ("g", TFile false true [x04]);
      ("p", TOther);
      ("s", TDir true true [("h", TFile true true [x05; x06])]) ].

(** [t_demo] as another enumeration of [/d] would show it. *)
Definition fs_demo' : gmap key node :=
  <[ ["d"] := Dir true true ["s"; ".."; "p"; "g"; "."; "f"] ]> fs_demo.

Definition t_demo' : tree :=
  TDir true true
    [ ("s", TDir true true [("h", TFile true true [x05; x06])]);
      ("p", TOther);
      ("g", TFile false true [x04]);
      ("f", TFile true true [x01; x02; x03]) ].

Definition t_empty : tree :=
  TDir true true [("x", TDir true true []); ("y", TDir true true [])].

Definition w_demo : World := boot [] fs_demo 100.




(** ** A deep tree

    [depth] folders called [name], one inside the other below [k], with
    a file [f] in the first and in the last of them. *)
Definition long_name : string := rep "n"%char 255.

Fixpoint chain_fs (depth : nat) (k : key) (m : gmap key node) : gmap key node :=
  match depth with
  | O => <[k := Dir true true ["."; ".."; "f"]]>
           (<[k ++ ["f"] := Reg true true [x07]]> m)
  | S depth' =>
      <[k := Dir true true ["."; ".."; long_name]]>
        (chain_fs depth' (k ++ [long_name]) m)
  end.

Fixpoint chain_tree (depth : nat) : tree :=
  match depth with
  | O => TDir true true [("f", TFile true true [x07])]
  | S depth' => TDir true true [(long_name, chain_tree depth')]
  end.

Definition fs_deep : gmap key node :=
  <[ [] := Dir true true ["."; ".."; "top"] ]>
    (<[ ["top"] := Dir true true ["."; ".."; "f"; long_name] ]>
       (<[ ["top"; "f"] := Reg true true [x08] ]>
          (chain_fs 15 ["top"; long_name] ∅))).

Definition t_deep : tree :=
  TDir true true [("f", TFile true true [x08]); (long_name, chain_tree 15)].



(** ** A FIFO as the source *)
Definition fs_fifo : gmap key node :=
  list_to_map
    [ ([], Dir true true ["."; ".."; "p"; "b"]);
      (["p"], Other);
      (["b"], Dir true true ["."; ".."]) ].

(* ================================================================== *)
(** * More vocabulary *)
(* ================================================================== *)

(** A file can be opened for writing at [k]: a regular file the process
    may write is there, or nothing is and the directory [k] would be
    entered in takes new entries. *)
Definition file_ready (m : gmap key node) (k : key) : Prop :=
  (exists rd d, m !! k = Some (Reg rd true d))
  \/ (m !! k = None /\ exists name, last k = Some name
                        /\ writable_dir m (removelast k)).

(** Every entry of [m] is still there in [m'], and is of the same kind:
    a file is a file, a directory a directory. *)
Definition kinds_kept (m m' : gmap key node) : Prop :=
  forall k n, m !! k = Some n ->
  exists n', m' !! k = Some n' /\ mode_of n' = mode_of n.

(** From [w] to [w'] nothing happened but reports on standard error. *)
Definition only_reported (w w' : World) : Prop :=
  cwd w' = cwd w /\ fs w' = fs w /\ space w' = space w /\
  streams w' = streams w /\ stdout w' = stdout w /\
  total_files w' = total_files w /\ copied_files w' = copied_files w.

(** ** More file systems *)

(** [fs_demo] with a regular file where the copy of [/d] under [/b]
    would go. *)
Definition fs_taken : gmap key node :=
  <[ ["b"; "d"] := Reg true true [x0a] ]>
    (<[ ["b"] := Dir true true ["."; ".."; "d"] ]> fs_demo).

(** [fs_demo] with the folder [/d/s] closed to listing. *)
Definition fs_locked : gmap key node :=
  <[ ["d"; "s"] := Dir false true ["."; ".."; "h"] ]> fs_demo.

(** From [w] to [w'] the program copied [c] files: the counter went up
    [c] times, each time followed by its progress line; the streams
    that were open are the streams that are open; [total_files] is what
    it was. *)
Definition counted (w w' : World) (c : nat) : Prop :=
  streams w' = streams w /\ total_files w' = total_files w /\
  copied_files w' = Nat.iter c incr (copied_files w) /\
  stdout w' = stdout w ++ lines (copied_files w) (total_files w) c.

(* ================================================================== *)
(** * The progress line *)
(* ================================================================== *)

Lemma bar_loop_filled pos n : forall i,
  (i + Z.of_nat n <= pos)%Z -> bar_loop pos i n = rep "="%char n.
Proof.
  induction n as [|n IH]; intros i H; [reflexivity|].
  cbn [bar_loop rep]. unfold cell.
  destruct (Z.ltb_spec i pos); [|lia].
  f_equal. apply IH. lia.
Qed.

Lemma bar_loop_blank pos n : forall i,
  (pos < i)%Z -> bar_loop pos i n = rep " "%char n.
Proof.
  induction n as [|n IH]; intros i H; [reflexivity|].
  cbn [bar_loop rep]. unfold cell.
  destruct (Z.ltb_spec i pos); [lia|].
  destruct (Z.eqb_spec i pos); [lia|].
  f_equal. apply IH. lia.
Qed.

Lemma bar_loop_boundary pos n : forall i,
  (i <= pos < i + Z.of_nat n)%Z ->
  bar_loop pos i n =
    rep "="%char (Z.to_nat (pos - i)) +:+
    String ">"%char (rep " "%char (n - 1 - Z.to_nat (pos - i))).
Proof.
  induction n as [|n IH]; intros i H; [lia|].
  cbn [bar_loop]. unfold cell.
  destruct (Z.ltb_spec i pos).
  - rewrite IH by lia.
    assert (E1 : Z.to_nat (pos - i) = S (Z.to_nat (pos - (i + 1)))) by lia.
    assert (E2 : S n - 1 - S (Z.to_nat (pos - (i + 1)))
                 = n - 1 - Z.to_nat (pos - (i + 1))) by lia.
    rewrite E1, E2. reflexivity.
  - destruct (Z.eqb_spec i pos); [|lia]. subst.
    rewrite Z.sub_diag, bar_loop_blank by lia.
    assert (E : S n - 1 - Z.to_nat 0 = n) by lia.
    rewrite E. reflexivity.
Qed.

Lemma show_progress_stdout w :
  show_progress w =
  mkWorld (cwd w) (fs w) (space w) (streams w)
    (stdout w ++ progress_line (copied_files w) (total_files w))
    (stderr w) (total_files w) (copied_files w).
Proof.
  unfold show_progress, progress_line.
  destruct (total_files w =? 0)%Z.
  - rewrite app_nil_r. destruct w; reflexivity.
  - reflexivity.
Qed.

(** C9 (amended).  [show_progress] does nothing when [total_files] is
    zero.  Otherwise it prints one line with the percentage
    [copied_files / total_files * 100], computed in [double], and a bar
    of 40 cells for the position [pos = (int)(percent / 100 * 40)]:
    below 40, [pos] filled cells, one transition cell and blanks for the
    rest; from 40 on (a copy that is complete), 40 filled cells and no
    transition cell. *)
Theorem show_progress_bar w :
  (total_files w = 0%Z -> show_progress w = w) /\
  (total_files w <> 0%Z ->
   let percent := progress_of (copied_files w) (total_files w) in
   let pos := pos_of percent in
   exists cells,
     show_progress w =
       print w (Bar cells percent (copied_files w) (total_files w)) /\
     String.length cells = 40 /\
     ((0 <= pos < 40)%Z ->
        cells = rep "="%char (Z.to_nat pos) +:+
                String ">"%char (rep " "%char (39 - Z.to_nat pos))) /\
     ((40 <= pos)%Z -> cells = rep "="%char 40) /\
     ((pos < 0)%Z -> cells = rep " "%char 40)).
Proof.
  split.
  - intros H. unfold show_progress. rewrite H. reflexivity.
  - intros H percent pos.
    exists (bar_loop pos 0 (Z.to_nat bar_width)). split; [|split; [|split; [|split]]].
    + unfold show_progress. destruct (Z.eqb_spec (total_files w) 0); [contradiction|].
      reflexivity.
    + change (Z.to_nat bar_width) with 40.
      generalize 0%Z. generalize 40. induction n; intros; cbn; auto.
    + intros Hp. change (Z.to_nat bar_width) with 40.
      rewrite bar_loop_boundary by lia. rewrite Z.sub_0_r. reflexivity.
    + intros Hp. apply bar_loop_filled. cbn. lia.
    + intros Hp. apply bar_loop_blank. lia.
Qed.

Lemma show_progress_complete_no_transition :
  show_progress (mkWorld [] ∅ 0 ∅ [] [] 1 1) =
  mkWorld [] ∅ 0 ∅ [Bar (rep "="%char 40) (double_of_Z 100) 1 1] [] 1 1.
Proof. vm_compute. reflexivity. Qed.

(* ================================================================== *)
(** * Path names and buffers *)
(* ================================================================== *)

Lemma append_cons c (a b : string) : String c a +:+ b = String c (a +:+ b).
Proof. reflexivity. Qed.

Lemma length_append (a b : string) :
  String.length (a +:+ b) = String.length a + String.length b.
Proof. induction a as [|c a IH]; simpl; [reflexivity|]. f_equal. exact IH. Qed.

Lemma length_join p n :
  String.length (join p n) = String.length p + S (String.length n).
Proof. unfold join. rewrite length_append. reflexivity. Qed.

Lemma split_nonempty s : split s <> [].
Proof.
  destruct s as [|c s]; cbn; [discriminate|].
  destruct (Ascii.eqb c slash); [discriminate|].
  destruct (split s); discriminate.
Qed.

Lemma split_append_slash p n :
  split (p +:+ String slash n) = split p ++ split n.
Proof.
  induction p as [|c p IH]; simpl.
  - reflexivity.
  - destruct (Ascii.eqb c slash); [rewrite IH; reflexivity|].
    rewrite IH. pose proof (split_nonempty p).
    destruct (split p); [contradiction|]. reflexivity.
Qed.

Lemma split_no_slash n : has_slash n = false -> split n = [n].
Proof.
  induction n as [|c n IH]; cbn; [reflexivity|].
  intros H. apply orb_false_iff in H as [Hc Hn].
  rewrite Hc, IH by assumption. reflexivity.
Qed.

Lemma walk_valid k n : valid_name n -> walk k n = k ++ [n].
Proof.
  intros (Hne & Hdot & _). unfold walk.
  unfold is_dot in Hdot. apply orb_false_iff in Hdot as [H1 H2].
  rewrite H1, H2.
  destruct (String.eqb_spec n ""); [contradiction|]. reflexivity.
Qed.

Lemma absolute_join p n : p <> EmptyString -> absolute (join p n) = absolute p.
Proof. destruct p; [contradiction|reflexivity]. Qed.

Lemma namei_join cwd0 p n :
  p <> EmptyString -> valid_name n ->
  namei cwd0 (join p n) = namei cwd0 p ++ [n].
Proof.
  intros Hp Hn. unfold namei. rewrite absolute_join by assumption.
  unfold join. rewrite split_append_slash, fold_left_app.
  rewrite split_no_slash by apply Hn. cbn. apply walk_valid, Hn.
Qed.

Lemma ends_slash_append p n :
  n <> EmptyString -> ends_slash (p +:+ n) = ends_slash n.
Proof.
  intros Hn. induction p as [|c p IH]; [reflexivity|].
  rewrite append_cons, <- IH.
  assert (H : p +:+ n <> EmptyString)
    by (destruct p; simpl; [assumption|discriminate]).
  destruct (p +:+ n); [contradiction|reflexivity].
Qed.

Lemma ends_slash_no_slash n : has_slash n = false -> ends_slash n = false.
Proof.
  induction n as [|c n IH]; [reflexivity|].
  cbn. intros H. apply orb_false_iff in H as [Hc Hn].
  destruct n; [assumption|]. apply IH, Hn.
Qed.

Lemma ends_slash_join p n : valid_name n -> ends_slash (join p n) = false.
Proof.
  intros (Hne & _ & Hs). unfold join.
  rewrite ends_slash_append by discriminate.
  destruct n as [|c n]; [contradiction|].
  change (ends_slash (String slash (String c n))) with (ends_slash (String c n)).
  apply ends_slash_no_slash, Hs.
Qed.

Lemma join_nonempty p n : join p n <> EmptyString.
Proof. destruct p; discriminate. Qed.

Lemma substring_all n s : String.length s <= n -> substring 0 n s = s.
Proof.
  revert n. induction s as [|c s IH]; intros n H.
  - destruct n; reflexivity.
  - destruct n; cbn in H; [lia|]. cbn. rewrite IH by lia. reflexivity.
Qed.

Section Paths.

Variable PATH_MAX : nat.

Lemma too_long_fits s :
  too_long PATH_MAX (fst (snprintf PATH_MAX s)) = false <-> fits PATH_MAX s.
Proof.
  unfold too_long, snprintf, fits. cbn [fst].
  destruct (Z.ltb_spec INT_MAX (Z.of_nat (String.length s))).
  - cbn. split; [discriminate|lia].
  - rewrite orb_false_iff, Z.ltb_ge, Z.leb_gt. lia.
Qed.

Lemma snprintf_fits s : fits PATH_MAX s -> snprintf PATH_MAX s = (Z.of_nat (String.length s), s).
Proof.
  intros [H1 H2]. unfold snprintf.
  destruct (Z.ltb_spec INT_MAX (Z.of_nat (String.length s))); [lia|].
  rewrite substring_all by lia. reflexivity.
Qed.

Lemma snprintf_too_long s :
  ~ fits PATH_MAX s -> too_long PATH_MAX (fst (snprintf PATH_MAX s)) = true.
Proof.
  intros H. destruct (too_long _ _) eqn:E; [reflexivity|].
  apply too_long_fits in E. contradiction.
Qed.

Lemma fits_dec s : {fits PATH_MAX s} + {~ fits PATH_MAX s}.
Proof.
  unfold fits.
  destruct (lt_dec (String.length s) PATH_MAX);
  destruct (Z_le_dec (Z.of_nat (String.length s)) INT_MAX); (left; tauto) || (right; tauto).
Qed.

Lemma resolve_ok w p k :
  resolve PATH_MAX w p = Ok k <->
  p <> EmptyString /\ String.length p < PATH_MAX /\ k = namei (cwd w) p.
Proof.
  unfold resolve. destruct (String.eqb_spec p "").
  - split; [discriminate|]. intros (H & _); contradiction.
  - destruct (Nat.leb_spec PATH_MAX (String.length p)).
    + split; [discriminate|]. lia.
    + split; [intros [= <-]; auto|]. intros (_ & _ & ->). reflexivity.
Qed.

Lemma resolve_join w p k n :
  resolve PATH_MAX w p = Ok k -> valid_name n -> fits PATH_MAX (join p n) ->
  resolve PATH_MAX w (join p n) = Ok (k ++ [n]).
Proof.
  intros Hp Hn [Hf _]. apply resolve_ok in Hp as (Hne & _ & ->).
  apply resolve_ok. split; [apply join_nonempty|]. split; [assumption|].
  symmetry. apply namei_join; assumption.
Qed.

End Paths.

(* ================================================================== *)
(** * Trailing slashes and the last component *)
(* ================================================================== *)

Lemma append_nil_r (s : string) : s +:+ "" = s.
Proof. induction s as [|c s IH]; [reflexivity|]. rewrite append_cons, IH. reflexivity. Qed.

Lemma append_assoc (a b c : string) : (a +:+ b) +:+ c = a +:+ (b +:+ c).
Proof. induction a as [|x a IH]; [reflexivity|]. rewrite !append_cons, IH. reflexivity. Qed.

Lemma length_rep c n : String.length (rep c n) = n.
Proof. induction n as [|n IH]; [reflexivity|]. cbn. rewrite IH. reflexivity. Qed.

Lemma all_slashes s : has_name s = false -> s = rep slash (String.length s).
Proof.
  induction s as [|c s IH]; [reflexivity|]. cbn [has_name].
  intros H. apply orb_false_iff in H as [Hc Hs].
  apply negb_false_iff, Ascii.eqb_eq in Hc. subst c.
  cbn [String.length rep]. rewrite <- IH by assumption. reflexivity.
Qed.

(** A path with a name in it is a path that does not end in a slash,
    followed by slashes. *)
Lemma trailing_slashes s :
  has_name s = true ->
  exists t n, s = t +:+ rep slash n /\ ends_slash t = false /\ t <> EmptyString.
Proof.
  induction s as [|c s IH]; [discriminate|]. cbn [has_name]. intros H.
  destruct (has_name s) eqn:Hs.
  - destruct (IH eq_refl) as (t & n & -> & Ht & Hne).
    exists (String c t), n. split; [reflexivity|]. split; [|discriminate].
    destruct t; [contradiction|exact Ht].
  - rewrite orb_false_r in H. apply negb_true_iff in H.
    exists (String c ""), (String.length s).
    split; [rewrite append_cons; cbn; f_equal; apply all_slashes; assumption|].
    split; [exact H|discriminate].
Qed.

Lemma get_append_l (a b : string) i :
  i < String.length a -> String.get i (a +:+ b) = String.get i a.
Proof.
  revert i. induction a as [|c a IH]; intros i H; cbn in H; [lia|].
  rewrite append_cons. destruct i; [reflexivity|]. cbn. apply IH. lia.
Qed.

Lemma get_append_r (a b : string) i :
  String.get (String.length a + i) (a +:+ b) = String.get i b.
Proof. induction a as [|c a IH]; [reflexivity|]. rewrite append_cons. cbn. exact IH. Qed.

Lemma get_rep c n i : i < n -> String.get i (rep c n) = Some c.
Proof.
  revert i. induction n as [|n IH]; intros i H; [lia|].
  destruct i; [reflexivity|]. cbn. apply IH. lia.
Qed.

Lemma get_last t :
  t <> EmptyString -> ends_slash t = false ->
  exists c, String.get (String.length t - 1) t = Some c /\ Ascii.eqb c slash = false.
Proof.
  induction t as [|c t IH]; [contradiction|]. intros _ H.
  destruct t as [|c' t].
  - exists c. split; [reflexivity|exact H].
  - destruct IH as (x & Hx & Hs); [discriminate|exact H|].
    exists x. split; [|exact Hs].
    replace (String.length (String c (String c' t)) - 1)
      with (S (String.length (String c' t) - 1)) by (cbn [String.length]; lia).
    exact Hx.
Qed.

Lemma trim_loop_append u v len :
  len <= String.length u -> trim_loop (u +:+ v) len = trim_loop u len.
Proof.
  induction len as [|len IH]; intros Hlen; [reflexivity|].
  destruct len as [|len]; [reflexivity|].
  cbn [trim_loop]. rewrite get_append_l by lia.
  destruct (String.get (S len) u) as [c|]; [|reflexivity].
  destruct (Ascii.eqb c slash); [|reflexivity].
  apply IH. lia.
Qed.

Lemma trim_loop_step s l :
  trim_loop s (S (S l)) =
    match String.get (S l) s with
    | Some c => if Ascii.eqb c slash then trim_loop s (S l) else S (S l)
    | None => S (S l)
    end.
Proof. reflexivity. Qed.

Lemma rep_snoc c n : rep c (S n) = rep c n +:+ String c "".
Proof.
  induction n as [|n IH]; [reflexivity|].
  cbn [rep] in *. rewrite append_cons, <- IH. reflexivity.
Qed.

Lemma trim_loop_spec t n :
  t <> EmptyString -> ends_slash t = false ->
  trim_loop (t +:+ rep slash n) (String.length t + n) = String.length t.
Proof.
  intros Hne He. induction n as [|n IH].
  - rewrite Nat.add_0_r. cbn [rep]. rewrite append_nil_r.
    destruct (get_last t Hne He) as (c & Hc & Hs).
    destruct (String.length t) as [|[|l]] eqn:El; [reflexivity|reflexivity|].
    cbn [trim_loop]. replace (S (S l) - 1) with (S l) in Hc by lia.
    rewrite Hc, Hs. reflexivity.
  - assert (Hl : 0 < String.length t) by (destruct t; [contradiction|cbn; lia]).
    assert (E1 : String.length t + S n = S (S (String.length t + n - 1))) by lia.
    assert (E2 : S (String.length t + n - 1) = String.length t + n) by lia.
    rewrite E1, trim_loop_step, E2.
    rewrite get_append_r, get_rep by lia. rewrite Ascii.eqb_refl.
    rewrite rep_snoc, <- append_assoc, trim_loop_append; [exact IH|].
    rewrite length_append, length_rep. lia.
Qed.

Lemma substring_prefix (t u : string) :
  String.substring 0 (String.length t) (t +:+ u) = t.
Proof.
  induction t as [|c t IH].
  - destruct u; reflexivity.
  - rewrite append_cons.
    change (String c (String.substring 0 (String.length t) (t +:+ u)) = String c t).
    f_equal. exact IH.
Qed.

Lemma trim_trailing_slashes_spec t n bufsz :
  t <> EmptyString -> ends_slash t = false ->
  String.length t + n < bufsz ->
  trim_trailing_slashes (t +:+ rep slash n) bufsz = t.
Proof.
  intros Hne He Hlen. unfold trim_trailing_slashes.
  rewrite length_append, length_rep, trim_loop_spec by assumption.
  destruct (Nat.leb_spec bufsz (String.length t)); [lia|].
  apply substring_prefix.
Qed.

(** [strrchr] finds the last slash: what follows it has none. *)
Lemma strrchr_spec t :
  (strrchr t slash = None /\ has_slash t = false)
  \/ (exists pre r, strrchr t slash = Some (String slash r) /\
        t = pre +:+ String slash r /\ has_slash r = false).
Proof.
  induction t as [|c t IH]; [left; auto|]. cbn [strrchr has_slash].
  destruct IH as [(-> & Hs)|(pre & r & -> & -> & Hr)].
  - destruct (Ascii.eqb c slash) eqn:Ec.
    + right. apply Ascii.eqb_eq in Ec. subst c.
      exists "", t. auto.
    + left. rewrite Hs. auto.
  - right. exists (String c pre), r. auto.
Qed.

Lemma base_of_spec t :
  exists pre,
    t = pre +:+ base_of t /\ has_slash (base_of t) = false /\
    (pre = EmptyString \/ ends_slash pre = true).
Proof.
  unfold base_of.
  destruct (strrchr_spec t) as [(-> & Hs)|(pre & r & -> & -> & Hr)].
  - exists "". auto.
  - exists (pre +:+ "/"). split; [rewrite append_assoc; reflexivity|].
    split; [assumption|]. right.
    rewrite ends_slash_append by discriminate. reflexivity.
Qed.

(** After the trailing slashes are dropped, [base] is the last
    component of the path: a non-empty name without a slash, preceded
    by nothing or by a path that ends in a slash. *)
Lemma last_component s bufsz :
  has_name s = true -> String.length s < bufsz ->
  exists pre n,
    s = pre +:+ base_of (trim_trailing_slashes s bufsz) +:+ rep slash n /\
    base_of (trim_trailing_slashes s bufsz) <> EmptyString /\
    has_slash (base_of (trim_trailing_slashes s bufsz)) = false /\
    (pre = EmptyString \/ ends_slash pre = true).
Proof.
  intros Hn Hlen.
  destruct (trailing_slashes s Hn) as (t & n & -> & He & Hne).
  rewrite length_append, length_rep in Hlen.
  rewrite trim_trailing_slashes_spec by assumption.
  destruct (base_of_spec t) as (pre & Ht & Hs & Hpre).
  exists pre, n. split; [rewrite <- append_assoc, <- Ht; reflexivity|].
  split; [|auto].
  intros E. rewrite E, append_nil_r in Ht. subst pre.
  destruct Hpre; congruence.
Qed.

(* ================================================================== *)
(** * [copy_file] *)
(* ================================================================== *)

Section CopyFile.

Variable PATH_MAX : nat.
Variable buffering : nat -> nat.

Lemma fresh_stream_free (w : World) :
  streams w !! fresh (dom (streams w)) = None.
Proof. apply not_elem_of_dom, is_fresh. Qed.

Lemma BUFFER_SIZE_pos : 0 < BUFFER_SIZE.
Proof. apply Nat.ltb_lt. vm_compute. reflexivity. Qed.

Lemma close_both (m : gmap nat stream) a b x y :
  delete b (delete a (<[b:=y]> (<[a:=x]> m))) = delete b (delete a m).
Proof.
  apply map_eq; intros i.
  destruct (decide (i = b)) as [->|Hb].
  { rewrite !lookup_delete_eq. reflexivity. }
  rewrite !(lookup_delete_ne _ b i) by congruence.
  destruct (decide (i = a)) as [->|Ha].
  { rewrite !lookup_delete_eq. reflexivity. }
  rewrite !(lookup_delete_ne _ a i) by congruence.
  rewrite !lookup_insert_ne by congruence. reflexivity.
Qed.

Lemma take_chunk_app (data : list byte) ps n :
  take ps data ++ take n (drop ps data)
  = take (ps + length (take n (drop ps data))) data.
Proof.
  rewrite <- take_take_drop. f_equal.
  rewrite length_take. 
  destruct (Nat.min_spec n (length (drop ps data))) as [[_ ->]|[Hle ->]]; [reflexivity|].
  rewrite take_ge by lia. rewrite take_ge by lia. reflexivity.
Qed.

Lemma take_min_length {A} (l : list A) n : take (min (length l) n) l = take n l.
Proof.
  destruct (Nat.min_spec (length l) n) as [[H ->]|[H ->]]; [|reflexivity].
  rewrite !take_ge by lia. reflexivity.
Qed.

(** ** Writing *)

Lemma same_output_refl w : same_output w w.
Proof. repeat split. Qed.

Lemma same_output_trans w1 w2 w3 :
  same_output w1 w2 -> same_output w2 w3 -> same_output w1 w3.
Proof.
  intros (A1 & A2 & A3 & A4 & A5) (B1 & B2 & B3 & B4 & B5).
  repeat split; congruence.
Qed.

Lemma dev_write_spec w k bytes rd wr data :
  fs w !! k = Some (Reg rd wr data) ->
  exists w1,
    dev_write w k (length data) bytes = (min (length bytes) (space w), w1) /\
    same_output w w1 /\ streams w1 = streams w /\
    fs w1 = <[k := Reg rd wr (data ++ take (min (length bytes) (space w)) bytes)]>
              (fs w) /\
    space w1 = space w - min (length bytes) (space w).
Proof.
  intros Hk. destruct bytes as [|b bytes].
  - exists w. cbn. split; [reflexivity|]. split; [apply same_output_refl|].
    split; [reflexivity|]. split; [|lia].
    rewrite app_nil_r. symmetry. apply insert_id. assumption.
  - unfold dev_write. rewrite Hk.
    eexists. split; [reflexivity|]. cbn [fs space streams set_fs set_space].
    split; [repeat split|]. split; [reflexivity|]. split; [|reflexivity].
    rewrite take_ge, Nat.sub_diag, drop_ge by lia. cbn [replicate app].
    rewrite app_nil_r. reflexivity.
Qed.

Lemma fwrite_spec w f buf k pend rd wr data :
  streams w !! f = Some (Stream k (length data) pend) ->
  fs w !! k = Some (Reg rd wr data) ->
  exists w2,
    let due := min (buffering (length (pend ++ buf))) (length (pend ++ buf)) in
    let n := min due (space w) in
    fwrite buffering w f buf = (length buf - min (length buf) (due - n), w2) /\
    same_output w w2 /\
    streams w2 = <[f := Stream k (length data + n) (drop n (pend ++ buf))]>
                   (streams w) /\
    fs w2 = <[k := Reg rd wr (data ++ take n (pend ++ buf))]> (fs w) /\
    space w2 = space w - n.
Proof.
  intros Hf Hk. unfold fwrite. rewrite Hf.
  set (pend' := pend ++ buf).
  set (due := min (buffering (length pend')) (length pend')).
  destruct (dev_write_spec w k (take due pend') rd wr data Hk)
    as (w1 & E & Hsame & Hstr & Hfs & Hsp).
  assert (Hl : length (take due pend') = due) by (rewrite length_take; lia).
  rewrite Hl in *. rewrite take_take in Hfs.
  assert (Hm : Nat.min (Nat.min due (space w)) due = Nat.min due (space w)) by lia.
  rewrite Hm in Hfs.
  rewrite E. eexists. cbv zeta. split; [reflexivity|].
  cbn [fs space streams set_streams cwd stdout stderr total_files copied_files].
  split; [exact Hsame|]. split; [reflexivity|]. split; [exact Hfs|exact Hsp].
Qed.

(** Closing a stream with nothing pending only releases it. *)
Lemma fclose_clean w f k pos :
  streams w !! f = Some (Stream k pos []) ->
  fclose w f = (0%Z, set_streams w (delete f (streams w))).
Proof. intros Hf. unfold fclose. rewrite Hf. reflexivity. Qed.

Lemma fclose_spec w f k pend rd wr data :
  streams w !! f = Some (Stream k (length data) pend) ->
  fs w !! k = Some (Reg rd wr data) ->
  exists z w1,
    fclose w f = (z, w1) /\ same_output w w1 /\
    streams w1 = delete f (streams w) /\
    fs w1 = <[k := Reg rd wr (data ++ take (space w) pend)]> (fs w) /\
    space w1 = space w - min (length pend) (space w).
Proof.
  intros Hf Hk. unfold fclose. rewrite Hf.
  destruct (dev_write_spec w k pend rd wr data Hk)
    as (w1 & E & Hsame & Hstr & Hfs & Hsp).
  rewrite E. eexists _, _. split; [reflexivity|].
  cbn [fs space streams set_streams cwd stdout stderr total_files copied_files].
  split; [exact Hsame|]. split; [reflexivity|]. split; [|exact Hsp].
  rewrite Hfs, take_min_length. reflexivity.
Qed.

(** ** The loop

    [data] is what the source holds, [ps] how far it has been read;
    [ddata] is what the destination holds and [pend] what is pending in
    its stream: together they are what has been read. *)
Lemma copy_loop_spec fuel :
  forall w fsrc fdst dst ks kd ps pend rd wr data rd' wr' ddata,
  fsrc <> fdst -> (ks <> kd \/ length data <= ps) ->
  streams w !! fsrc = Some (Stream ks ps []) ->
  streams w !! fdst = Some (Stream kd (length ddata) pend) ->
  fs w !! ks = Some (Reg rd wr data) ->
  fs w !! kd = Some (Reg rd' wr' ddata) ->
  ddata ++ pend = take ps data ->
  ps <= length data -> length data - ps < fuel ->
  exists r w',
    copy_loop buffering fuel w fsrc fdst dst = Some (r, w') /\
    cwd w' = cwd w /\ total_files w' = total_files w /\
    space w' = space w - min (length data - length ddata) (space w) /\
    streams w' = delete fdst (delete fsrc (streams w)) /\
    (forall k, k <> kd -> fs w' !! k = fs w !! k) /\
    fs w' !! kd = Some (Reg rd' wr' (take (length ddata + space w) data)) /\
    ((r = 0%Z /\
      copied_files w' = size_wrap (copied_files w + 1) /\
      stdout w' = stdout w ++ progress_line (copied_files w') (total_files w) /\
      stderr w' = stderr w)
     \/
     (r = (-1)%Z /\ space w < length data - length ddata /\
      copied_files w' = copied_files w /\
      stdout w' = stdout w /\
      stderr w' = stderr w ++ ["write error to '" +:+ dst +:+ "'" +:+ nl])) /\
    ((forall n, n <= length data -> buffering n = 0) -> r = 0%Z) /\
    ((forall n, buffering n = n) -> pend = [] ->
     space w < length data - length ddata -> r = (-1)%Z).
Proof.
  induction fuel as [|fuel IH];
    intros w fsrc fdst dst ks kd ps pend rd wr data rd' wr' ddata
      Hne Hal Hs Hd Hks Hkd Hinv Hps Hfuel; [lia|].
  assert (Hlen : length ddata + length pend = ps).
  { apply (f_equal length) in Hinv. rewrite length_app, length_take in Hinv. lia. }
  cbn [copy_loop]. unfold fread. rewrite Hs, Hks.
  set (buf := take BUFFER_SIZE (drop ps data)).
  set (w1 := set_streams w (<[fsrc := Stream ks (ps + length buf) []]> (streams w))).
  assert (Hbl : length buf = Nat.min BUFFER_SIZE (length data - ps)).
  { subst buf. rewrite length_take, length_drop. reflexivity. }
  pose proof BUFFER_SIZE_pos as Hpos.
  assert (Hd1 : streams w1 !! fdst = Some (Stream kd (length ddata) pend)).
  { subst w1. cbn. rewrite lookup_insert_ne by assumption. exact Hd. }
  destruct (Nat.eqb_spec (length buf) 0) as [Hz|Hnz].
  - (* end of input *)
    assert (Hall : take ps data = data) by (apply take_ge; lia).
    rewrite Hall in Hinv.
    rewrite (fclose_clean w1 fsrc ks (ps + length buf))
      by (subst w1; cbn; apply lookup_insert_eq).
    set (w2 := set_streams w1 (delete fsrc (streams w1))).
    destruct (fclose_spec w2 fdst kd pend rd' wr' ddata)
      as (z & w3 & -> & (Hc3 & Ho3 & He3 & Ht3 & Hn3) & Hstr3 & Hfs3 & Hsp3).
    { subst w2. cbn [streams set_streams].
      rewrite lookup_delete_ne by assumption. exact Hd1. }
    { exact Hkd. }
    eexists _, _. split; [reflexivity|].
    rewrite show_progress_stdout.
    cbn [cwd fs space streams stdout stderr total_files copied_files set_copied].
    change (space w2) with (space w) in Hsp3.
    change (fs w2) with (fs w) in Hfs3.
    change (cwd w2) with (cwd w) in Hc3. change (stdout w2) with (stdout w) in Ho3.
    change (stderr w2) with (stderr w) in He3.
    change (total_files w2) with (total_files w) in Ht3.
    change (copied_files w2) with (copied_files w) in Hn3.
    split; [exact Hc3|]. split; [exact Ht3|].
    split; [rewrite Hsp3; lia|].
    split.
    { rewrite Hstr3. subst w2 w1. cbn [streams set_streams].
      rewrite delete_insert_eq. reflexivity. }
    split; [intros k Hk; rewrite Hfs3; apply lookup_insert_ne; congruence|].
    split.
    { rewrite Hfs3, lookup_insert_eq. do 2 f_equal.
      rewrite <- Hinv. rewrite take_app_add'; reflexivity. }
    split; [left|split; [reflexivity|]].
    + split; [reflexivity|].
      split; [rewrite Hn3; reflexivity|].
      split; [rewrite Ho3, Hn3, Ht3; reflexivity|exact He3].
    + intros _ Hp Hsh. subst pend. cbn in Hlen. lia.
  - (* a chunk was read *)
    assert (Hlt : ps < length data) by lia.
    assert (Hkk : ks <> kd) by (destruct Hal; [assumption|lia]).
    assert (Hchunk : take ps data ++ buf = take (ps + length buf) data)
      by apply take_chunk_app.
    destruct (fwrite_spec w1 fdst buf kd pend rd' wr' ddata Hd1 Hkd)
      as (w2 & E & (Hc2 & Ho2 & He2 & Ht2 & Hn2) & Hstr2 & Hfs2 & Hsp2).
    cbv zeta in E, Hstr2, Hfs2, Hsp2.
    set (pend' := pend ++ buf) in *.
    set (due := Nat.min (buffering (length pend')) (length pend')) in *.
    change (space w1) with (space w) in *. change (fs w1) with (fs w) in *.
    change (cwd w1) with (cwd w) in *. change (stdout w1) with (stdout w) in *.
    change (stderr w1) with (stderr w) in *.
    change (total_files w1) with (total_files w) in *.
    change (copied_files w1) with (copied_files w) in *.
    set (n := Nat.min due (space w)) in *.
    assert (Hns : n <= space w) by apply Nat.le_min_r.
    assert (Hnd : n <= due) by apply Nat.le_min_l.
    assert (Hdl : due <= length pend') by apply Nat.le_min_r.
    assert (Hpl : length pend' = length pend + length buf)
      by (subst pend'; apply length_app).
    assert (Hall : ddata ++ pend' = take (ps + length buf) data).
    { subst pend'. rewrite app_assoc, Hinv. exact Hchunk. }
    assert (Hbound : length ddata + length pend' <= length data).
    { apply (f_equal length) in Hall. rewrite length_app, length_take in Hall. lia. }
    rewrite E.
    destruct (Nat.eqb_spec (length buf - Nat.min (length buf) (due - n)) (length buf))
      as [Hw|Hw]; cbn [negb].
    + (* nothing fell short *)
      assert (Hn : n = due) by (clear - Hw Hnz Hnd; lia).
      destruct (IH w2 fsrc fdst dst ks kd (ps + length buf) (drop n pend')
                  rd wr data rd' wr' (ddata ++ take n pend'))
        as (r & w' & Hrun & Hcwd & Htot & Hspc & Hstr & Hfr & Hfin & Hres & Hbuf & Hunb).
      * assumption.
      * left; assumption.
      * rewrite Hstr2, lookup_insert_ne by congruence.
        subst w1. cbn. apply lookup_insert_eq.
      * rewrite Hstr2, lookup_insert_eq. do 2 f_equal.
        rewrite length_app, length_take. lia.
      * rewrite Hfs2, lookup_insert_ne by congruence. exact Hks.
      * rewrite Hfs2. apply lookup_insert_eq.
      * rewrite <- app_assoc, take_drop. exact Hall.
      * lia.
      * lia.
      * assert (Hld : length (ddata ++ take n pend') = length ddata + n)
          by (rewrite length_app, length_take; clear - Hnd Hdl; lia).
        rewrite Hld in *.
        exists r, w'. split; [exact Hrun|].
        split; [congruence|]. split; [congruence|].
        split; [rewrite Hspc, Hsp2; clear - Hns Hnd Hdl Hbound; lia|].
        split.
        { rewrite Hstr, Hstr2. subst w1. cbn [streams set_streams].
          apply close_both. }
        split.
        { intros k Hk. rewrite Hfr, Hfs2 by assumption.
          apply lookup_insert_ne. congruence. }
        split.
        { rewrite Hfin, Hsp2. do 3 f_equal. clear - Hns; lia. }
        split; [|split; [exact Hbuf|]].
        2:{ intros Hu Hp Hsh.
            assert (Hnl : length pend' <= n).
            { rewrite Hn. unfold due. rewrite Hu, Nat.min_id. reflexivity. }
            apply Hunb; [exact Hu|apply drop_ge; exact Hnl|].
            rewrite Hsp2. clear - Hsh Hns. lia. }
        destruct Hres as [(-> & Hcp & Hout & Herr)|(-> & Hsp & Hcp & Hout & Herr)].
        -- left. split; [reflexivity|].
           split; [rewrite Hcp, Hn2; reflexivity|].
           split; [rewrite Hout, Ho2, Ht2; reflexivity|].
           rewrite Herr, He2. reflexivity.
        -- right. split; [reflexivity|].
           split; [rewrite Hsp2 in Hsp; clear - Hsp Hns; lia|].
           split; [rewrite Hcp, Hn2; reflexivity|].
           split; [rewrite Hout, Ho2; reflexivity|].
           rewrite Herr, He2. reflexivity.
    + (* short write *)
      assert (Hn : n = space w /\ space w < due).
      { clear - Hw Hnz Hns Hnd. unfold n in *. lia. }
      destruct Hn as [Hn Hshort].
      set (w3 := eprint w2 ("write error to '" +:+ dst +:+ "'" +:+ nl)).
      rewrite (fclose_clean w3 fsrc ks (ps + length buf)).
      2:{ subst w3. cbn [streams eprint]. rewrite Hstr2.
          rewrite lookup_insert_ne by congruence.
          subst w1. cbn. apply lookup_insert_eq. }
      set (w4 := set_streams w3 (delete fsrc (streams w3))).
      destruct (fclose_spec w4 fdst kd (drop n pend') rd' wr' (ddata ++ take n pend'))
        as (z & w5 & -> & (Hc5 & Ho5 & He5 & Ht5 & Hn5) & Hstr5 & Hfs5 & Hsp5).
      { subst w4 w3. cbn [streams set_streams eprint]. rewrite Hstr2.
        rewrite lookup_delete_ne by assumption.
        rewrite lookup_insert_eq. do 2 f_equal.
        rewrite length_app, length_take. lia. }
      { subst w4 w3. cbn [fs set_streams eprint]. rewrite Hfs2.
        apply lookup_insert_eq. }
      change (space w4) with (space w2) in *. change (fs w4) with (fs w2) in *.
      change (cwd w4) with (cwd w2) in *. change (stdout w4) with (stdout w2) in *.
      change (stderr w4) with (stderr w2 ++ ["write error to '" +:+ dst +:+ "'" +:+ nl]) in *.
      change (total_files w4) with (total_files w2) in *.
      change (copied_files w4) with (copied_files w2) in *.
      assert (Hsp0 : space w2 = 0) by (rewrite Hsp2; clear - Hn; lia).
      rewrite Hsp0 in *. rewrite take_0, app_nil_r in Hfs5.
      eexists _, _. split; [reflexivity|].
      split; [congruence|]. split; [congruence|].
      split; [rewrite Hsp5; clear - Hshort Hdl Hbound; lia|].
      split.
      { rewrite Hstr5. subst w4 w3. cbn [streams set_streams eprint].
        rewrite Hstr2. subst w1. cbn [streams set_streams]. apply close_both. }
      split.
      { intros k Hk. rewrite Hfs5, lookup_insert_ne by congruence.
        rewrite Hfs2. apply lookup_insert_ne. congruence. }
      split.
      { rewrite Hfs5, lookup_insert_eq. do 2 f_equal.
        rewrite Hn.
        transitivity (take (length ddata + space w) (ddata ++ pend')).
        - rewrite take_app_add'; reflexivity.
        - rewrite Hall, take_take. f_equal. clear - Hshort Hdl Hbound Hpl Hlen. lia. }
      split.
      { right. split; [reflexivity|]. split; [clear - Hshort Hdl Hbound; lia|].
        split; [rewrite Hn5, Hn2; reflexivity|].
        split; [rewrite Ho5, Ho2; reflexivity|].
        rewrite He5, He2. reflexivity. }
      split; [|reflexivity].
      intros Hb. exfalso.
      assert (Hb0 : buffering (length pend') = 0)
        by (apply Hb; clear - Hbound; lia).
      clear - Hb0 Hshort. unfold due in Hshort. lia.
Qed.

(** The loop returns -1 when a call of [fwrite] came back short, and
    only then. *)
Lemma copy_loop_status fuel :
  forall w fsrc fdst dst r w',
  copy_loop buffering fuel w fsrc fdst dst = Some (r, w') ->
  (r = (-1)%Z /\ writes_short buffering fuel w fsrc fdst = true)
  \/ (r = 0%Z /\ writes_short buffering fuel w fsrc fdst = false).
Proof.
  induction fuel as [|fuel IH]; intros w fsrc fdst dst r w' H; [discriminate|].
  cbn [copy_loop writes_short] in *.
  destruct (fread w fsrc BUFFER_SIZE) as [buf w1].
  destruct (length buf =? 0).
  - destruct (fclose w1 fsrc) as [z2 w2]. destruct (fclose w2 fdst) as [z3 w3].
    injection H as <- <-. right. auto.
  - destruct (fwrite buffering w1 fdst buf) as [wrote w2].
    destruct (negb (wrote =? length buf)).
    + destruct (fclose _ fsrc) as [z4 w4]. destruct (fclose w4 fdst) as [z5 w5].
      injection H as <- <-. left. auto.
    + eapply IH. exact H.
Qed.

(** ** Opening files *)

Lemma lookup_path_ok w p k n :
  lookup_path PATH_MAX w p = Ok (k, n) <->
  resolve PATH_MAX w p = Ok k /\ fs w !! k = Some n /\
  (ends_slash p && negb (is_dir n) = false).
Proof.
  unfold lookup_path. destruct (resolve PATH_MAX w p) as [k'|e].
  - destruct (fs w !! k') as [n'|] eqn:E.
    + destruct (ends_slash p && negb (is_dir n')) eqn:Es.
      * split; [discriminate|]. intros ([= ->] & H & Hs).
        rewrite E in H. injection H as ->. congruence.
      * split.
        -- intros [= -> ->]. auto.
        -- intros ([= ->] & H & _). rewrite E in H. congruence.
    + split; [discriminate|]. intros ([= ->] & H & _). congruence.
  - split; [discriminate|]. intros (H & _). discriminate.
Qed.

Lemma fopen_rb_inv w p f w1 :
  fopen_rb PATH_MAX w p = Ok (f, w1) ->
  exists k wr data,
    resolve PATH_MAX w p = Ok k /\ fs w !! k = Some (Reg true wr data) /\
    ends_slash p = false /\
    streams w !! f = None /\
    w1 = set_streams w (<[f := Stream k 0 []]> (streams w)).
Proof.
  unfold fopen_rb. destruct (lookup_path PATH_MAX w p) as [[k n]|e] eqn:E;
    [|discriminate].
  apply lookup_path_ok in E as (Hr & Hk & Hs).
  destruct n as [[|] wr data| |]; try discriminate.
  intros [= <- <-]. exists k, wr, data.
  rewrite andb_true_r in Hs.
  repeat split; try assumption. apply fresh_stream_free.
Qed.

Lemma fopen_rb_intro w p k wr data :
  resolve PATH_MAX w p = Ok k -> fs w !! k = Some (Reg true wr data) ->
  ends_slash p = false ->
  fopen_rb PATH_MAX w p = Ok (new_stream w k).
Proof.
  intros Hr Hk Hs. unfold fopen_rb.
  assert (E : lookup_path PATH_MAX w p = Ok (k, Reg true wr data)).
  { apply lookup_path_ok. rewrite Hs. auto. }
  rewrite E. reflexivity.
Qed.

Lemma fopen_rb_unreadable w p k wr data :
  resolve PATH_MAX w p = Ok k -> fs w !! k = Some (Reg false wr data) ->
  ends_slash p = false ->
  fopen_rb PATH_MAX w p = Err EACCES.
Proof.
  intros Hr Hk Hs. unfold fopen_rb.
  assert (E : lookup_path PATH_MAX w p = Ok (k, Reg false wr data)).
  { apply lookup_path_ok. rewrite Hs. auto. }
  rewrite E. reflexivity.
Qed.

Lemma link_child_inv m k n m' :
  link_child m k n = Ok m' ->
  exists name rd names,
    last k = Some name /\ m !! removelast k = Some (Dir rd true names) /\
    m' = <[k := n]> (<[removelast k := Dir rd true (names ++ [name])]> m).
Proof.
  unfold link_child. destruct (last k) as [name|]; [|discriminate].
  destruct (m !! removelast k) as [[| rd [|] names |]|]; try discriminate.
  intros [= <-]. eauto 10.
Qed.

Lemma fopen_wb_inv w p f w2 :
  fopen_wb PATH_MAX w p = Ok (f, w2) ->
  exists k m,
    resolve PATH_MAX w p = Ok k /\ ends_slash p = false /\
    streams w !! f = None /\
    w2 = set_streams (set_fs w m) (<[f := Stream k 0 []]> (streams w)) /\
    opened_wb (fs w) m k.
Proof.
  unfold fopen_wb. destruct (resolve PATH_MAX w p) as [k|e]; [|discriminate].
  destruct (fs w !! k) as [[rd [|] d| |]|] eqn:E; try discriminate.
  - destruct (ends_slash p) eqn:Es; [discriminate|].
    intros [= <- <-]. exists k, (<[k := Reg rd true []]> (fs w)).
    repeat split; try apply fresh_stream_free. left. eauto.
  - destruct (ends_slash p) eqn:Es; [discriminate|].
    destruct (link_child (fs w) k (Reg true true [])) as [m|e] eqn:El;
      [|discriminate].
    intros [= <- <-]. exists k, m.
    repeat split; try apply fresh_stream_free. right. split; [assumption|].
    apply link_child_inv in El. exact El.
Qed.

Lemma last_app_one (k : key) (n : string) : last (k ++ [n]) = Some n.
Proof. apply last_snoc. Qed.

Lemma removelast_app_one (k : key) (n : string) : removelast (k ++ [n]) = k.
Proof. apply removelast_last. Qed.

Lemma last_removelast_neq (k : key) name : last k = Some name -> removelast k <> k.
Proof.
  intros H E. destruct k as [|a k]; [discriminate|].
  assert (Hne : a :: k <> []) by discriminate.
  pose proof (app_removelast_last name Hne) as Hd.
  rewrite E in Hd. apply (f_equal length) in Hd.
  rewrite length_app in Hd. cbn in Hd. lia.
Qed.

Lemma fopen_wb_create w p k name rd names :
  resolve PATH_MAX w p = Ok k -> ends_slash p = false ->
  fs w !! k = None -> last k = Some name ->
  fs w !! removelast k = Some (Dir rd true names) ->
  fopen_wb PATH_MAX w p =
    Ok (new_stream
          (set_fs w (<[k := Reg true true []]>
                       (<[removelast k := Dir rd true (names ++ [name])]> (fs w))))
          k).
Proof.
  intros Hr Hs Hk Hl Hp. unfold fopen_wb. rewrite Hr, Hk, Hs.
  unfold link_child. rewrite Hl, Hp. reflexivity.
Qed.

Lemma opened_wb_target m m' k :
  opened_wb m m' k -> exists rd', m' !! k = Some (Reg rd' true []).
Proof.
  intros [(rd & d & _ & ->)|(_ & name & rd & names & _ & _ & ->)];
    eexists; apply lookup_insert_eq.
Qed.

Lemma opened_wb_frame m m' k k' :
  opened_wb m m' k -> k' <> k -> k' <> removelast k -> m' !! k' = m !! k'.
Proof.
  intros [(rd & d & _ & ->)|(_ & name & rd & names & _ & _ & ->)] H1 H2.
  - apply lookup_insert_ne; congruence.
  - rewrite !lookup_insert_ne by congruence. reflexivity.
Qed.

Lemma opened_wb_parent m m' k rd wr names :
  opened_wb m m' k -> removelast k <> k ->
  m !! removelast k = Some (Dir rd wr names) ->
  exists names', m' !! removelast k = Some (Dir rd wr names').
Proof.
  intros [(rd0 & d & _ & ->)|(_ & name & rd0 & names0 & _ & Hp & ->)] Hne H.
  - rewrite lookup_insert_ne by congruence. eauto.
  - rewrite lookup_insert_ne by congruence. rewrite lookup_insert_eq.
    rewrite H in Hp. injection Hp as -> -> ->. eauto.
Qed.

Lemma opened_wb_other_file m m' k ks a b d :
  opened_wb m m' k -> ks <> k -> m !! ks = Some (Reg a b d) ->
  m' !! ks = Some (Reg a b d).
Proof.
  intros [(rd0 & d0 & _ & ->)|(_ & name & rd0 & names0 & _ & Hp & ->)] Hne H.
  - rewrite lookup_insert_ne by congruence. assumption.
  - rewrite lookup_insert_ne by congruence.
    destruct (decide (removelast k = ks)) as [E|E].
    + rewrite E in Hp. congruence.
    + rewrite lookup_insert_ne by assumption. assumption.
Qed.

Lemma fopen_wb_ready w p k :
  resolve PATH_MAX w p = Ok k -> ends_slash p = false ->
  file_ready (fs w) k ->
  exists m,
    fopen_wb PATH_MAX w p = Ok (new_stream (set_fs w m) k) /\
    opened_wb (fs w) m k.
Proof.
  intros Hr Hs [(rd & d & Hk)|(Hk & name & Hl & rd & names & Hp)].
  - exists (<[k := Reg rd true []]> (fs w)). split.
    + unfold fopen_wb. rewrite Hr, Hk, Hs. reflexivity.
    + left. eauto.
  - eexists. split.
    + apply (fopen_wb_create w p k name rd names); assumption.
    + right. split; [assumption|]. eauto 10.
Qed.

Lemma fopen_wb_not_ready w p k :
  resolve PATH_MAX w p = Ok k ->
  ends_slash p = true \/ ~ file_ready (fs w) k ->
  exists e, fopen_wb PATH_MAX w p = Err e.
Proof.
  intros Hr Hbad.
  destruct (fopen_wb PATH_MAX w p) as [[f w2]|e] eqn:E; [|eauto].
  exfalso. apply fopen_wb_inv in E as (k' & m & Hr' & Hs & _ & _ & Hop).
  rewrite Hr in Hr'. injection Hr' as <-.
  destruct Hbad as [Hbad|Hbad]; [congruence|]. apply Hbad.
  destruct Hop as [(rd & d & Hk & _)|(Hk & name & rd & names & Hl & Hp & _)].
  - left. eauto.
  - right. split; [assumption|]. exists name. split; [assumption|].
    exists rd, names. assumption.
Qed.

(** What [copy_file] does.  When it returns 0 the destination holds
    the beginning of the source, as far as the device had room: the
    whole of it when the room was enough. *)
Lemma copy_file_spec w src dst :
  exists r w',
    copy_file PATH_MAX buffering w src dst = Some (r, w') /\
    cwd w' = cwd w /\ streams w' = streams w /\
    total_files w' = total_files w /\ space w' <= space w /\
    (forall kd k, resolve PATH_MAX w dst = Ok kd ->
       k <> kd -> k <> removelast kd -> fs w' !! k = fs w !! k) /\
    (forall kd rd wr names, resolve PATH_MAX w dst = Ok kd ->
       removelast kd <> kd ->
       fs w !! removelast kd = Some (Dir rd wr names) ->
       exists names', fs w' !! removelast kd = Some (Dir rd wr names')) /\
    ((r = 0%Z /\
      copied_files w' = size_wrap (copied_files w + 1) /\
      stdout w' = stdout w ++ progress_line (copied_files w') (total_files w) /\
      stderr w' = stderr w /\
      exists ks kd wr data rd',
        resolve PATH_MAX w src = Ok ks /\ resolve PATH_MAX w dst = Ok kd /\
        fs w !! ks = Some (Reg true wr data) /\
        fs w' !! kd = Some (Reg rd' true (if decide (ks = kd) then []
                                          else take (space w) data)) /\
        (ks <> kd -> fs w' !! ks = Some (Reg true wr data) /\
                     space w' = space w - min (length data) (space w)))
     \/
     (r = (-1)%Z /\
      copied_files w' = copied_files w /\ stdout w' = stdout w /\
      (exists msg, stderr w' = stderr w ++ [msg]) /\
      ((exists e, fopen_rb PATH_MAX w src = Err e /\ fs w' = fs w /\ space w' = space w)
       \/ (exists f w1 e, fopen_rb PATH_MAX w src = Ok (f, w1) /\
             fopen_wb PATH_MAX w1 dst = Err e /\ fs w' = fs w /\ space w' = space w)
       \/ (exists ks wr data, resolve PATH_MAX w src = Ok ks /\
             fs w !! ks = Some (Reg true wr data) /\ space w < length data)))).
Proof.
  unfold copy_file.
  destruct (fopen_rb PATH_MAX w src) as [[fsrc w1]|e] eqn:Erb.
  2:{ eexists _, _. split; [reflexivity|]. cbn.
      repeat (split; [try reflexivity; try lia; eauto|]).
      right. repeat (split; [try reflexivity; eauto|]). left. eauto. }
  pose proof Erb as Erb'.
  apply fopen_rb_inv in Erb as (ks & wr & data & Hrs & Hks & Hss & Hfree & ->).
  destruct (fopen_wb PATH_MAX _ dst) as [[fdst w2]|e] eqn:Ewb.
  2:{ rewrite (fclose_clean _ fsrc ks 0) by (cbn; apply lookup_insert_eq).
      eexists _, _. split; [reflexivity|]. cbn.
      assert (Hs : delete fsrc (<[fsrc:=Stream ks 0 []]> (streams w)) = streams w).
      { rewrite delete_insert_eq. apply delete_id. assumption. }
      repeat (split; [try reflexivity; try lia; eauto|]).
      right. repeat (split; [try reflexivity; eauto|]).
      right. left. eauto 10. }
  apply fopen_wb_inv in Ewb as (kd & m & Hrd & Hsd & Hfree2 & -> & Hop).
  cbn in Hrd, Hfree2, Hop.
  change (resolve PATH_MAX (set_streams w (<[fsrc:=Stream ks 0 []]> (streams w))) dst)
    with (resolve PATH_MAX w dst) in Hrd.
  assert (Hff : fsrc <> fdst).
  { intros ->. rewrite lookup_insert_eq in Hfree2. discriminate. }
  rewrite lookup_insert_ne in Hfree2 by assumption.
  destruct (opened_wb_target _ _ _ Hop) as [rd' Hkd].
  set (data2 := if decide (ks = kd) then [] else data).
  assert (Hks2 : exists a b, m !! ks = Some (Reg a b data2) /\
                             (ks <> kd -> a = true /\ b = wr)).
  { subst data2. destruct (decide (ks = kd)) as [->|Hne].
    - exists rd', true. split; [assumption|]. intros H; contradiction.
    - exists true, wr. split; [|auto]. eapply opened_wb_other_file; eauto. }
  destruct Hks2 as (a & b & Hks2 & Hab).
  match goal with |- context [copy_loop buffering ?fu ?x _ _ _] =>
    set (w2 := x); set (fuel := fu) end.
  assert (Hsz : fuel = S (length data2)).
  { subst fuel w2. unfold stream_size. cbn.
    rewrite lookup_insert_ne by congruence. rewrite lookup_insert_eq.
    rewrite Hks2. reflexivity. }
  destruct (copy_loop_spec fuel w2 fsrc fdst dst ks kd 0 [] a b data2 rd' true [])
    as (r & w' & Hrun & Hcwd & Htot & Hspc & Hstr & Hfr & Hfin & Hres & _ & _).
  - assumption.
  - subst data2. destruct (decide (ks = kd)); [right; cbn; lia|left; assumption].
  - subst w2. cbn. rewrite lookup_insert_ne by congruence. apply lookup_insert_eq.
  - subst w2. cbn. apply lookup_insert_eq.
  - subst w2. cbn. assumption.
  - subst w2. cbn. assumption.
  - rewrite take_0. reflexivity.
  - lia.
  - lia.
  - exists r, w'. split; [exact Hrun|]. subst w2.
    cbn [cwd fs space streams stdout stderr total_files copied_files
         set_streams set_fs length Nat.add Nat.sub] in *.
    rewrite Nat.sub_0_r in *.
    split; [assumption|]. split.
    { rewrite Hstr. rewrite close_both.
      assert (E : delete fsrc (streams w) = streams w) by (apply delete_id; assumption).
      rewrite E. apply delete_id. assumption. }
    split; [assumption|].
    split; [lia|].
    split.
    { intros kd0 k Hk0 H1 H2. rewrite Hrd in Hk0. injection Hk0 as <-.
      rewrite Hfr by assumption. eapply opened_wb_frame; eauto. }
    split.
    { intros kd0 rd0 wr0 names0 Hk0 Hne Hp. rewrite Hrd in Hk0. injection Hk0 as <-.
      rewrite Hfr by assumption. eapply opened_wb_parent; eauto. }
    destruct Hres as [(-> & Hcp & Hout & Herr)|(-> & Hsp & Hcp & Hout & Herr)].
    + left. split; [reflexivity|]. split; [exact Hcp|].
      split; [exact Hout|]. split; [exact Herr|].
      exists ks, kd, wr, data, rd'.
      split; [assumption|]. split; [assumption|]. split; [assumption|].
      split.
      { rewrite Hfin. subst data2.
        destruct (decide (ks = kd)); [rewrite take_nil|]; reflexivity. }
      intros Hne. subst data2.
      destruct (Hab Hne) as [-> ->].
      destruct (decide (ks = kd)); [contradiction|].
      split; [rewrite Hfr by assumption; exact Hks2|exact Hspc].
    + right. split; [reflexivity|]. split; [exact Hcp|].
      split; [exact Hout|]. split; [eexists; exact Herr|].
      right. right. exists ks, wr, data.
      split; [assumption|]. split; [assumption|].
      subst data2. destruct (decide (ks = kd)); cbn in Hsp; lia.
Qed.

End CopyFile.

(* ================================================================== *)
(** * [count_files] *)
(* ================================================================== *)

Section CountFiles.

Variable PATH_MAX : nat.

(** ** The counter *)

Lemma iter_bump_total n w :
  Nat.iter n bump w = set_total w (total_files (Nat.iter n bump w)).
Proof.
  induction n as [|n IH].
  - destruct w; reflexivity.
  - rewrite Nat.iter_succ, IH. reflexivity.
Qed.

Lemma iter_bump_fs n w : fs (Nat.iter n bump w) = fs w.
Proof. rewrite iter_bump_total. reflexivity. Qed.

Lemma iter_bump_cwd n w : cwd (Nat.iter n bump w) = cwd w.
Proof. rewrite iter_bump_total. reflexivity. Qed.

Lemma iter_bump_value n w :
  (0 <= total_files w)%Z -> (total_files w + Z.of_nat n < 2 ^ 64)%Z ->
  total_files (Nat.iter n bump w) = (total_files w + Z.of_nat n)%Z.
Proof.
  induction n as [|n IH]; intros H0 H1.
  - cbn. lia.
  - rewrite Nat.iter_succ. unfold bump at 1. cbn [total_files set_total].
    rewrite IH by lia. unfold size_wrap.
    rewrite Z.mod_small by lia. lia.
Qed.

Lemma stat_same w w' p :
  fs w' = fs w -> cwd w' = cwd w -> stat PATH_MAX w' p = stat PATH_MAX w p.
Proof.
  intros Hf Hc. unfold stat, lookup_path, resolve. rewrite Hf, Hc. reflexivity.
Qed.

Lemma opendir_same w w' p :
  fs w' = fs w -> cwd w' = cwd w -> opendir PATH_MAX w' p = opendir PATH_MAX w p.
Proof.
  intros Hf Hc. unfold opendir, lookup_path, resolve. rewrite Hf, Hc. reflexivity.
Qed.

Lemma resolve_same w w' p :
  cwd w' = cwd w -> resolve PATH_MAX w' p = resolve PATH_MAX w p.
Proof. intros Hc. unfold resolve. rewrite Hc. reflexivity. Qed.

(** ** Trees *)

Lemma has_tree_node m k t :
  has_tree m k t ->
  exists n, m !! k = Some n /\ mode_of n = tree_mode t /\ is_dir n = tree_is_dir t.
Proof. intros H. inversion H; subst; eexists; split; eauto. Qed.

Lemma has_tree_stat w p k t :
  has_tree (fs w) k t -> resolve PATH_MAX w p = Ok k ->
  ends_slash p && negb (tree_is_dir t) = false ->
  stat PATH_MAX w p = Ok (tree_mode t).
Proof.
  intros H Hr Hs. destruct (has_tree_node _ _ _ H) as (n & Hn & Hm & Hd).
  unfold stat.
  assert (E : lookup_path PATH_MAX w p = Ok (k, n)).
  { apply lookup_path_ok. rewrite Hd. auto. }
  rewrite E, Hm. reflexivity.
Qed.

Lemma fitsb_fits s : fitsb PATH_MAX s = true <-> fits PATH_MAX s.
Proof.
  unfold fitsb. rewrite negb_true_iff. apply too_long_fits.
Qed.

Lemma fuel_ok_join fuel path n :
  fuel_ok PATH_MAX (S fuel) path -> fits PATH_MAX (join path n) ->
  fuel_ok PATH_MAX fuel (join path n).
Proof.
  unfold fuel_ok, fits. rewrite length_join. lia.
Qed.

Lemma list_sum_cons a l : list_sum (a :: l) = a + list_sum l.
Proof. reflexivity. Qed.

(** ** The [readdir] loop of [count_files] *)

Lemma count_entry_dot rec path acc n :
  is_dot n = true -> count_entry PATH_MAX rec path acc n = acc.
Proof. intros H. unfold count_entry. rewrite H. destruct acc; reflexivity. Qed.

Lemma count_entry_valid rec path w n :
  is_dot n = false ->
  count_entry PATH_MAX rec path (Some w) n =
    if fitsb PATH_MAX (join path n) then rec w (join path n) else Some w.
Proof.
  intros H. unfold count_entry. rewrite H.
  destruct (fits_dec PATH_MAX (join path n)) as [Hf|Hf].
  - rewrite snprintf_fits by assumption.
    pose proof (proj2 (fitsb_fits _) Hf) as E. rewrite E.
    apply too_long_fits in Hf. rewrite snprintf_fits in Hf by (apply too_long_fits; assumption).
    cbn [fst] in Hf. rewrite Hf. reflexivity.
  - pose proof (snprintf_too_long PATH_MAX _ Hf) as E.
    unfold fitsb. rewrite E. cbn [negb].
    destruct (snprintf PATH_MAX (join path n)) as [rc full]. cbn [fst] in E.
    rewrite E. reflexivity.
Qed.

Lemma fold_count_entries rec path names acc :
  fold_left (count_entry PATH_MAX rec path) names acc =
  fold_left (count_entry PATH_MAX rec path) (entries names) acc.
Proof.
  revert acc. induction names as [|n names IH]; intros acc; [reflexivity|].
  cbn [fold_left entries List.filter].
  destruct (is_dot n) eqn:E; cbn [negb].
  - rewrite count_entry_dot by assumption. apply IH.
  - cbn [fold_left]. apply IH.
Qed.

Lemma fold_count_spec rec path (g : string * tree -> nat) w ents :
  Forall valid_name (map fst ents) ->
  (forall e j, In e ents -> fitsb PATH_MAX (join path (fst e)) = true ->
     rec (Nat.iter j bump w) (join path (fst e))
     = Some (Nat.iter (g e) bump (Nat.iter j bump w))) ->
  forall j,
  fold_left (count_entry PATH_MAX rec path) (map fst ents)
            (Some (Nat.iter j bump w))
  = Some (Nat.iter
            (list_sum (map (fun e => if fitsb PATH_MAX (join path (fst e))
                                     then g e else 0) ents) + j)
            bump w).
Proof.
  induction ents as [|e ents IH]; intros Hv Hrec j; [reflexivity|].
  cbn [map fold_left list_sum].
  apply Forall_cons in Hv as [Hv1 Hv2].
  rewrite count_entry_valid by apply Hv1.
  destruct (fitsb PATH_MAX (join path (fst e))) eqn:Ef.
  - rewrite Hrec by (auto using in_eq).
    rewrite <- Nat.iter_add.
    rewrite IH; [|assumption|intros; apply Hrec; auto using in_cons].
    f_equal. apply (f_equal (fun n => Nat.iter n bump w)).
    rewrite list_sum_cons. lia.
  - rewrite IH; [|assumption|intros; apply Hrec; auto using in_cons].
    reflexivity.
Qed.

(** ** What [count_files] counts *)

Lemma count_files_spec t :
  forall fuel w path k,
  has_tree (fs w) k t -> resolve PATH_MAX w path = Ok k ->
  ends_slash path && negb (tree_is_dir t) = false ->
  fuel_ok PATH_MAX fuel path ->
  count_files PATH_MAX fuel w path
  = Some (Nat.iter (scanned PATH_MAX path t) bump w).
Proof.
  induction t as [rd wr data|rd wr ents IH|] using tree_ind';
    intros fuel w path k Ht Hr Hs Hfuel;
    (destruct fuel as [|fuel]; [destruct Hfuel; lia|]);
    cbn [count_files]; rewrite (has_tree_stat _ _ _ _ Ht Hr Hs); cbn.
  - reflexivity.
  - inversion Ht as [|k0 rd0 wr0 names ents0 Hk Hn Hnd Hv Hc|]; subst.
    unfold opendir.
    assert (E : lookup_path PATH_MAX w path = Ok (k, Dir rd wr names)).
    { apply lookup_path_ok. rewrite andb_false_r. auto. }
    rewrite E. destruct rd; [|reflexivity].
    rewrite fold_count_entries, Hn.
    pose proof (fold_count_spec (count_files PATH_MAX fuel) path
                  (fun e => scanned PATH_MAX (join path (fst e)) (snd e)) w ents Hv)
      as Hfold.
    specialize Hfold with (j := 0).
    change (Nat.iter 0 bump w) with w in Hfold.
    rewrite Nat.add_0_r in Hfold. apply Hfold.
    intros e j Hin Hf.
    rewrite List.Forall_forall in IH. rewrite List.Forall_forall in Hc.
    rewrite List.Forall_forall in Hv.
    assert (Hvn : valid_name (fst e)).
    { apply Hv. apply in_map. assumption. }
    apply fitsb_fits in Hf.
    apply (IH e Hin fuel (Nat.iter j bump w) (join path (fst e)) (k ++ [fst e])).
    + rewrite iter_bump_fs. apply Hc. assumption.
    + rewrite (resolve_same w) by apply iter_bump_cwd.
      apply resolve_join; assumption.
    + rewrite ends_slash_join by assumption. reflexivity.
    + apply fuel_ok_join; assumption.
  - reflexivity.
Qed.

Lemma count_files_total fuel :
  forall w path, fuel_ok PATH_MAX fuel path ->
  exists n, count_files PATH_MAX fuel w path = Some (Nat.iter n bump w).
Proof.
  induction fuel as [|fuel IH]; intros w path Hfuel; [destruct Hfuel; lia|].
  cbn [count_files].
  destruct (stat PATH_MAX w path) as [st|e]; [|exists 0; reflexivity].
  destruct (S_ISREG st); [exists 1; reflexivity|].
  destruct (S_ISDIR st); [|exists 0; reflexivity].
  destruct (opendir PATH_MAX w path) as [names|e]; [|exists 0; reflexivity].
  change (Some w) with (Some (Nat.iter 0 bump w)). generalize 0.
  induction names as [|n names IHn]; intros j; [exists j; reflexivity|].
  cbn [fold_left].
  destruct (is_dot n) eqn:Ed.
  - rewrite count_entry_dot by assumption. apply IHn.
  - rewrite count_entry_valid by assumption.
    destruct (fitsb PATH_MAX (join path n)) eqn:Ef; [|apply IHn].
    destruct (IH (Nat.iter j bump w) (join path n)) as [n' Hn'].
    { apply fuel_ok_join; [assumption|]. apply fitsb_fits; assumption. }
    rewrite Hn', <- Nat.iter_add. apply IHn.
Qed.

Lemma list_sum_le {A} (f g : A -> nat) l :
  (forall x, In x l -> f x <= g x) ->
  list_sum (map f l) <= list_sum (map g l).
Proof.
  induction l as [|a l IH]; intros H; [reflexivity|].
  cbn [map]. rewrite !list_sum_cons.
  pose proof (H a (in_eq _ _)). 
  assert (list_sum (map f l) <= list_sum (map g l)) by (apply IH; auto using in_cons).
  lia.
Qed.

Lemma list_sum_ext {A} (f g : A -> nat) l :
  (forall x, In x l -> f x = g x) ->
  list_sum (map f l) = list_sum (map g l).
Proof.
  intros H. f_equal. apply map_ext_in. assumption.
Qed.

Lemma scanned_le_nfiles t : forall path, scanned PATH_MAX path t <= nfiles t.
Proof.
  induction t as [rd wr data|rd wr ents IH|] using tree_ind'; intros path;
    cbn [scanned nfiles]; [lia| |lia].
  destruct rd; [|lia]. apply list_sum_le. intros e Hin.
  rewrite List.Forall_forall in IH.
  destruct (fitsb PATH_MAX (join path (fst e))); [apply IH; assumption|lia].
Qed.

Lemma scanned_all t :
  forall path, listable t = true -> paths_fit PATH_MAX path t = true ->
  scanned PATH_MAX path t = nfiles t.
Proof.
  induction t as [rd wr data|rd wr ents IH|] using tree_ind'; intros path Hl Hp;
    cbn [scanned nfiles]; [reflexivity| |reflexivity].
  cbn [listable paths_fit] in Hl, Hp.
  apply andb_true_iff in Hl as [-> Hl].
  rewrite forallb_forall in Hl, Hp. rewrite List.Forall_forall in IH.
  apply list_sum_ext. intros e Hin.
  specialize (Hp e Hin). apply andb_true_iff in Hp as [-> Hp].
  apply IH; auto.
Qed.

(** ** The order of enumeration *)

Lemma list_sum_perm (l l' : list nat) : Permutation l l' -> list_sum l = list_sum l'.
Proof.
  induction 1; try rewrite !list_sum_cons; cbn; lia.
Qed.

Lemma nfiles_reordered t : forall t', reordered t t' -> nfiles t' = nfiles t.
Proof.
  induction t as [rd wr data|rd wr ents IH|] using tree_ind'; intros t' H;
    inversion H as [| |rd0 wr0 ents0 ents1 ents' H2 Hp]; subst; try reflexivity.
  cbn [nfiles].
  rewrite <- (list_sum_perm _ _ (Permutation_map (fun e => nfiles (snd e)) Hp)).
  clear Hp H. induction H2 as [|e e1 l l1 [_ He] H2 IH2]; [reflexivity|].
  apply Forall_cons in IH as [IHe IHl].
  cbn [map]. rewrite !list_sum_cons. rewrite (IHe _ He), IH2 by assumption.
  reflexivity.
Qed.

End CountFiles.

(* ================================================================== *)
(** * [copy_dir] *)
(* ================================================================== *)

Section CopyDir.

Variable PATH_MAX : nat.
Variable buffering : nat -> nat.

(** ** Keys *)

Lemma prefix_snoc_both (a b : key) (n : string) :
  (a ++ [n]) `prefix_of` (b ++ [n]) -> a `prefix_of` b.
Proof.
  intros [k Hk]. destruct k as [|x k _] using rev_ind.
  - rewrite app_nil_r in Hk. apply app_inj_tail in Hk as [-> _]. reflexivity.
  - rewrite !app_assoc in Hk. apply app_inj_tail in Hk as [-> _].
    rewrite <- app_assoc. apply prefix_app_r. reflexivity.
Qed.

Lemma incomparable_child a b n :
  incomparable a b -> incomparable (a ++ [n]) (b ++ [n]).
Proof.
  intros [H1 H2]. split; intros H; apply prefix_snoc_both in H; contradiction.
Qed.

Lemma removelast_prefix (k : key) : removelast k `prefix_of` k.
Proof.
  destruct k as [|x k _] using rev_ind; [reflexivity|].
  rewrite removelast_last. apply prefix_app_r. reflexivity.
Qed.

Lemma in_source_outside ksrc kd k :
  incomparable ksrc kd -> ksrc `prefix_of` k -> outside kd k.
Proof.
  intros [H1 H2] Hk. split.
  - intros Hd. destruct (prefix_weak_total _ _ _ Hk Hd); contradiction.
  - intros ->. apply H1. etrans; [exact Hk|apply removelast_prefix].
Qed.

Lemma outside_child kd n k : outside kd k -> outside (kd ++ [n]) k.
Proof.
  intros [H1 H2]. split.
  - intros H. apply H1. eapply prefix_app_l. exact H.
  - rewrite removelast_last. intros ->. apply H1. reflexivity.
Qed.

(** ** Trees are local *)

Lemma has_tree_frame t :
  forall m m' k,
  has_tree m k t ->
  (forall k', k `prefix_of` k' -> m' !! k' = m !! k') ->
  has_tree m' k t.
Proof.
  induction t as [rd wr data|rd wr ents IH|] using tree_ind'; intros m m' k Ht Hfr;
    inversion Ht as [| k0 rd0 wr0 names ents0 Hk Hn Hnd Hv Hc|]; subst.
  - constructor. rewrite Hfr by reflexivity. assumption.
  - econstructor; eauto.
    + rewrite Hfr by reflexivity. eassumption.
    + rewrite List.Forall_forall in *. intros e Hin.
      eapply IH; eauto. intros k' Hk'. apply Hfr.
      eapply prefix_app_l. exact Hk'.
  - constructor. rewrite Hfr by reflexivity. assumption.
Qed.

(** ** Steps of the copy pass *)

Lemma copy_step_refl w kd : copy_step w w kd 0.
Proof.
  unfold copy_step. cbn [Nat.iter lines]. rewrite app_nil_r.
  repeat split; auto.
Qed.

Lemma lines_add z total a b :
  lines z total (a + b) = lines z total a ++ lines (Nat.iter a incr z) total b.
Proof.
  revert z. induction a as [|a IH]; intros z; [reflexivity|].
  cbn [Nat.add lines]. rewrite IH, <- app_assoc.
  rewrite Nat.iter_succ_r. reflexivity.
Qed.

Lemma copy_step_trans w w1 w2 kd c1 c2 :
  copy_step w w1 kd c1 -> copy_step w1 w2 kd c2 -> copy_step w w2 kd (c1 + c2).
Proof.
  intros (Hc1 & Hs1 & Ht1 & Hp1 & Hf1 & Hn1 & Ho1)
         (Hc2 & Hs2 & Ht2 & Hp2 & Hf2 & Hn2 & Ho2).
  unfold copy_step.
  split; [congruence|]. split; [congruence|]. split; [congruence|].
  split; [lia|]. split.
  { intros k Hk. rewrite Hf2, Hf1 by assumption. reflexivity. }
  split.
  { rewrite Hn2, Hn1, Nat.add_comm. symmetry. apply Nat.iter_add. }
  rewrite Ho2, Ho1, Ht1, Hn1, lines_add, app_assoc. reflexivity.
Qed.

Lemma copy_step_parent w w' kd n c :
  copy_step w w' (kd ++ [n]) c -> copy_step w w' kd c.
Proof.
  intros (Hc & Hs & Ht & Hp & Hf & Hn & Ho).
  repeat (split; [assumption|]). split; [|split; assumption].
  intros k Hk. apply Hf, outside_child, Hk.
Qed.

Lemma copy_step_eprint w kd msg : copy_step w (eprint w msg) kd 0.
Proof.
  unfold copy_step. cbn [Nat.iter lines]. rewrite app_nil_r.
  repeat split; auto.
Qed.

(** ** [mkdir] *)

Lemma mkdir_inv w p w0 :
  mkdir PATH_MAX w p = Ok w0 ->
  exists k name rd names,
    resolve PATH_MAX w p = Ok k /\ fs w !! k = None /\
    last k = Some name /\ fs w !! removelast k = Some (Dir rd true names) /\
    w0 = set_fs w (<[k := Dir true true ["."; ".."]]>
                     (<[removelast k := Dir rd true (names ++ [name])]> (fs w))).
Proof.
  unfold mkdir. destruct (resolve PATH_MAX w p) as [k|e]; [|discriminate].
  destruct (fs w !! k) eqn:E; [discriminate|].
  destruct (link_child _ _ _) as [m|e] eqn:El; [|discriminate].
  intros [= <-]. apply link_child_inv in El as (name & rd & names & H1 & H2 & ->).
  exists k, name, rd, names. auto.
Qed.

Lemma mkdir_eexist w p e :
  mkdir PATH_MAX w p = Err e -> is_EEXIST e = true ->
  exists k n, resolve PATH_MAX w p = Ok k /\ fs w !! k = Some n.
Proof.
  unfold mkdir. destruct (resolve PATH_MAX w p) as [k|e0] eqn:Er.
  - destruct (fs w !! k) eqn:E; [eauto|].
    unfold link_child. destruct (last k); [|intros [= <-]; discriminate].
    destruct (fs w !! removelast k) as [[| rd [|] names |]|];
      intros [= <-]; discriminate.
  - unfold resolve in Er. destruct (String.eqb p "").
    + injection Er as <-. intros [= <-]. discriminate.
    + destruct (PATH_MAX <=? String.length p); [|discriminate].
      injection Er as <-. intros [= <-]. discriminate.
Qed.

Lemma mkdir_unless_exists_step w dst w0 kd :
  mkdir_unless_exists PATH_MAX w dst = Ok w0 ->
  resolve PATH_MAX w dst = Ok kd ->
  copy_step w w0 kd 0 /\ stderr w0 = stderr w /\ space w0 = space w /\
  ((w0 = w /\ exists n, fs w !! kd = Some n)
   \/ (fs w !! kd = None /\
       exists name rd names,
         last kd = Some name /\ fs w !! removelast kd = Some (Dir rd true names) /\
         fs w0 = <[kd := Dir true true ["."; ".."]]>
                   (<[removelast kd := Dir rd true (names ++ [name])]> (fs w)))).
Proof.
  unfold mkdir_unless_exists. intros H Hr.
  destruct (mkdir PATH_MAX w dst) as [w1|e] eqn:Em.
  - injection H as ->.
    apply mkdir_inv in Em as (k & name & rd & names & Hk & Hnone & Hl & Hp & ->).
    rewrite Hr in Hk. injection Hk as <-.
    split; [|split; [reflexivity|split; [reflexivity|]]].
    + unfold copy_step. cbn. rewrite app_nil_r.
      repeat (split; [reflexivity || lia|]). split; [|auto].
      intros k [H1 H2]. rewrite !lookup_insert_ne; [reflexivity|congruence|].
      intros ->. apply H1. reflexivity.
    + right. split; [assumption|]. exists name, rd, names. auto.
  - destruct (is_EEXIST e) eqn:Ee; [|discriminate]. injection H as ->.
    apply (mkdir_eexist _ _ _ Em) in Ee as (k & n & Hk & Hn).
    rewrite Hr in Hk. injection Hk as <-.
    split; [apply copy_step_refl|]. split; [reflexivity|]. split; [reflexivity|].
    left. eauto.
Qed.

Lemma mkdir_unless_exists_resolves w dst w0 :
  mkdir_unless_exists PATH_MAX w dst = Ok w0 ->
  exists kd, resolve PATH_MAX w dst = Ok kd.
Proof.
  unfold mkdir_unless_exists.
  destruct (mkdir PATH_MAX w dst) as [w1|e] eqn:Em.
  - intros _. apply mkdir_inv in Em as (k & _ & _ & _ & Hk & _). eauto.
  - destruct (is_EEXIST e) eqn:Ee; [|discriminate]. intros _.
    apply (mkdir_eexist _ _ _ Em) in Ee as (k & n & Hk & Hn). eauto.
Qed.

(** ** One file, as a step *)

Lemma lines_one z total : lines z total 1 = progress_line (incr z) total.
Proof. cbn [lines]. apply app_nil_r. Qed.

Lemma copy_file_step w src dst kd :
  resolve PATH_MAX w dst = Ok kd ->
  exists r w' c,
    copy_file PATH_MAX buffering w src dst = Some (r, w') /\
    copy_step w w' kd c /\ c <= 1 /\
    (c = 1 -> exists ks wr data,
        resolve PATH_MAX w src = Ok ks /\ fs w !! ks = Some (Reg true wr data)).
Proof.
  intros Hr.
  destruct (copy_file_spec PATH_MAX buffering w src dst)
    as (r & w' & Hrun & Hcwd & Hstr & Htot & Hsp & Hfr & _ & Hres).
  assert (Hframe : forall k, outside kd k -> fs w' !! k = fs w !! k).
  { intros k [H1 H2]. apply (Hfr kd); [assumption| |assumption].
    intros ->. apply H1. reflexivity. }
  destruct Hres as [(-> & Hcp & Hout & Herr & ks & kd' & wr & data & rd' & Hks & _ & Hd & _)
                   |(-> & Hcp & Hout & _)].
  - exists 0%Z, w', 1. split; [assumption|]. split; [|split; [lia|eauto]].
    unfold copy_step. rewrite lines_one. cbn [Nat.iter].
    rewrite Hcp in Hout.
    split; [assumption|]. split; [assumption|]. split; [assumption|].
    split; [assumption|]. split; [assumption|]. split; [exact Hcp|exact Hout].
  - exists (-1)%Z, w', 0. split; [assumption|]. split; [|split; [lia|intros; lia]].
    unfold copy_step. cbn [Nat.iter lines]. rewrite app_nil_r.
    split; [assumption|]. split; [assumption|]. split; [assumption|].
    split; [assumption|]. split; [assumption|]. split; assumption.
Qed.

End CopyDir.

Section CopyDirBound.

Variable PATH_MAX : nat.
Variable buffering : nat -> nat.

(** ** The [readdir] loop of [copy_dir] *)

Lemma snprintf_cases s :
  (fits PATH_MAX s /\ fitsb PATH_MAX s = true /\
   snprintf PATH_MAX s = (Z.of_nat (String.length s), s) /\
   too_long PATH_MAX (Z.of_nat (String.length s)) = false)
  \/
  (~ fits PATH_MAX s /\ fitsb PATH_MAX s = false /\
   too_long PATH_MAX (fst (snprintf PATH_MAX s)) = true).
Proof.
  destruct (fits_dec PATH_MAX s) as [Hf|Hf].
  - left. split; [assumption|]. split; [apply fitsb_fits; assumption|].
    split; [apply snprintf_fits; assumption|].
    pose proof (proj2 (too_long_fits PATH_MAX s) Hf) as E.
    rewrite snprintf_fits in E by assumption. exact E.
  - right. split; [assumption|].
    pose proof (snprintf_too_long PATH_MAX s Hf) as E.
    unfold fitsb. rewrite E. auto.
Qed.

Lemma copy_entry_dot rec src dst acc n :
  is_dot n = true -> copy_entry PATH_MAX buffering rec src dst acc n = acc.
Proof. intros H. unfold copy_entry. rewrite H. destruct acc; reflexivity. Qed.

Lemma copy_entry_valid rec src dst w n :
  is_dot n = false ->
  copy_entry PATH_MAX buffering rec src dst (Some w) n =
    if fitsb PATH_MAX (join src n) && fitsb PATH_MAX (join dst n) then
      match stat PATH_MAX w (join src n) with
      | Err e =>
          Some (eprint w ("stat '" +:+ join src n +:+ "': " +:+ strerror e +:+ nl))
      | Ok st =>
          if S_ISDIR st then option_map snd (rec w (join src n) (join dst n))
          else if S_ISREG st then
            option_map snd (copy_file PATH_MAX buffering w (join src n) (join dst n))
          else Some w
      end
    else Some (eprint w ("path too long" +:+ nl)).
Proof.
  intros H. unfold copy_entry. rewrite H.
  destruct (snprintf_cases (join src n)) as [(_ & -> & -> & ->)|(_ & -> & E1)].
  - destruct (snprintf_cases (join dst n)) as [(_ & -> & -> & ->)|(_ & -> & E2)].
    + reflexivity.
    + destruct (snprintf PATH_MAX (join dst n)) as [r2 p2]. cbn [fst] in E2.
      rewrite E2. reflexivity.
  - destruct (snprintf PATH_MAX (join src n)) as [r1 p1]. cbn [fst] in E1.
    rewrite E1. destruct (snprintf PATH_MAX (join dst n)). reflexivity.
Qed.

Lemma fold_copy_entries rec src dst names acc :
  fold_left (copy_entry PATH_MAX buffering rec src dst) names acc =
  fold_left (copy_entry PATH_MAX buffering rec src dst) (entries names) acc.
Proof.
  revert acc. induction names as [|n names IH]; intros acc; [reflexivity|].
  cbn [fold_left entries List.filter].
  destruct (is_dot n) eqn:E; cbn [negb].
  - rewrite copy_entry_dot by assumption. apply IH.
  - cbn [fold_left]. apply IH.
Qed.

Lemma opendir_not_dir w p k t :
  has_tree (fs w) k t -> tree_is_dir t = false ->
  resolve PATH_MAX w p = Ok k ->
  exists e, opendir PATH_MAX w p = Err e.
Proof.
  intros Ht Hd Hr. destruct (has_tree_node _ _ _ Ht) as (n & Hn & _ & Hdn).
  unfold opendir, lookup_path. rewrite Hr, Hn.
  destruct (ends_slash p && negb (is_dir n)); [eauto|].
  rewrite Hd in Hdn. destruct n; try discriminate; eauto.
Qed.

Lemma opendir_dir w p k rd wr names :
  fs w !! k = Some (Dir rd wr names) -> resolve PATH_MAX w p = Ok k ->
  opendir PATH_MAX w p = if rd then Ok names else Err EACCES.
Proof.
  intros Hk Hr. unfold opendir, lookup_path. rewrite Hr, Hk.
  rewrite andb_false_r. reflexivity.
Qed.

(** ** The copy pass copies no more than the scan counted *)

Lemma fold_copy_bound rec src dst ksrc kd w0 :
  resolve PATH_MAX w0 src = Ok ksrc -> resolve PATH_MAX w0 dst = Ok kd ->
  incomparable ksrc kd ->
  forall ents,
  Forall valid_name (map fst ents) ->
  Forall (fun e => has_tree (fs w0) (ksrc ++ [fst e]) (snd e)) ents ->
  (forall e w1, In e ents -> tree_is_dir (snd e) = true ->
     fits PATH_MAX (join src (fst e)) -> fits PATH_MAX (join dst (fst e)) ->
     has_tree (fs w1) (ksrc ++ [fst e]) (snd e) -> cwd w1 = cwd w0 ->
     exists r w' c,
       rec w1 (join src (fst e)) (join dst (fst e)) = Some (r, w') /\
       copy_step w1 w' (kd ++ [fst e]) c /\
       c <= scanned PATH_MAX (join src (fst e)) (snd e)) ->
  forall w1 c1, copy_step w0 w1 kd c1 ->
  exists w' c,
    fold_left (copy_entry PATH_MAX buffering rec src dst) (map fst ents) (Some w1) = Some w' /\
    copy_step w0 w' kd (c1 + c) /\
    c <= list_sum (map (fun e => if fitsb PATH_MAX (join src (fst e))
                                 then scanned PATH_MAX (join src (fst e)) (snd e)
                                 else 0) ents).
Proof.
  intros Hrs Hrd Hinc.
  induction ents as [|e ents IH]; intros Hv Hc Hrec w1 c1 Hstep.
  - exists w1, 0. rewrite Nat.add_0_r. cbn. auto.
  - cbn [map fold_left]. rewrite list_sum_cons.
    apply Forall_cons in Hv as [Hv1 Hv2]. apply Forall_cons in Hc as [Hc1 Hc2].
    assert (Hcwd : cwd w1 = cwd w0) by apply Hstep.
    assert (Ht1 : has_tree (fs w1) (ksrc ++ [fst e]) (snd e)).
    { eapply has_tree_frame; [exact Hc1|]. intros k' Hk'.
      apply Hstep. eapply in_source_outside; [exact Hinc|].
      eapply prefix_app_l. exact Hk'. }
    assert (Hnext : forall w2 c2,
      copy_step w1 w2 kd c2 ->
      c2 <= (if fitsb PATH_MAX (join src (fst e))
             then scanned PATH_MAX (join src (fst e)) (snd e) else 0) ->
      exists w' c,
        fold_left (copy_entry PATH_MAX buffering rec src dst) (map fst ents) (Some w2) = Some w' /\
        copy_step w0 w' kd (c1 + c) /\
        c <= (if fitsb PATH_MAX (join src (fst e))
              then scanned PATH_MAX (join src (fst e)) (snd e) else 0)
             + list_sum (map (fun e0 => if fitsb PATH_MAX (join src (fst e0))
                                  then scanned PATH_MAX (join src (fst e0)) (snd e0)
                                  else 0) ents)).
    { intros w2 c2 H2 Hle.
      destruct (IH Hv2 Hc2 (fun e0 w3 Hin => Hrec e0 w3 (in_cons _ _ _ Hin))
                   w2 (c1 + c2) (copy_step_trans _ _ _ _ _ _ Hstep H2))
        as (w' & c & Hf & Hs & Hb).
      exists w', (c2 + c). split; [exact Hf|]. split; [|lia].
      rewrite Nat.add_assoc. exact Hs. }
    rewrite copy_entry_valid by apply Hv1.
    destruct (fitsb PATH_MAX (join src (fst e))) eqn:Efs; cbn [andb].
    2:{ apply (Hnext _ 0); [apply copy_step_eprint|lia]. }
    destruct (fitsb PATH_MAX (join dst (fst e))) eqn:Efd.
    2:{ apply (Hnext _ 0); [apply copy_step_eprint|lia]. }
    apply fitsb_fits in Efs, Efd.
    assert (Hr1 : resolve PATH_MAX w1 (join src (fst e)) = Ok (ksrc ++ [fst e])).
    { apply resolve_join; [|assumption|assumption].
      rewrite (resolve_same PATH_MAX w0) by assumption. assumption. }
    assert (Hr2 : resolve PATH_MAX w1 (join dst (fst e)) = Ok (kd ++ [fst e])).
    { apply resolve_join; [|assumption|assumption].
      rewrite (resolve_same PATH_MAX w0) by assumption. assumption. }
    rewrite (has_tree_stat PATH_MAX w1 _ _ _ Ht1 Hr1)
      by (rewrite ends_slash_join by assumption; reflexivity).
    destruct (snd e) as [rd wr data|rd wr ents'|] eqn:Et; cbn [tree_mode S_ISDIR S_ISREG].
    + (* a regular file *)
      destruct (copy_file_step PATH_MAX buffering w1 (join src (fst e)) (join dst (fst e)) _ Hr2)
        as (r & w2 & c2 & Hrun & Hs2 & Hle & _).
      rewrite Hrun. cbn [option_map snd].
      apply (Hnext w2 c2); [apply copy_step_parent with (n := fst e); exact Hs2|].
      cbn [scanned]. lia.
    + (* a directory *)
      destruct (Hrec e w1 (in_eq _ _)) as (r & w2 & c2 & Hrun & Hs2 & Hle);
        try assumption.
      { rewrite Et. reflexivity. }
      { rewrite Et. assumption. }
      rewrite Hrun. cbn [option_map snd].
      apply (Hnext w2 c2); [apply copy_step_parent with (n := fst e); exact Hs2|].
      rewrite Et in Hle. exact Hle.
    + (* neither *)
      apply (Hnext w1 0); [apply copy_step_refl|lia].
Qed.

Lemma copy_dir_bound t :
  forall fuel w src dst ksrc kd,
  has_tree (fs w) ksrc t ->
  resolve PATH_MAX w src = Ok ksrc -> resolve PATH_MAX w dst = Ok kd ->
  incomparable ksrc kd -> fuel_ok PATH_MAX fuel src ->
  exists r w' c,
    copy_dir PATH_MAX buffering fuel w src dst = Some (r, w') /\
    copy_step w w' kd c /\ c <= scanned PATH_MAX src t.
Proof.
  induction t as [rd wr data|rd wr ents IH|] using tree_ind';
    intros fuel w src dst ksrc kd Ht Hrs Hrd Hinc Hfuel;
    (destruct fuel as [|fuel]; [destruct Hfuel; lia|]);
    cbn [copy_dir];
    (destruct (mkdir_unless_exists PATH_MAX w dst) as [w0|e] eqn:Em;
     [|exists (-1)%Z, (eprint w ("mkdir '" +:+ dst +:+ "': " +:+ strerror e +:+ nl)), 0;
       split; [reflexivity|]; split; [apply copy_step_eprint|lia]]);
    destruct (mkdir_unless_exists_step _ _ _ _ _ Em Hrd) as (Hs0 & _);
    assert (Ht0 : has_tree (fs w0) ksrc _)
      by (eapply has_tree_frame; [exact Ht|]; intros k' Hk';
          apply Hs0; eapply in_source_outside; eauto);
    assert (Hcwd0 : cwd w0 = cwd w) by apply Hs0;
    assert (Hrs0 : resolve PATH_MAX w0 src = Ok ksrc)
      by (rewrite (resolve_same PATH_MAX w) by assumption; assumption).
  - destruct (opendir_not_dir _ _ _ _ Ht0 eq_refl Hrs0) as [e ->].
    eexists _, _, 0. split; [reflexivity|]. split; [|lia].
    apply (copy_step_trans _ _ _ _ 0 0 Hs0). apply copy_step_eprint.
  - inversion Ht0 as [|k0 rd0 wr0 names ents0 Hk Hn Hnd Hv Hc|]; subst.
    rewrite (opendir_dir _ _ _ _ _ _ Hk Hrs0).
    destruct rd.
    2:{ eexists _, _, 0. split; [reflexivity|]. split; [|lia].
        apply (copy_step_trans _ _ _ _ 0 0 Hs0). apply copy_step_eprint. }
    rewrite fold_copy_entries, Hn.
    assert (Hrd0 : resolve PATH_MAX w0 dst = Ok kd)
      by (rewrite (resolve_same PATH_MAX w) by assumption; assumption).
    destruct (fold_copy_bound (copy_dir PATH_MAX buffering fuel) src dst ksrc kd w0
                Hrs0 Hrd0 Hinc ents Hv Hc) with (w1 := w0) (c1 := 0)
      as (w' & c & Hfold & Hstep & Hle).
    + intros e w1 Hin Hdir Hfs Hfd Ht1 Hcwd1.
      rewrite List.Forall_forall in IH.
      apply (IH e Hin fuel w1 _ _ (ksrc ++ [fst e]) (kd ++ [fst e])).
      * assumption.
      * apply resolve_join; [|apply (proj1 (List.Forall_forall _ _) Hv), in_map, Hin|assumption].
        rewrite (resolve_same PATH_MAX w0) by assumption. assumption.
      * apply resolve_join; [|apply (proj1 (List.Forall_forall _ _) Hv), in_map, Hin|assumption].
        rewrite (resolve_same PATH_MAX w0) by assumption. assumption.
      * apply incomparable_child. assumption.
      * apply fuel_ok_join; assumption.
    + apply copy_step_refl.
    + rewrite Hfold. exists 0%Z, w', c. split; [reflexivity|].
      split; [|cbn [scanned]; exact Hle].
      apply (copy_step_trans _ _ _ _ 0 c Hs0). exact Hstep.
  - destruct (opendir_not_dir _ _ _ _ Ht0 eq_refl Hrs0) as [e ->].
    eexists _, _, 0. split; [reflexivity|]. split; [|lia].
    apply (copy_step_trans _ _ _ _ 0 0 Hs0). apply copy_step_eprint.
Qed.

End CopyDirBound.

Section CopyDirReturns.

Variable PATH_MAX : nat.
Variable buffering : nat -> nat.

(** ** [copy_dir] returns *)

Lemma fold_copy_total rec src dst :
  (forall w n, is_dot n = false -> fits PATH_MAX (join src n) ->
     exists r w', rec w (join src n) (join dst n) = Some (r, w')) ->
  forall names w, exists w',
    fold_left (copy_entry PATH_MAX buffering rec src dst) names (Some w) = Some w'.
Proof.
  intros Hrec. induction names as [|n names IH]; intros w; [eauto|].
  cbn [fold_left]. destruct (is_dot n) eqn:Ed.
  - rewrite copy_entry_dot by assumption. apply IH.
  - rewrite copy_entry_valid by assumption.
    destruct (fitsb PATH_MAX (join src n)) eqn:Ef; cbn [andb]; [|apply IH].
    destruct (fitsb PATH_MAX (join dst n)); [|apply IH].
    destruct (stat PATH_MAX w (join src n)) as [st|e]; [|apply IH].
    destruct (S_ISDIR st).
    + destruct (Hrec w n Ed) as (r & w' & ->); [apply fitsb_fits; assumption|].
      apply IH.
    + destruct (S_ISREG st); [|apply IH].
      destruct (copy_file_spec PATH_MAX buffering w (join src n) (join dst n))
        as (r & w' & -> & _). apply IH.
Qed.

(** C10.  [copy_dir] returns 0 exactly when the destination directory
    could be made (or was there) and the source directory could be
    listed, whatever became of the entries; it returns -1 otherwise. *)
Theorem copy_dir_status_is_its_own fuel :
  forall w src dst, fuel_ok PATH_MAX fuel src ->
  exists r w',
    copy_dir PATH_MAX buffering fuel w src dst = Some (r, w') /\
    ((r = 0%Z /\
      exists w0 names, mkdir_unless_exists PATH_MAX w dst = Ok w0 /\
                       opendir PATH_MAX w0 src = Ok names)
     \/
     (r = (-1)%Z /\
      ((exists e, mkdir_unless_exists PATH_MAX w dst = Err e)
       \/ (exists w0 e, mkdir_unless_exists PATH_MAX w dst = Ok w0 /\
                        opendir PATH_MAX w0 src = Err e)))).
Proof.
  induction fuel as [|fuel IH]; intros w src dst Hfuel; [destruct Hfuel; lia|].
  cbn [copy_dir].
  destruct (mkdir_unless_exists PATH_MAX w dst) as [w0|e].
  2:{ eexists _, _. split; [reflexivity|]. right. eauto. }
  destruct (opendir PATH_MAX w0 src) as [names|e] eqn:Eo.
  2:{ eexists _, _. split; [reflexivity|]. right. eauto 10. }
  destruct (fold_copy_total (copy_dir PATH_MAX buffering fuel) src dst) with (names := names) (w := w0)
    as [w' ->].
  { intros w1 n Hd Hf. destruct (IH w1 (join src n) (join dst n)) as (r & w' & H & _).
    - apply fuel_ok_join; assumption.
    - eauto. }
  eexists _, _. split; [reflexivity|]. left. eauto.
Qed.

End CopyDirReturns.

Section CopyDirSteps.

Variable PATH_MAX : nat.
Variable buffering : nat -> nat.

(** ** Copies are local *)

Lemma copied_to_frame t :
  forall m m' k,
  copied_to m k t ->
  (forall k', k `prefix_of` k' -> m' !! k' = m !! k') ->
  copied_to m' k t.
Proof.
  induction t as [rd wr data|rd wr ents IH|] using tree_ind'; intros m m' k Ht Hfr;
    inversion Ht as [| |k0 rd0 wr0 ents0 rd' names Hk Hc|]; subst.
  - econstructor. rewrite Hfr by reflexivity. eassumption.
  - constructor. rewrite Hfr by reflexivity. assumption.
  - econstructor.
    + rewrite Hfr by reflexivity. eassumption.
    + rewrite List.Forall_forall in *. intros e Hin.
      eapply IH; eauto. intros k' Hk'. apply Hfr.
      eapply prefix_app_l. exact Hk'.
  - constructor. rewrite Hfr by reflexivity. assumption.
Qed.

Lemma sibling_not_prefix (kd : key) (a b : string) (k : key) :
  a <> b -> (kd ++ [a]) `prefix_of` k -> ~ (kd ++ [b]) `prefix_of` k.
Proof.
  intros Hne [x ->] [y Hy]. rewrite <- !app_assoc in Hy.
  apply app_inv_head in Hy. cbn in Hy. congruence.
Qed.

Lemma child_not_parent (kd : key) (a : string) (k : key) :
  (kd ++ [a]) `prefix_of` k -> k <> kd.
Proof.
  intros [x ->] E. apply (f_equal length) in E.
  rewrite !length_app in E. cbn in E. lia.
Qed.

(** ** One file, exactly *)

Lemma copy_file_unreadable w src dst ks wr data :
  resolve PATH_MAX w src = Ok ks -> ends_slash src = false ->
  fs w !! ks = Some (Reg false wr data) ->
  copy_file PATH_MAX buffering w src dst =
    Some ((-1)%Z,
          eprint w ("open source '" +:+ src +:+ "': " +:+ strerror EACCES +:+ nl)).
Proof.
  intros Hr Hs Hk. unfold copy_file.
  rewrite (fopen_rb_unreadable PATH_MAX w src ks wr data) by assumption.
  reflexivity.
Qed.

Lemma copy_file_readable w src dst ks kd n wr data rd names :
  resolve PATH_MAX w src = Ok ks -> ends_slash src = false ->
  fs w !! ks = Some (Reg true wr data) ->
  resolve PATH_MAX w dst = Ok (kd ++ [n]) -> ends_slash dst = false ->
  fs w !! (kd ++ [n]) = None ->
  fs w !! kd = Some (Dir rd true names) ->
  length data <= space w ->
  exists w',
    copy_file PATH_MAX buffering w src dst = Some (0%Z, w') /\
    copy_step w w' (kd ++ [n]) 1 /\
    (exists rd', fs w' !! (kd ++ [n]) = Some (Reg rd' true data)) /\
    space w' = space w - length data /\
    stderr w' = stderr w /\
    writable_dir (fs w') kd.
Proof.
  intros Hrs Hss Hks Hrd Hsd Hnone Hdir Hsp.
  destruct (copy_file_spec PATH_MAX buffering w src dst)
    as (r & w' & Hrun & Hcwd & Hstr & Htot & Hsp' & Hfr & Hpar & Hres).
  assert (Hne : ks <> kd ++ [n]) by (intros ->; congruence).
  destruct Hres as [(-> & Hcp & Hout & Herr & ks' & kd' & wr' & data' & rd' &
                      Hks' & Hkd' & Hd' & Hfin & Hspace)
                   |(-> & _ & _ & _ & [(e & He & _)|[(f & w1 & e & Hf & He & _)
                                                    |(ks' & wr' & data' & Hks' & Hd' & Hlt)]])].
  - rewrite Hrs in Hks'. injection Hks' as <-.
    rewrite Hrd in Hkd'. injection Hkd' as <-.
    rewrite Hks in Hd'. injection Hd' as <- <-.
    destruct (decide (ks = kd ++ [n])) as [|_]; [contradiction|].
    destruct (Hspace Hne) as (_ & Hspace').
    rewrite take_ge in Hfin by assumption.
    rewrite Nat.min_l in Hspace' by assumption.
    exists w'. split; [assumption|]. split.
    { unfold copy_step. rewrite lines_one. cbn [Nat.iter]. rewrite Hcp in Hout.
      split; [assumption|]. split; [assumption|]. split; [assumption|].
      split; [assumption|]. split; [|split; [exact Hcp|exact Hout]].
      intros k [H1 H2]. apply (Hfr (kd ++ [n])); [assumption| |assumption].
      intros ->. apply H1. reflexivity. }
    split; [eauto|]. split; [assumption|]. split; [assumption|].
    destruct (Hpar (kd ++ [n]) rd true names Hrd) as [names' Hn'].
    + rewrite removelast_last. intros E.
      apply (child_not_parent kd n (kd ++ [n])); [reflexivity|].
      symmetry. exact E.
    + rewrite removelast_last. assumption.
    + rewrite removelast_last in Hn'. exists rd, names'. assumption.
  - rewrite (fopen_rb_intro PATH_MAX w src ks wr data) in He by assumption.
    discriminate.
  - apply fopen_rb_inv in Hf as (ks' & wr' & data' & _ & _ & _ & _ & ->).
    rewrite (fopen_wb_create PATH_MAX _ dst (kd ++ [n]) n rd names) in He;
      [discriminate|exact Hrd|assumption|assumption|apply last_snoc|].
    rewrite removelast_last. assumption.
  - rewrite Hrs in Hks'. injection Hks' as <-.
    rewrite Hks in Hd'. injection Hd' as <- <-. lia.
Qed.

(** ** Making the destination directory *)

Lemma mkdir_unless_exists_ready w dst kd :
  resolve PATH_MAX w dst = Ok kd -> dst_ready (fs w) kd ->
  exists w0,
    mkdir_unless_exists PATH_MAX w dst = Ok w0 /\
    copy_step w w0 kd 0 /\ stderr w0 = stderr w /\ space w0 = space w /\
    writable_dir (fs w0) kd /\
    (forall k, k <> kd -> k <> removelast kd -> fs w0 !! k = fs w !! k) /\
    (removelast kd <> kd -> dir_kept (fs w) (fs w0) (removelast kd)).
Proof.
  intros Hr [(rd & names & Hk)|(Hnone & name & Hl & rd & names & Hp)].
  - exists w. unfold mkdir_unless_exists, mkdir. rewrite Hr, Hk. cbn.
    split; [reflexivity|]. split; [apply copy_step_refl|].
    split; [reflexivity|]. split; [reflexivity|].
    split; [exists rd, names; assumption|]. split; [reflexivity|].
    intros _ rd0 wr0 names0 H. eauto.
  - eexists. unfold mkdir_unless_exists, mkdir, link_child.
    rewrite Hr, Hnone, Hl, Hp. split; [reflexivity|].
    assert (Hne : removelast kd <> kd) by (eapply last_removelast_neq; eauto).
    split.
    { unfold copy_step. cbn. rewrite app_nil_r.
      split; [reflexivity|]. split; [reflexivity|]. split; [reflexivity|].
      split; [lia|]. split; [|auto].
      intros k [H1 H2]. rewrite !lookup_insert_ne; [reflexivity|congruence|].
      intros ->. apply H1. reflexivity. }
    cbn. split; [reflexivity|]. split; [reflexivity|].
    split; [eexists _, _; apply lookup_insert_eq|].
    split.
    { intros k H1 H2. rewrite !lookup_insert_ne by congruence. reflexivity. }
    intros _ rd0 wr0 names0 H. rewrite Hp in H. injection H as <- <- <-.
    rewrite lookup_insert_ne by congruence. rewrite lookup_insert_eq. eauto.
Qed.

End CopyDirSteps.

Section CopyDirFold.

Variable PATH_MAX : nat.
Variable buffering : nat -> nat.

(** ** The copy pass with nothing but unreadable files in its way *)

Lemma source_outside_child ksrc kd n k :
  incomparable ksrc kd -> ksrc `prefix_of` k -> outside (kd ++ [n]) k.
Proof. intros Hinc Hk. apply outside_child. eapply in_source_outside; eauto. Qed.

Lemma fold_copy_exact rec src dst ksrc kd :
  incomparable ksrc kd ->
  forall ents,
  NoDup (map fst ents) -> Forall valid_name (map fst ents) ->
  forallb (fun e => listable (snd e)) ents = true ->
  forallb (fun e => fitsb PATH_MAX (join src (fst e))
                    && paths_fit PATH_MAX (join src (fst e)) (snd e)) ents = true ->
  forallb (fun e => fitsb PATH_MAX (join dst (fst e))
                    && paths_fit PATH_MAX (join dst (fst e)) (snd e)) ents = true ->
  (forall e w1, In e ents -> tree_is_dir (snd e) = true ->
     resolve PATH_MAX w1 (join src (fst e)) = Ok (ksrc ++ [fst e]) ->
     resolve PATH_MAX w1 (join dst (fst e)) = Ok (kd ++ [fst e]) ->
     has_tree (fs w1) (ksrc ++ [fst e]) (snd e) ->
     vacant (fs w1) (kd ++ [fst e]) -> writable_dir (fs w1) kd ->
     readable_bytes (snd e) <= space w1 ->
     exists r w',
       rec w1 (join src (fst e)) (join dst (fst e)) = Some (r, w') /\
       copied_exactly w1 w' (kd ++ [fst e]) (snd e)) ->
  forall w,
  resolve PATH_MAX w src = Ok ksrc -> resolve PATH_MAX w dst = Ok kd ->
  Forall (fun e => has_tree (fs w) (ksrc ++ [fst e]) (snd e)) ents ->
  Forall (fun e => vacant (fs w) (kd ++ [fst e])) ents ->
  writable_dir (fs w) kd ->
  list_sum (map (fun e => readable_bytes (snd e)) ents) <= space w ->
  exists w',
    fold_left (copy_entry PATH_MAX buffering rec src dst) (map fst ents) (Some w) = Some w' /\
    copy_step w w' kd (list_sum (map (fun e => nreadable (snd e)) ents)) /\
    space w' = space w - list_sum (map (fun e => readable_bytes (snd e)) ents) /\
    length (stderr w') =
      length (stderr w) + list_sum (map (fun e => nunreadable (snd e)) ents) /\
    writable_dir (fs w') kd /\
    Forall (fun e => copied_to (fs w') (kd ++ [fst e]) (snd e)) ents /\
    (forall k, k <> kd -> (forall e, In e ents -> ~ (kd ++ [fst e]) `prefix_of` k) ->
       fs w' !! k = fs w !! k).
Proof.
  intros Hinc.
  induction ents as [|e ents IH];
    intros Hnd Hv Hl Hfs Hfd Hrec w Hrs Hrd Hts Hvac Hwd Hsp.
  - exists w. cbn. split; [reflexivity|]. split; [apply copy_step_refl|].
    split; [lia|]. split; [lia|]. split; [assumption|]. split; [constructor|].
    reflexivity.
  - cbn [map fold_left] in *. rewrite !list_sum_cons in *.
    apply NoDup_cons in Hnd as [Hnin Hnd].
    rewrite list_elem_of_In in Hnin.
    apply Forall_cons in Hv as [Hv1 Hv2].
    apply Forall_cons in Hts as [Ht1 Hts].
    apply Forall_cons in Hvac as [Hvac1 Hvac].
    cbn [forallb] in Hl, Hfs, Hfd.
    apply andb_true_iff in Hl as [Hl1 Hl].
    apply andb_true_iff in Hfs as [Hfs1 Hfs].
    apply andb_true_iff in Hfd as [Hfd1 Hfd].
    apply andb_true_iff in Hfs1 as [Hfs1 Hps1].
    apply andb_true_iff in Hfd1 as [Hfd1 Hpd1].
    (* what is left to do once the entry is dealt with *)
    assert (Hnext : forall w2,
      copy_step w w2 (kd ++ [fst e]) (nreadable (snd e)) ->
      space w2 = space w - readable_bytes (snd e) ->
      length (stderr w2) = length (stderr w) + nunreadable (snd e) ->
      writable_dir (fs w2) kd ->
      copied_to (fs w2) (kd ++ [fst e]) (snd e) ->
      exists w',
        fold_left (copy_entry PATH_MAX buffering rec src dst) (map fst ents) (Some w2) = Some w' /\
        copy_step w w' kd
          (nreadable (snd e) + list_sum (map (fun e0 => nreadable (snd e0)) ents)) /\
        space w' = space w - (readable_bytes (snd e)
                     + list_sum (map (fun e0 => readable_bytes (snd e0)) ents)) /\
        length (stderr w') =
          length (stderr w) + (nunreadable (snd e)
             + list_sum (map (fun e0 => nunreadable (snd e0)) ents)) /\
        writable_dir (fs w') kd /\
        Forall (fun e0 => copied_to (fs w') (kd ++ [fst e0]) (snd e0)) (e :: ents) /\
        (forall k, k <> kd ->
           (forall e0, In e0 (e :: ents) -> ~ (kd ++ [fst e0]) `prefix_of` k) ->
           fs w' !! k = fs w !! k)).
    { intros w2 Hstep Hsp2 Herr2 Hwd2 Hcp2.
      assert (Hcwd2 : cwd w2 = cwd w) by apply Hstep.
      assert (Hfr2 : forall k, outside (kd ++ [fst e]) k -> fs w2 !! k = fs w !! k)
        by apply Hstep.
      destruct (IH Hnd Hv2 Hl Hfs Hfd
                  (fun e0 w3 Hin => Hrec e0 w3 (in_cons _ _ _ Hin)) w2)
        as (w' & Hfold & Hs' & Hsp' & Herr' & Hwd' & Hcp' & Hfr').
      - rewrite (resolve_same PATH_MAX w) by assumption. assumption.
      - rewrite (resolve_same PATH_MAX w) by assumption. assumption.
      - rewrite List.Forall_forall in *. intros e0 Hin.
        eapply has_tree_frame; [apply Hts; assumption|].
        intros k' Hk'. apply Hfr2. eapply source_outside_child; [exact Hinc|].
        eapply prefix_app_l. exact Hk'.
      - rewrite List.Forall_forall in *. intros e0 Hin k' Hk'.
        rewrite Hfr2; [apply (Hvac e0 Hin); assumption|].
        split.
        + eapply sibling_not_prefix; [|exact Hk'].
          intros E. apply Hnin. rewrite <- E. apply in_map. assumption.
        + rewrite removelast_last. eapply child_not_parent. exact Hk'.
      - assumption.
      - lia.
      - exists w'. split; [exact Hfold|]. split.
        { eapply copy_step_trans; [|exact Hs'].
          eapply copy_step_parent. exact Hstep. }
        split; [lia|]. split; [lia|]. split; [assumption|]. split.
        { constructor; [|assumption].
          eapply copied_to_frame; [exact Hcp2|].
          intros k' Hk'. apply Hfr'.
          - eapply child_not_parent. exact Hk'.
          - intros e0 Hin. eapply sibling_not_prefix; [|exact Hk'].
            intros E. apply Hnin. rewrite E. apply in_map. assumption. }
        intros k Hk Hall. rewrite Hfr'.
        + apply Hfr2. split; [apply Hall, in_eq|].
          rewrite removelast_last. assumption.
        + assumption.
        + intros e0 Hin. apply Hall, in_cons, Hin. }
    (* the entry itself *)
    rewrite copy_entry_valid by apply Hv1.
    rewrite Hfs1, Hfd1. cbn [andb].
    apply fitsb_fits in Hfs1, Hfd1.
    assert (Hr1 : resolve PATH_MAX w (join src (fst e)) = Ok (ksrc ++ [fst e]))
      by (apply resolve_join; assumption).
    assert (Hr2 : resolve PATH_MAX w (join dst (fst e)) = Ok (kd ++ [fst e]))
      by (apply resolve_join; assumption).
    assert (Hes : ends_slash (join src (fst e)) = false)
      by (apply ends_slash_join; assumption).
    assert (Hed : ends_slash (join dst (fst e)) = false)
      by (apply ends_slash_join; assumption).
    rewrite (has_tree_stat PATH_MAX w _ _ _ Ht1 Hr1) by (rewrite Hes; reflexivity).
    assert (Hnone : fs w !! (kd ++ [fst e]) = None) by (apply Hvac1; reflexivity).
    destruct (snd e) as [[|] wr data|rd wr ents'|] eqn:Et;
      cbn [tree_mode S_ISDIR S_ISREG nreadable nunreadable readable_bytes] in *.
    + (* a regular file that can be read *)
      inversion Ht1 as [k0 rd0 wr0 data0 Hk| |]; subst.
      * destruct Hwd as (rdd & names & Hdir).
        destruct (copy_file_readable PATH_MAX buffering w (join src (fst e)) (join dst (fst e))
                    (ksrc ++ [fst e]) kd (fst e) wr data rdd names)
          as (w2 & Hrun & Hstep & (rd' & Hfile) & Hsp2 & Herr2 & Hwd2);
          try assumption; [lia|].
        rewrite Hrun. cbn [option_map snd].
        apply Hnext; try assumption; [rewrite Herr2; lia|].
        econstructor. eassumption.
    + (* a regular file that cannot *)
      inversion Ht1 as [k0 rd0 wr0 data0 Hk| |]; subst.
      * rewrite (copy_file_unreadable PATH_MAX buffering w _ _ (ksrc ++ [fst e]) wr data)
          by assumption.
        cbn [option_map snd].
        apply Hnext.
        -- apply copy_step_eprint.
        -- cbn. lia.
        -- cbn. rewrite length_app. cbn. lia.
        -- assumption.
        -- constructor. assumption.
    + (* a directory *)
      destruct (Hrec e w (in_eq _ _)) as (r & w2 & Hrun & Hex);
        try assumption; try (rewrite Et; assumption || reflexivity).
      { rewrite Et. cbn [readable_bytes]. lia. }
      rewrite Et in Hex.
      destruct Hex as (Hstep & Hcp2 & Hsp2 & Herr2 & Hkept).
      rewrite Hrun. cbn [option_map snd].
      apply Hnext; try assumption.
      destruct Hwd as (rdd & names & Hdir).
      rewrite removelast_last in Hkept.
      destruct (Hkept) with (rd := rdd) (wr := true) (names := names) as [names' Hn'];
        [|assumption|exists rdd, names'; assumption].
      intros E. apply (child_not_parent kd (fst e) (kd ++ [fst e])); [reflexivity|].
      symmetry. exact E.
    + (* neither *)
      apply Hnext.
      * apply copy_step_refl.
      * lia.
      * lia.
      * assumption.
      * constructor. assumption.
Qed.

End CopyDirFold.

Section CopyDirExact.

Variable PATH_MAX : nat.
Variable buffering : nat -> nat.

Lemma child_not_below_parent (kd : key) (n : string) (k : key) :
  (kd ++ [n]) `prefix_of` k -> k <> removelast kd.
Proof.
  intros H ->. apply prefix_length in H.
  pose proof (prefix_length _ _ (removelast_prefix kd)) as H'.
  rewrite length_app in H. cbn in H. lia.
Qed.

Lemma copy_dir_exact t :
  forall fuel w src dst ksrc kd,
  tree_is_dir t = true -> listable t = true ->
  paths_fit PATH_MAX src t = true -> paths_fit PATH_MAX dst t = true ->
  has_tree (fs w) ksrc t ->
  resolve PATH_MAX w src = Ok ksrc -> resolve PATH_MAX w dst = Ok kd ->
  incomparable ksrc kd -> fuel_ok PATH_MAX fuel src ->
  (forall k, kd `prefix_of` k -> k <> kd -> fs w !! k = None) ->
  dst_ready (fs w) kd ->
  readable_bytes t <= space w ->
  exists w',
    copy_dir PATH_MAX buffering fuel w src dst = Some (0%Z, w') /\
    copied_exactly w w' kd t.
Proof.
  induction t as [rd wr data|rd wr ents IH|] using tree_ind';
    intros fuel w src dst ksrc kd Hdir Hl Hps Hpd Ht Hrs Hrd Hinc Hfuel Hvac Hready Hsp;
    try discriminate.
  destruct fuel as [|fuel]; [destruct Hfuel; lia|].
  cbn [listable paths_fit nreadable nunreadable readable_bytes] in *.
  apply andb_true_iff in Hl as [-> Hl].
  cbn [copy_dir].
  destruct (mkdir_unless_exists_ready PATH_MAX w dst kd Hrd Hready)
    as (w0 & -> & Hs0 & Herr0 & Hsp0 & Hwd0 & Hfr0 & Hkept0).
  assert (Hcwd0 : cwd w0 = cwd w) by apply Hs0.
  assert (Ht0 : has_tree (fs w0) ksrc (TDir true wr ents)).
  { eapply has_tree_frame; [exact Ht|]. intros k' Hk'.
    apply Hs0. eapply in_source_outside; eauto. }
  assert (Hrs0 : resolve PATH_MAX w0 src = Ok ksrc)
    by (rewrite (resolve_same PATH_MAX w) by assumption; assumption).
  assert (Hrd0 : resolve PATH_MAX w0 dst = Ok kd)
    by (rewrite (resolve_same PATH_MAX w) by assumption; assumption).
  inversion Ht0 as [|k0 rd0 wr0 names ents0 Hk Hn Hnd Hv Hc|]; subst.
  rewrite (opendir_dir PATH_MAX _ _ _ _ _ _ Hk Hrs0).
  rewrite fold_copy_entries, Hn.
  destruct (fold_copy_exact PATH_MAX buffering (copy_dir PATH_MAX buffering fuel) src dst ksrc kd Hinc
              ents Hnd Hv Hl Hps Hpd) with (w := w0)
    as (w' & Hfold & Hs' & Hsp' & Herr' & Hwd' & Hcp' & Hfr'); try assumption.
  - (* the recursive calls *)
    intros e w1 Hin Hd Hr1 Hr2 Ht1 Hvac1 Hwd1 Hsp1.
    rewrite List.Forall_forall in IH. rewrite forallb_forall in Hl, Hps, Hpd.
    specialize (Hl e Hin). specialize (Hps e Hin). specialize (Hpd e Hin).
    apply andb_true_iff in Hps as [Hfs Hps]. apply andb_true_iff in Hpd as [Hfd Hpd].
    exists 0%Z.
    apply (IH e Hin fuel w1 _ _ (ksrc ++ [fst e]) (kd ++ [fst e])); try assumption.
    + apply incomparable_child. assumption.
    + apply fuel_ok_join; [assumption|]. apply fitsb_fits. assumption.
    + intros k Hk1 _. apply Hvac1. assumption.
    + right. split; [apply Hvac1; reflexivity|].
      exists (fst e). split; [apply last_snoc|].
      rewrite removelast_last. assumption.
  - (* nothing is in the way below the destination *)
    rewrite List.Forall_forall. intros e Hin k' Hk'.
    rewrite Hfr0.
    + apply Hvac; [eapply prefix_app_l; exact Hk'|].
      eapply child_not_parent. exact Hk'.
    + eapply child_not_parent. exact Hk'.
    + eapply child_not_below_parent. exact Hk'.
  - lia.
  - rewrite Hfold. exists w'. split; [reflexivity|].
    unfold copied_exactly. cbn [nreadable nunreadable readable_bytes].
    split.
    { apply (copy_step_trans _ _ _ _ 0 _ Hs0). exact Hs'. }
    split.
    { destruct Hwd' as (rd' & names' & Hk'). econstructor; eassumption. }
    split; [lia|]. split; [rewrite Herr', Herr0; reflexivity|].
    intros Hne rd1 wr1 names1 Hp.
    destruct (Hkept0 Hne _ _ _ Hp) as [names2 Hp2].
    exists names2. rewrite Hfr'; [assumption|assumption|].
    intros e Hin Hpre. revert Hpre. 
    intros Hpre. eapply child_not_below_parent; [exact Hpre|reflexivity].
Qed.

End CopyDirExact.

(* ================================================================== *)
(** * The checks are sound *)
(* ================================================================== *)

Lemma bytes_eqb_eq a b : bytes_eqb a b = true -> a = b.
Proof.
  revert b. induction a as [|x a IH]; intros [|y b] H; try discriminate; [reflexivity|].
  cbn in H. apply andb_true_iff in H as [Hx Hr].
  apply Byte.byte_dec_bl in Hx. subst. f_equal. apply IH, Hr.
Qed.

Lemma names_eqb_eq a b : names_eqb a b = true -> a = b.
Proof.
  revert b. induction a as [|x a IH]; intros [|y b] H; try discriminate; [reflexivity|].
  cbn in H. apply andb_true_iff in H as [Hx Hr].
  apply String.eqb_eq in Hx. subst. f_equal. apply IH, Hr.
Qed.

Lemma distinctb_NoDup l : distinctb l = true -> NoDup l.
Proof.
  induction l as [|x l IH]; intros H; [constructor|].
  cbn in H. apply andb_true_iff in H as [Hx Hr].
  constructor; [|apply IH, Hr].
  rewrite list_elem_of_In. intros Hin.
  apply negb_true_iff in Hx.
  assert (E : existsb (String.eqb x) l = true).
  { apply existsb_exists. exists x. split; [assumption|apply String.eqb_refl]. }
  congruence.
Qed.

Lemma valid_nameb_valid n : valid_nameb n = true -> valid_name n.
Proof.
  unfold valid_nameb, valid_name. intros H.
  apply andb_true_iff in H as [H H3]. apply andb_true_iff in H as [H1 H2].
  apply negb_true_iff in H1, H2, H3.
  split; [|split; assumption].
  intros ->. discriminate.
Qed.

Lemma has_treeb_sound t : forall m k, has_treeb m k t = true -> has_tree m k t.
Proof.
  induction t as [rd wr data|rd wr ents IH|] using tree_ind'; intros m k H;
    cbn [has_treeb] in H.
  - destruct (m !! k) as [[rd' wr' data'| |]|] eqn:E; try discriminate.
    apply andb_true_iff in H as [H H3]. apply andb_true_iff in H as [H1 H2].
    apply Bool.eqb_prop in H1, H2. apply bytes_eqb_eq in H3. subst.
    constructor. assumption.
  - destruct (m !! k) as [[|rd' wr' names|]|] eqn:E; try discriminate.
    apply andb_true_iff in H as [H H6]. apply andb_true_iff in H as [H H5].
    apply andb_true_iff in H as [H H4]. apply andb_true_iff in H as [H H3].
    apply andb_true_iff in H as [H1 H2].
    apply Bool.eqb_prop in H1, H2. subst.
    econstructor.
    + eassumption.
    + apply names_eqb_eq. assumption.
    + apply distinctb_NoDup. assumption.
    + rewrite List.Forall_forall. rewrite forallb_forall in H5.
      intros n Hin. apply valid_nameb_valid, H5, Hin.
    + rewrite List.Forall_forall in *. rewrite forallb_forall in H6.
      intros e Hin. apply (IH e Hin), H6, Hin.
  - destruct (m !! k) as [[| |]|] eqn:E; try discriminate.
    constructor. assumption.
Qed.

Lemma clearb_below m kd :
  clearb true m kd = true ->
  forall k, kd `prefix_of` k -> k <> kd -> m !! k = None.
Proof.
  unfold clearb. rewrite forallb_forall. intros H k Hk Hne.
  destruct (m !! k) as [n|] eqn:E; [|reflexivity].
  apply elem_of_map_to_list, list_elem_of_In in E.
  specialize (H _ E). cbn [fst] in H.
  apply orb_true_iff in H as [H|H].
  - apply negb_true_iff, bool_decide_eq_false in H. contradiction.
  - apply bool_decide_eq_true in H. contradiction.
Qed.

Lemma incomparableb_sound a b : incomparableb a b = true -> incomparable a b.
Proof.
  unfold incomparableb, incomparable. intros H.
  apply andb_true_iff in H as [H1 H2].
  apply negb_true_iff, bool_decide_eq_false in H1, H2. auto.
Qed.

(* ================================================================== *)
(** * The theorems *)
(* ================================================================== *)

Section CopyFileTheorems.

Variable PATH_MAX : nat.
Variable buffering : nat -> nat.

(** C4.  [copy_file] always returns, with every stream it opened closed
    again and [total_files] untouched, in one of two ways.  Either it
    returns 0, [copied_files] has been incremented once and the progress
    line has been rendered once, with nothing reported.  Or it returns
    -1, exactly one message has been reported, and neither the counter
    nor standard output has changed.  It returns -1 when the source
    cannot be opened, when the destination cannot be opened or created,
    and, with both open, when some call of [fwrite] returned fewer bytes
    than it was given, and only then.  It does return 0: it has to when
    the source can be read, the destination, another file, can be
    opened for writing, and the device has room. *)
Theorem copy_file_counts_on_success_only (w : World) (src dst : string) :
  exists r w',
    copy_file PATH_MAX buffering w src dst = Some (r, w') /\
    streams w' = streams w /\ total_files w' = total_files w /\
    ((r = 0%Z /\
      copied_files w' = size_wrap (copied_files w + 1) /\
      stdout w' = stdout w ++ progress_line (copied_files w') (total_files w') /\
      stderr w' = stderr w)
     \/
     (r = (-1)%Z /\
      copied_files w' = copied_files w /\ stdout w' = stdout w /\
      exists msg, stderr w' = stderr w ++ [msg])) /\
    (forall e, fopen_rb PATH_MAX w src = Err e -> r = (-1)%Z) /\
    (forall f w1 e, fopen_rb PATH_MAX w src = Ok (f, w1) ->
       fopen_wb PATH_MAX w1 dst = Err e -> r = (-1)%Z) /\
    (forall f w1 g w2, fopen_rb PATH_MAX w src = Ok (f, w1) ->
       fopen_wb PATH_MAX w1 dst = Ok (g, w2) ->
       (writes_short buffering (S (stream_size w2 f)) w2 f g = true
        <-> r = (-1)%Z)) /\
    (forall ks kd wr data,
       resolve PATH_MAX w src = Ok ks -> ends_slash src = false ->
       fs w !! ks = Some (Reg true wr data) ->
       resolve PATH_MAX w dst = Ok kd -> ends_slash dst = false ->
       ks <> kd -> file_ready (fs w) kd ->
       length data <= space w -> r = 0%Z).
Proof.
  destruct (copy_file_spec PATH_MAX buffering w src dst)
    as (r & w' & Hrun & _ & Hstr & Htot & _ & _ & _ & Hres).
  exists r, w'. split; [exact Hrun|]. split; [exact Hstr|]. split; [exact Htot|].
  rewrite Htot.
  assert (Hopen : forall f w1 g w2,
    fopen_rb PATH_MAX w src = Ok (f, w1) -> fopen_wb PATH_MAX w1 dst = Ok (g, w2) ->
    (writes_short buffering (S (stream_size w2 f)) w2 f g = true <-> r = (-1)%Z)).
  { intros f w1 g w2 Hf Hg. unfold copy_file in Hrun. rewrite Hf, Hg in Hrun.
    destruct (copy_loop_status buffering _ _ _ _ _ _ _ Hrun) as [[-> ->]|[-> ->]].
    - tauto.
    - split; discriminate. }
  assert (Hok : forall ks kd wr data,
    resolve PATH_MAX w src = Ok ks -> ends_slash src = false ->
    fs w !! ks = Some (Reg true wr data) ->
    resolve PATH_MAX w dst = Ok kd -> ends_slash dst = false ->
    ks <> kd -> file_ready (fs w) kd ->
    length data <= space w -> r = 0%Z).
  { intros ks kd wr data Hks Hss Hd Hkd Hsd Hne Hready Hroom.
    destruct Hres as [(-> & _)
                     |(_ & _ & _ & _ & [(e & He & _)|[(f & w1 & e & Hf & He & _)
                                        |(ks' & wr' & data' & Hks' & Hd' & Hlt)]])].
    - reflexivity.
    - rewrite (fopen_rb_intro PATH_MAX w src ks wr data) in He by assumption.
      discriminate.
    - apply fopen_rb_inv in Hf as (ks' & wr' & data' & _ & _ & _ & _ & ->).
      destruct (fopen_wb_ready PATH_MAX
                  (set_streams w (<[f:=Stream ks' 0 []]> (streams w))) dst kd)
        as (m & Ewb & _); [exact Hkd|exact Hsd|exact Hready|].
      rewrite Ewb in He. discriminate.
    - rewrite Hks in Hks'. injection Hks' as <-.
      rewrite Hd in Hd'. injection Hd' as <- <-. lia. }
  destruct Hres as [(-> & Hcp & Hout & Herr & _)|(-> & Hcp & Hout & Hmsg & _)].
  - split; [left; auto|].
    unfold copy_file in Hrun.
    split; [|split; [|split; [exact Hopen|exact Hok]]].
    + intros e He. rewrite He in Hrun. discriminate.
    + intros f w1 e Hf He. rewrite Hf, He in Hrun.
      destruct (fclose _ f) as [z w3]. discriminate.
  - split; [right; auto|]. auto.
Qed.


End CopyFileTheorems.

Section CountTheorems.

Variable PATH_MAX : nat.
Variable buffering : nat -> nat.

Lemma iter_incr_value n z :
  (0 <= z)%Z -> (z + Z.of_nat n < 2 ^ 64)%Z ->
  Nat.iter n incr z = (z + Z.of_nat n)%Z.
Proof.
  induction n as [|n IH]; intros H0 H1.
  - cbn. lia.
  - rewrite Nat.iter_succ, IH by lia. unfold incr, size_wrap.
    rewrite Z.mod_small by lia. lia.
Qed.

Lemma fuel_ok_top path : fuel_ok PATH_MAX (S PATH_MAX) path.
Proof. unfold fuel_ok. lia. Qed.

(** ** Reordering the entries of directories *)

Lemma forallb_perm {A} (f : A -> bool) l l' :
  Permutation l l' -> forallb f l = forallb f l'.
Proof.
  induction 1 as [|x l l' _ IH|x y l|l l' l'' _ IH1 _ IH2]; cbn.
  - reflexivity.
  - rewrite IH. reflexivity.
  - destruct (f x), (f y); reflexivity.
  - congruence.
Qed.

Lemma listable_reordered t : forall t', reordered t t' -> listable t' = listable t.
Proof.
  induction t as [rd wr data|rd wr ents IH|] using tree_ind'; intros t' H;
    inversion H as [| |rd0 wr0 ents0 ents1 ents' H2 Hp]; subst; try reflexivity.
  cbn [listable]. f_equal.
  rewrite <- (forallb_perm _ _ _ Hp).
  clear Hp H. induction H2 as [|e e1 l l1 [_ He] H2 IH2]; [reflexivity|].
  apply Forall_cons in IH as [IHe IHl].
  cbn [forallb]. rewrite (IHe _ He), IH2 by assumption. reflexivity.
Qed.

Lemma paths_fit_reordered t :
  forall t' path, reordered t t' ->
  paths_fit PATH_MAX path t' = paths_fit PATH_MAX path t.
Proof.
  induction t as [rd wr data|rd wr ents IH|] using tree_ind'; intros t' path H;
    inversion H as [| |rd0 wr0 ents0 ents1 ents' H2 Hp]; subst; try reflexivity.
  cbn [paths_fit].
  rewrite <- (forallb_perm _ _ _ Hp).
  clear Hp H. induction H2 as [|e e1 l l1 [Hn He] H2 IH2]; [reflexivity|].
  apply Forall_cons in IH as [IHe IHl].
  cbn [forallb]. rewrite <- Hn, (IHe _ _ He), IH2 by assumption. reflexivity.
Qed.

Lemma tree_is_dir_reordered t t' : reordered t t' -> tree_is_dir t' = tree_is_dir t.
Proof. intros H. inversion H; reflexivity. Qed.

(** C1 (amended).  In a tree all of whose directories can be listed and
    all of whose composed paths fit the path buffer, [count_files],
    started with the counter at zero, sets [total_files] to the number
    of regular files of the tree, directories and special files not
    counted, and changes nothing else; a world that holds the same tree
    with its directories enumerated in another order gets the same
    total. *)
Theorem count_files_counts_regular_files
    (w : World) (path : string) (k : key) (t : tree) :
  total_files w = 0%Z ->
  resolve PATH_MAX w path = Ok k -> has_tree (fs w) k t ->
  ends_slash path && negb (tree_is_dir t) = false ->
  listable t = true -> paths_fit PATH_MAX path t = true ->
  (Z.of_nat (nfiles t) < 2 ^ 64)%Z ->
  exists w',
    count_files PATH_MAX (S PATH_MAX) w path = Some w' /\
    total_files w' = Z.of_nat (nfiles t) /\
    w' = set_total w (total_files w') /\
    forall w2 k2 t2,
      total_files w2 = 0%Z ->
      resolve PATH_MAX w2 path = Ok k2 -> has_tree (fs w2) k2 t2 ->
      reordered t t2 ->
      exists w2',
        count_files PATH_MAX (S PATH_MAX) w2 path = Some w2' /\
        total_files w2' = total_files w'.
Proof.
  intros H0 Hr Ht Hs Hl Hp Hn.
  assert (Hcount : forall w1 k1 t1,
    total_files w1 = 0%Z -> resolve PATH_MAX w1 path = Ok k1 ->
    has_tree (fs w1) k1 t1 ->
    ends_slash path && negb (tree_is_dir t1) = false ->
    listable t1 = true -> paths_fit PATH_MAX path t1 = true ->
    (Z.of_nat (nfiles t1) < 2 ^ 64)%Z ->
    exists w1',
      count_files PATH_MAX (S PATH_MAX) w1 path = Some w1' /\
      total_files w1' = Z.of_nat (nfiles t1) /\
      w1' = set_total w1 (total_files w1')).
  { intros w1 k1 t1 H01 Hr1 Ht1 Hs1 Hl1 Hp1 Hn1.
    exists (Nat.iter (scanned PATH_MAX path t1) bump w1).
    split; [apply (count_files_spec PATH_MAX t1 _ _ _ k1); auto using fuel_ok_top|].
    rewrite (scanned_all PATH_MAX) by assumption.
    split; [|apply iter_bump_total].
    rewrite iter_bump_value; lia. }
  destruct (Hcount w k t) as (w' & Hrun & Htot & Hw'); try assumption.
  exists w'. split; [exact Hrun|]. split; [exact Htot|]. split; [exact Hw'|].
  intros w2 k2 t2 H02 Hr2 Ht2 Hre.
  destruct (Hcount w2 k2 t2) as (w2' & Hrun2 & Htot2 & _); try assumption.
  - rewrite (tree_is_dir_reordered _ _ Hre). assumption.
  - rewrite (listable_reordered _ _ Hre). assumption.
  - rewrite (paths_fit_reordered _ _ _ Hre). assumption.
  - rewrite (nfiles_reordered _ _ Hre). assumption.
  - exists w2'. split; [exact Hrun2|].
    rewrite Htot2, Htot, (nfiles_reordered _ _ Hre). reflexivity.
Qed.

(** C7.  When the source is a directory whose tree holds no regular
    file, the program prints "No files to copy.", exits with status 0
    and leaves the file system as it was: the final world is the
    initial one with that one line printed. *)
Theorem empty_source_is_left_alone
    (cwd0 : key) (fs0 : gmap key node) (space0 : nat)
    (prog src dst : string) (ksrc : key) (rd wr : bool)
    (ents : list (string * tree)) :
  resolve PATH_MAX (boot cwd0 fs0 space0) src = Ok ksrc ->
  has_tree fs0 ksrc (TDir rd wr ents) ->
  nfiles (TDir rd wr ents) = 0 ->
  run PATH_MAX buffering cwd0 fs0 space0 [prog; src; dst]
  = Some (0%Z, print (boot cwd0 fs0 space0) (Text ("No files to copy." +:+ nl))).
Proof.
  intros Hr Ht Hn. unfold run, main. cbn [length Nat.eqb negb nth].
  set (w := boot cwd0 fs0 space0) in *.
  rewrite (has_tree_stat PATH_MAX w src ksrc _ Ht Hr)
    by (cbn; apply andb_false_r).
  rewrite (count_files_spec PATH_MAX _ _ w src ksrc Ht Hr)
    by (cbn; auto using andb_false_r, fuel_ok_top).
  pose proof (scanned_le_nfiles PATH_MAX (TDir rd wr ents) src) as Hle.
  rewrite Hn in Hle. apply Nat.le_0_r in Hle. rewrite Hle.
  reflexivity.
Qed.

End CountTheorems.

Section CopyDirTheorems.

Variable PATH_MAX : nat.
Variable buffering : nat -> nat.

(** C5.  Let the source directory hold a tree whose directories can all
    be listed and whose paths all fit, let the destination be a
    directory that can be made (or an existing one) with nothing below
    it and out of the source's way, and let the device have room for
    the readable files.  Then [copy_dir] returns 0; every file that can
    be opened for reading is copied, with its bytes, to the
    corresponding place below the destination, in whichever directory it
    lies; every file that cannot is reported once and has no copy; and
    [copied_files] has grown by exactly the number of files copied.  The
    source tree is as it was. *)
Theorem copy_dir_skips_what_it_cannot_read
    (fuel : nat) (w : World) (src dst : string) (ksrc kd : key) (t : tree) :
  tree_is_dir t = true -> listable t = true ->
  paths_fit PATH_MAX src t = true -> paths_fit PATH_MAX dst t = true ->
  has_tree (fs w) ksrc t ->
  resolve PATH_MAX w src = Ok ksrc -> resolve PATH_MAX w dst = Ok kd ->
  incomparable ksrc kd -> fuel_ok PATH_MAX fuel src ->
  (forall k, kd `prefix_of` k -> k <> kd -> fs w !! k = None) ->
  dst_ready (fs w) kd ->
  readable_bytes t <= space w ->
  (0 <= copied_files w)%Z ->
  (copied_files w + Z.of_nat (nreadable t) < 2 ^ 64)%Z ->
  exists w',
    copy_dir PATH_MAX buffering fuel w src dst = Some (0%Z, w') /\
    copied_to (fs w') kd t /\
    copied_files w' = (copied_files w + Z.of_nat (nreadable t))%Z /\
    length (stderr w') = length (stderr w) + nunreadable t /\
    has_tree (fs w') ksrc t.
Proof.
  intros Hd Hl Hps Hpd Ht Hrs Hrd Hinc Hfuel Hvac Hready Hsp H0 Hmax.
  destruct (copy_dir_exact PATH_MAX buffering t fuel w src dst ksrc kd)
    as (w' & Hrun & Hstep & Hcp & _ & Herr & _); try assumption.
  exists w'. split; [exact Hrun|]. split; [exact Hcp|].
  destruct Hstep as (_ & _ & _ & _ & Hfr & Hn & _).
  split; [rewrite Hn; apply iter_incr_value; assumption|].
  split; [exact Herr|].
  eapply has_tree_frame; [exact Ht|].
  intros k' Hk'. apply Hfr. eapply in_source_outside; eauto.
Qed.

(** ** The counters on the progress line *)

Lemma bars_app a b : bars (a ++ b) = bars a ++ bars b.
Proof. unfold bars. apply flat_map_app. Qed.

Lemma bars_lines total c :
  total <> 0%Z ->
  forall z, (0 <= z)%Z -> (z + Z.of_nat c < 2 ^ 64)%Z ->
  bars (lines z total c)
  = map (fun i => ((z + Z.of_nat i)%Z, total)) (seq 1 c).
Proof.
  intros Ht. induction c as [|c IH]; intros z H0 H1; [reflexivity|].
  cbn [lines]. rewrite bars_app.
  assert (E : incr z = (z + 1)%Z).
  { unfold incr, size_wrap. apply Z.mod_small. lia. }
  rewrite E, IH by lia.
  unfold progress_line. destruct (Z.eqb_spec total 0); [contradiction|].
  change (seq 1 (S c)) with (1 :: seq 2 c).
  cbn [bars flat_map app map].
  replace (z + Z.of_nat 1)%Z with (z + 1)%Z by lia. f_equal.
  rewrite <- (seq_shift c 1), map_map. apply map_ext. intros i. f_equal. lia.
Qed.

(** C8 (amended).  For a directory source whose path has a name in it,
    the folder made under the destination is called after the last
    component of the path, trailing separators aside: the path is some
    [pre], empty or ending in a separator, then [base], not empty and
    without a separator, then separators only.  [main] makes
    [dst/base] and calls [copy_dir] on the source as given and
    [dst/base]. *)
Theorem top_folder_is_last_component
    (fuel : nat) (w w1 : World) (prog src dst : string) :
  stat PATH_MAX w src = Ok S_IFDIR ->
  count_files PATH_MAX fuel w src = Some w1 ->
  total_files w1 <> 0%Z ->
  has_name src = true ->
  exists base pre n,
    src = pre +:+ base +:+ rep slash n /\
    base <> EmptyString /\ has_slash base = false /\
    (pre = EmptyString \/ ends_slash pre = true) /\
    main PATH_MAX buffering fuel w [prog; src; dst] =
      if fitsb PATH_MAX (join dst base) then
        match mkdir_unless_exists PATH_MAX w1 (join dst base) with
        | Ok w2 => done (copy_dir PATH_MAX buffering fuel w2 src (join dst base))
        | Err e =>
            Some (1%Z, eprint w1 ("mkdir '" +:+ join dst base +:+ "': "
                                  +:+ strerror e +:+ nl))
        end
      else Some (1%Z, eprint w1 ("destination path too long" +:+ nl)).
Proof.
  intros Hstat Hcount Htot Hname.
  assert (Hlen : String.length src < PATH_MAX).
  { unfold stat in Hstat.
    destruct (lookup_path PATH_MAX w src) as [[k n]|e] eqn:E; [|discriminate].
    apply lookup_path_ok in E as (Hr & _).
    apply resolve_ok in Hr. apply Hr. }
  destruct (last_component src PATH_MAX Hname Hlen) as (pre & n & Hsrc & Hne & Hs & Hpre).
  exists (base_of (trim_trailing_slashes src PATH_MAX)), pre, n.
  split; [exact Hsrc|]. split; [exact Hne|]. split; [exact Hs|]. split; [exact Hpre|].
  unfold main. cbn [length Nat.eqb negb nth].
  rewrite Hstat, Hcount.
  destruct (Z.eqb_spec (total_files w1) 0); [contradiction|].
  cbn [S_ISDIR].
  set (base := base_of (trim_trailing_slashes src PATH_MAX)).
  destruct (snprintf_cases PATH_MAX (join dst base)) as [(_ & -> & -> & ->)|(_ & -> & E)].
  - reflexivity.
  - destruct (snprintf PATH_MAX (join dst base)) as [rc newdst].
    cbn [fst] in E. rewrite E. reflexivity.
Qed.

End CopyDirTheorems.

Section MainTheorems.

Variable PATH_MAX : nat.
Variable buffering : nat -> nat.

Lemma scan_from_boot cwd0 fs0 space0 n :
  (Z.of_nat n < 2 ^ 64)%Z ->
  Nat.iter n bump (boot cwd0 fs0 space0)
  = set_total (boot cwd0 fs0 space0) (Z.of_nat n).
Proof.
  intros H. rewrite iter_bump_total. f_equal.
  rewrite iter_bump_value; cbn; lia.
Qed.


End MainTheorems.

Section ExitStatus.

Variable PATH_MAX : nat.
Variable buffering : nat -> nat.

Lemma copy_dir_total fuel :
  forall w src dst, fuel_ok PATH_MAX fuel src ->
  exists r w', copy_dir PATH_MAX buffering fuel w src dst = Some (r, w').
Proof.
  induction fuel as [|fuel IH]; intros w src dst Hfuel; [destruct Hfuel; lia|].
  cbn [copy_dir].
  destruct (mkdir_unless_exists PATH_MAX w dst) as [w0|e]; [|eauto].
  destruct (opendir PATH_MAX w0 src) as [names|e]; [|eauto].
  destruct (fold_copy_total PATH_MAX buffering (copy_dir PATH_MAX buffering fuel) src dst)
    with (names := names) (w := w0) as [w' ->]; [|eauto].
  intros w1 n Hd Hf. apply IH, fuel_ok_join; assumption.
Qed.

(** X1.  A fresh process always terminates, with status 1 or 0: 1 when
    [main] gave up at the top level (the wrong number of arguments, a
    source [stat] fails on, or, with files counted, a destination path
    that does not fit its buffer or a top folder that cannot be made),
    and 0 in every other case, whatever the copy pass ran into.  A
    source that is neither a file nor a directory is not among the
    failures: nothing is counted for it, and the status is 0. *)
Theorem exit_status (cwd0 : key) (fs0 : gmap key node) (space0 : nat)
    (argv : list string) :
  exists r w',
    run PATH_MAX buffering cwd0 fs0 space0 argv = Some (r, w') /\
    ((r = 1%Z /\ top_level_failure PATH_MAX (boot cwd0 fs0 space0) argv)
     \/
     (r = 0%Z /\ ~ top_level_failure PATH_MAX (boot cwd0 fs0 space0) argv)).
Proof.
  unfold run, main, top_level_failure.
  set (w := boot cwd0 fs0 space0).
  set (src := nth 1 argv ""). set (dst := nth 2 argv "").
  destruct (Nat.eqb_spec (length argv) 3) as [Hlen|Hlen]; cbn [negb].
  2:{ eexists _, _. split; [reflexivity|]. left. auto. }
  destruct (stat PATH_MAX w src) as [st|e] eqn:Es.
  2:{ eexists _, _. split; [reflexivity|]. left. eauto. }
  destruct (count_files PATH_MAX (S PATH_MAX) w src) as [w1|] eqn:Hc.
  2:{ destruct (count_files_total PATH_MAX (S PATH_MAX) w src
                  (fuel_ok_top PATH_MAX src)) as [n Hn]. congruence. }
  destruct (Z.eqb_spec (total_files w1) 0) as [Hz|Hnz].
  { eexists _, _. split; [reflexivity|]. right. split; [reflexivity|].
    intros [H|[[e H]|(st' & w1' & _ & Hc' & Ht & _)]]; congruence. }
  destruct st; cbn [S_ISDIR S_ISREG].
  - (* a regular file *)
    assert (E : match stat PATH_MAX w1 dst with
                | Ok dstst =>
                    if S_ISDIR dstst
                    then snprintf PATH_MAX (join dst (base_of src))
                    else snprintf PATH_MAX dst
                | Err _ => snprintf PATH_MAX dst
                end = snprintf PATH_MAX (file_target PATH_MAX w1 src dst)).
    { unfold file_target. destruct (stat PATH_MAX w1 dst) as [dstst|e];
        [destruct (S_ISDIR dstst)|]; reflexivity. }
    rewrite E. clear E.
    destruct (snprintf_cases PATH_MAX (file_target PATH_MAX w1 src dst))
      as [(_ & Hf & -> & ->)|(_ & Hf & Hl)].
    + destruct (copy_file_spec PATH_MAX buffering w1 src (file_target PATH_MAX w1 src dst))
        as (r & w' & -> & _).
      eexists _, _. split; [reflexivity|]. right. split; [reflexivity|].
      intros [H|[[e H]|(st' & w1' & Hs & Hc' & Ht & [[Hst Hd]|[Hst Hd]])]];
        try congruence.
    + destruct (snprintf PATH_MAX (file_target PATH_MAX w1 src dst)) as [rc dstpath].
      cbn [fst] in Hl. rewrite Hl.
      eexists _, _. split; [reflexivity|]. left. split; [reflexivity|].
      right. right. exists S_IFREG, w1.
      split; [reflexivity|]. split; [reflexivity|]. split; [assumption|].
      right. split; [reflexivity|assumption].
  - (* a directory *)
    set (newdst := join dst (base_of (trim_trailing_slashes src PATH_MAX))).
    destruct (snprintf_cases PATH_MAX newdst) as [(_ & Hf & -> & ->)|(_ & Hf & Hl)].
    + destruct (mkdir_unless_exists PATH_MAX w1 newdst) as [w2|e] eqn:Em.
      * destruct (copy_dir_total (S PATH_MAX) w2 src newdst (fuel_ok_top PATH_MAX src))
          as (r & w' & ->).
        eexists _, _. split; [reflexivity|]. right. split; [reflexivity|].
        intros [H|[[e H]|(st' & w1' & Hs & Hc' & Ht & [[Hst [Hd|[e Hd]]]|[Hst Hd]])]];
          try congruence.
      * eexists _, _. split; [reflexivity|]. left. split; [reflexivity|].
        right. right. exists S_IFDIR, w1.
        split; [reflexivity|]. split; [reflexivity|]. split; [assumption|].
        left. split; [reflexivity|]. right. eauto.
    + destruct (snprintf PATH_MAX newdst) as [rc newdst'].
      cbn [fst] in Hl. rewrite Hl.
      eexists _, _. split; [reflexivity|]. left. split; [reflexivity|].
      right. right. exists S_IFDIR, w1.
      split; [reflexivity|]. split; [reflexivity|]. split; [assumption|].
      left. split; [reflexivity|]. left. assumption.
  - (* neither: nothing was counted *)
    exfalso. apply Hnz. cbn [count_files] in Hc. rewrite Es in Hc.
    cbn [S_ISREG S_ISDIR] in Hc. injection Hc as <-. reflexivity.
Qed.

End ExitStatus.

(* ================================================================== *)
(** * The theorems on concrete file systems *)
(* ================================================================== *)

(** ** Counting *)

Lemma count_files_counts_regular_files_demo :
  exists w',
    count_files 4096 4097 w_demo "d" = Some w' /\
    total_files w' = Z.of_nat (nfiles t_demo) /\
    w' = set_total w_demo (total_files w') /\
    forall w2 k2 t2,
      total_files w2 = 0%Z ->
      resolve 4096 w2 "d" = Ok k2 -> has_tree (fs w2) k2 t2 ->
      reordered t_demo t2 ->
      exists w2',
        count_files 4096 4097 w2 "d" = Some w2' /\
        total_files w2' = total_files w'.
Proof.
  apply (count_files_counts_regular_files 4096 w_demo "d" ["d"] t_demo).
  - reflexivity.
  - vm_compute. reflexivity.
  - apply has_treeb_sound. vm_compute. reflexivity.
  - reflexivity.
  - reflexivity.
  - vm_compute. reflexivity.
  - vm_compute. reflexivity.
Defined.

(** The file below sixteen folders with names of 255 characters has a
    path of more than [PATH_MAX] characters: it is in the tree, and
    [count_files] passes it by without a word. *)
Lemma count_files_misses_deep_file :
  has_tree fs_deep ["top"] t_deep /\
  nfiles t_deep = 2 /\
  listable t_deep = true /\
  option_map total_files (count_files 4096 4097 (boot [] fs_deep 0) "top")
  = Some 1%Z.
Proof.
  split; [apply has_treeb_sound; vm_compute; reflexivity|].
  split; [vm_compute; reflexivity|].
  split; vm_compute; reflexivity.
Qed.

(** ** Copying a file *)


(** A call that returns 0: the counter goes up by one and one progress
    line is printed. *)
Lemma copy_file_counts_on_success_only_demo :
  exists w',
    copy_file 4096 (buffered 4096) w_demo "d/f" "b/f" = Some (0%Z, w') /\
    copied_files w' = size_wrap (copied_files w_demo + 1) /\
    stdout w' = stdout w_demo ++ progress_line (copied_files w') (total_files w') /\
    stderr w' = stderr w_demo /\
    streams w' = streams w_demo.
Proof.
  destruct (copy_file_counts_on_success_only 4096 (buffered 4096) w_demo "d/f" "b/f")
    as (r & w' & Hrun & Hstr & _ & Hres & _ & _ & _ & Hok).
  assert (Hr : r = 0%Z).
  { apply (Hok ["d"; "f"] ["b"; "f"] true [x01; x02; x03]).
    - vm_compute. reflexivity.
    - reflexivity.
    - vm_compute. reflexivity.
    - vm_compute. reflexivity.
    - reflexivity.
    - discriminate.
    - right. split; [vm_compute; reflexivity|].
      exists "f". split; [reflexivity|].
      exists true, ["."; ".."]. vm_compute. reflexivity.
    - apply Nat.leb_le. vm_compute. reflexivity. }
  subst r. exists w'. split; [exact Hrun|].
  destruct Hres as [(_ & Hcp & Hout & Herr)|(Hr & _)]; [|discriminate].
  auto.
Defined.


(** On a device with no room left the three bytes stay in the buffer of
    the destination stream until [fclose], which cannot write them and
    whose result is dropped: the call returns 0 and the destination,
    another file, is left empty. *)
Lemma copy_file_on_a_full_device_returns_0 :
  fs (boot [] fs_demo 0) !! ["d"; "f"] = Some (Reg true true [x01; x02; x03]) /\
  exists w',
    copy_file 4096 (buffered 4096) (boot [] fs_demo 0) "d/f" "b/f" = Some (0%Z, w') /\
    fs w' !! ["b"; "f"] = Some (Reg true true []) /\
    copied_files w' = 1%Z.
Proof.
  split; [vm_compute; reflexivity|].
  eexists. split; [vm_compute; reflexivity|].
  split; vm_compute; reflexivity.
Qed.

(** ** Copying a folder *)

Lemma copy_dir_skips_what_it_cannot_read_demo :
  exists w',
    copy_dir 4096 (buffered 4096) 4097 w_demo "d" "b/d" = Some (0%Z, w') /\
    copied_to (fs w') ["b"; "d"] t_demo /\
    copied_files w' = (copied_files w_demo + Z.of_nat (nreadable t_demo))%Z /\
    length (stderr w') = length (stderr w_demo) + nunreadable t_demo /\
    has_tree (fs w') ["d"] t_demo.
Proof.
  apply (copy_dir_skips_what_it_cannot_read 4096 (buffered 4096) 4097 w_demo "d" "b/d"
           ["d"] ["b"; "d"] t_demo).
  - reflexivity.
  - reflexivity.
  - vm_compute. reflexivity.
  - vm_compute. reflexivity.
  - apply has_treeb_sound. vm_compute. reflexivity.
  - vm_compute. reflexivity.
  - vm_compute. reflexivity.
  - apply incomparableb_sound. vm_compute. reflexivity.
  - split; [apply Nat.ltb_lt|apply Nat.leb_le]; vm_compute; reflexivity.
  - apply clearb_below. vm_compute. reflexivity.
  - right. split; [vm_compute; reflexivity|].
    exists "d". split; [reflexivity|].
    exists true, ["."; ".."]. vm_compute. reflexivity.
  - apply Nat.leb_le. vm_compute. reflexivity.
  - vm_compute. discriminate.
  - vm_compute. reflexivity.
Defined.

Lemma copy_dir_status_is_its_own_demo :
  exists r w',
    copy_dir 4096 (buffered 4096) 4097 w_demo "d" "b/d" = Some (r, w') /\
    ((r = 0%Z /\
      exists w0 names, mkdir_unless_exists 4096 w_demo "b/d" = Ok w0 /\
                       opendir 4096 w0 "d" = Ok names)
     \/
     (r = (-1)%Z /\
      ((exists e, mkdir_unless_exists 4096 w_demo "b/d" = Err e)
       \/ (exists w0 e, mkdir_unless_exists 4096 w_demo "b/d" = Ok w0 /\
                        opendir 4096 w0 "d" = Err e)))).
Proof.
  apply (copy_dir_status_is_its_own 4096 (buffered 4096) 4097 w_demo "d" "b/d").
  split; [apply Nat.ltb_lt|apply Nat.leb_le]; vm_compute; reflexivity.
Defined.

(** In [/d] one file cannot be read: that is reported, the three other
    files are copied, and [copy_dir] returns 0. *)
Lemma copy_dir_demo :
  exists w',
    copy_dir 4096 (buffered 4096) 4097 w_demo "d" "b/d" = Some (0%Z, w') /\
    stderr w' = ["open source 'd/g': Permission denied" +:+ nl] /\
    copied_files w' = 2%Z /\
    fs w' !! ["b"; "d"; "f"] = Some (Reg true true [x01; x02; x03]) /\
    fs w' !! ["b"; "d"; "g"] = None /\
    fs w' !! ["b"; "d"; "s"; "h"] = Some (Reg true true [x05; x06]).
Proof.
  eexists. split; [vm_compute; reflexivity|].
  repeat split; vm_compute; reflexivity.
Qed.

(** ** The whole program *)



Lemma empty_source_is_left_alone_demo :
  run 4096 (buffered 4096) [] fs_demo 100 ["cpx"; "e"; "b"]
  = Some (0%Z, print (boot [] fs_demo 100) (Text ("No files to copy." +:+ nl))).
Proof.
  apply (empty_source_is_left_alone 4096 (buffered 4096) [] fs_demo 100 "cpx" "e" "b" ["e"]
           true true [("x", TDir true true []); ("y", TDir true true [])]).
  - vm_compute. reflexivity.
  - apply has_treeb_sound. vm_compute. reflexivity.
  - reflexivity.
Defined.

(** C6.  The source is a FIFO: [count_files] counts nothing, so [main]
    prints "No files to copy." and returns 0; it never gets to the
    branch that reports an unsupported source type and returns 1. *)
Theorem unsupported_source_exits_zero :
  stat 4096 (boot [] fs_fifo 0) "p" = Ok S_IFOTHER /\
  run 4096 (buffered 4096) [] fs_fifo 0 ["cpx"; "p"; "b"]
  = Some (0%Z, print (boot [] fs_fifo 0) (Text ("No files to copy." +:+ nl))).
Proof.
  split.
  - vm_compute. reflexivity.
  - vm_compute. reflexivity.
Qed.

Lemma top_folder_is_last_component_demo :
  exists base pre n,
    "/d//" = pre +:+ base +:+ rep slash n /\
    base <> EmptyString /\ has_slash base = false /\
    (pre = EmptyString \/ ends_slash pre = true) /\
    main 4096 (buffered 4096) 4097 w_demo ["cpx"; "/d//"; "/b"] =
      if fitsb 4096 (join "/b" base) then
        match mkdir_unless_exists 4096 (set_total w_demo 3) (join "/b" base) with
        | Ok w2 => done (copy_dir 4096 (buffered 4096) 4097 w2 "/d//" (join "/b" base))
        | Err e =>
            Some (1%Z, eprint (set_total w_demo 3)
                         ("mkdir '" +:+ join "/b" base +:+ "': "
                          +:+ strerror e +:+ nl))
        end
      else Some (1%Z, eprint (set_total w_demo 3)
                        ("destination path too long" +:+ nl)).
Proof.
  apply (top_folder_is_last_component 4096 (buffered 4096) 4097 w_demo (set_total w_demo 3)
           "cpx" "/d//" "/b").
  - vm_compute. reflexivity.
  - vm_compute. reflexivity.
  - discriminate.
  - reflexivity.
Defined.

(** The folder made for [/d//] under [/b] is [/b/d]. *)
Lemma top_folder_demo :
  base_of (trim_trailing_slashes "/d//" 4096) = "d" /\
  exists w',
    run 4096 (buffered 4096) [] fs_demo 100 ["cpx"; "/d//"; "/b"] = Some (0%Z, w') /\
    fs w' !! ["b"; "d"; "f"] = Some (Reg true true [x01; x02; x03]).
Proof.
  split; [vm_compute; reflexivity|].
  eexists. split; vm_compute; reflexivity.
Qed.

(** The root directory as the source: its path ends in a separator, the
    loop keeps the one character, and nothing follows the last
    separator.  The name of the folder is empty, and the folder to make
    is the destination itself. *)
Lemma root_source_has_empty_base :
  stat 4096 w_demo "/" = Ok S_IFDIR /\
  ends_slash "/" = true /\
  trim_trailing_slashes "/" 4096 = "/" /\
  base_of (trim_trailing_slashes "/" 4096) = EmptyString /\
  namei [] (join "/b" (base_of (trim_trailing_slashes "/" 4096))) = namei [] "/b".
Proof. repeat split; vm_compute; reflexivity. Qed.

(* ================================================================== *)
(** * More on the source path *)
(* ================================================================== *)

Lemma length_substring0 n s :
  String.length (String.substring 0 n s) = Nat.min n (String.length s).
Proof.
  revert s. induction n as [|n IH]; intros [|c s]; cbn; auto.
Qed.

Lemma substring0_prefix n s :
  exists rest, s = String.substring 0 n s +:+ rest.
Proof.
  revert s. induction n as [|n IH]; intros [|c s]; cbn.
  - exists "". reflexivity.
  - exists (String c s). reflexivity.
  - exists "". reflexivity.
  - destruct (IH s) as [rest E]. exists rest. rewrite append_cons, <- E. reflexivity.
Qed.

Lemma trim_loop_le s len : trim_loop s len <= len.
Proof.
  induction len as [|[|l] IH]; [cbn; lia..|].
  rewrite trim_loop_step.
  destruct (String.get (S l) s) as [c|]; [|lia].
  destruct (Ascii.eqb c slash); lia.
Qed.

Lemma trim_loop_slashes m : trim_loop (rep slash (S m)) (S m) = 1.
Proof.
  assert (H : forall l, l <= m -> trim_loop (rep slash (S m)) (S l) = 1).
  { induction l as [|l IH]; intros Hl; [reflexivity|].
    rewrite trim_loop_step, get_rep by lia.
    unfold slash at 2. rewrite Ascii.eqb_refl. apply IH. lia. }
  apply H. lia.
Qed.

(** X2.  Whatever the path and however small the buffer,
    [trim_trailing_slashes] stores a string that fits the buffer with
    its terminator, and that string is the beginning of the path: a
    path too long for the buffer is cut at [bufsz - 1] characters. *)
Theorem trim_trailing_slashes_fits_buffer (s : string) (bufsz : nat) :
  0 < bufsz ->
  String.length (trim_trailing_slashes s bufsz) < bufsz /\
  (exists rest, s = trim_trailing_slashes s bufsz +:+ rest) /\
  (bufsz <= String.length (trim_trailing_slashes s (S (String.length s))) ->
   String.length (trim_trailing_slashes s bufsz) = bufsz - 1).
Proof.
  intros Hb. unfold trim_trailing_slashes.
  pose proof (trim_loop_le s (String.length s)) as Hle.
  split; [|split].
  - rewrite length_substring0.
    destruct (Nat.leb_spec bufsz (trim_loop s (String.length s))); lia.
  - apply substring0_prefix.
  - destruct (Nat.leb_spec (S (String.length s)) (trim_loop s (String.length s)));
      [lia|].
    rewrite !length_substring0. intros Hcut.
    destruct (Nat.leb_spec bufsz (trim_loop s (String.length s))); lia.
Qed.

Lemma trim_trailing_slashes_fits_buffer_demo :
  String.length (trim_trailing_slashes "/usr/share//" 6) < 6 /\
  (exists rest, "/usr/share//" = trim_trailing_slashes "/usr/share//" 6 +:+ rest) /\
  (6 <= String.length (trim_trailing_slashes "/usr/share//"
                         (S (String.length "/usr/share//"))) ->
   String.length (trim_trailing_slashes "/usr/share//" 6) = 6 - 1).
Proof.
  apply (trim_trailing_slashes_fits_buffer "/usr/share//" 6). lia.
Defined.

(** X3.  On a path that fits the buffer, [trim_trailing_slashes] takes
    off slashes at the end and nothing else; what is left ends in a
    slash only when it is the single slash of a path made of slashes; an
    empty path stays empty; and trimming again changes nothing. *)
Theorem trim_trailing_slashes_strips (s : string) (bufsz : nat) :
  String.length s < bufsz ->
  let r := trim_trailing_slashes s bufsz in
  (exists n, s = r +:+ rep slash n) /\
  (ends_slash r = true -> r = "/" /\ has_name s = false) /\
  (r = EmptyString <-> s = EmptyString) /\
  trim_trailing_slashes r bufsz = r.
Proof.
  intros Hlen. cbv zeta.
  destruct (has_name s) eqn:Hn.
  - destruct (trailing_slashes s Hn) as (t & n & -> & He & Hne).
    rewrite length_append, length_rep in Hlen.
    rewrite trim_trailing_slashes_spec by assumption.
    split; [exists n; reflexivity|].
    split; [congruence|].
    split.
    + split; [contradiction|]. intros E. destruct t; [reflexivity|discriminate].
    + rewrite <- (append_nil_r t) at 1.
      apply (trim_trailing_slashes_spec t 0); [assumption..|lia].
  - rewrite (all_slashes s Hn) in *. rewrite length_rep in Hlen.
    destruct (String.length s) as [|m]; cbn [rep] in *.
    + assert (E : trim_trailing_slashes "" bufsz = "").
      { unfold trim_trailing_slashes. cbn.
        destruct (bufsz <=? 0); [destruct (bufsz - 1)|]; reflexivity. }
      rewrite E.
      split; [exists 0; reflexivity|]. split; [discriminate|].
      split; [tauto|exact E].
    + assert (E : trim_trailing_slashes (String slash (rep slash m)) bufsz = "/").
      { unfold trim_trailing_slashes.
        change (String slash (rep slash m)) with (rep slash (S m)).
        rewrite length_rep, trim_loop_slashes.
        destruct (Nat.leb_spec bufsz 1); [lia|].
        cbn [rep String.substring]. destruct (rep slash m); reflexivity. }
      rewrite E.
      split; [exists m; reflexivity|].
      split; [auto|].
      split; [split; discriminate|].
      unfold trim_trailing_slashes. cbn.
      destruct (Nat.leb_spec bufsz 1); [lia|]. reflexivity.
Qed.

Lemma trim_trailing_slashes_strips_demo :
  let r := trim_trailing_slashes "/a/dir///" 4096 in
  (exists n, "/a/dir///" = r +:+ rep slash n) /\
  (ends_slash r = true -> r = "/" /\ has_name "/a/dir///" = false) /\
  (r = EmptyString <-> "/a/dir///" = EmptyString) /\
  trim_trailing_slashes r 4096 = r.
Proof.
  apply (trim_trailing_slashes_strips "/a/dir///" 4096).
  apply Nat.ltb_lt. vm_compute. reflexivity.
Defined.

(** X4.  The name [main] takes from a path is what follows the last
    slash: of [dir/name], with no slash in [name], it is [name]; of a
    path without a slash it is the path; and it never holds a slash. *)
Theorem base_of_join (dir name : string) :
  has_slash name = false ->
  base_of (join dir name) = name /\ base_of name = name /\
  forall p, has_slash (base_of p) = false.
Proof.
  intros Hs.
  assert (Hn : strrchr name slash = None).
  { destruct (strrchr_spec name) as [[E _]|(pre & r & _ & E & _)]; [exact E|].
    exfalso. subst name. clear -Hs.
    induction pre as [|c pre IH]; cbn in Hs.
    - discriminate.
    - apply orb_false_iff in Hs as [_ Hs]. apply IH, Hs. }
  split; [|split].
  - unfold base_of, join.
    assert (E : strrchr (dir +:+ String slash name) slash = Some (String slash name)).
    { induction dir as [|c dir IH].
      - change ("" +:+ String slash name) with (String slash name).
        cbn [strrchr]. rewrite Hn. reflexivity.
      - rewrite append_cons. cbn [strrchr]. rewrite IH. reflexivity. }
    rewrite E. reflexivity.
  - unfold base_of. rewrite Hn. reflexivity.
  - intros p. destruct (base_of_spec p) as (pre & _ & H & _). exact H.
Qed.

Lemma base_of_join_demo :
  base_of (join "/b" "cpx.c") = "cpx.c" /\ base_of "cpx.c" = "cpx.c" /\
  forall p, has_slash (base_of p) = false.
Proof. apply (base_of_join "/b" "cpx.c"). reflexivity. Defined.

(* ================================================================== *)
(** * More on the scan *)
(* ================================================================== *)

Section ScanTheorems.

Variable PATH_MAX : nat.


(** X6.  What the scan adds to [total_files] is the number of regular
    files it gets to: those that lie below directories it can list, at
    paths that fit the buffer all the way down.  That is never more than
    the regular files of the tree; a directory that cannot be listed
    and an entry whose path is too long are passed over with all they
    hold. *)
Theorem count_files_counts_what_it_reaches
    (w : World) (path : string) (k : key) (t : tree) :
  resolve PATH_MAX w path = Ok k -> has_tree (fs w) k t ->
  ends_slash path && negb (tree_is_dir t) = false ->
  (0 <= total_files w)%Z ->
  (total_files w + Z.of_nat (nfiles t) < 2 ^ 64)%Z ->
  exists w',
    count_files PATH_MAX (S PATH_MAX) w path = Some w' /\
    total_files w' = (total_files w + Z.of_nat (scanned PATH_MAX path t))%Z /\
    scanned PATH_MAX path t <= nfiles t.
Proof.
  intros Hr Ht Hs H0 Hmax.
  pose proof (scanned_le_nfiles PATH_MAX t path) as Hle.
  exists (Nat.iter (scanned PATH_MAX path t) bump w).
  split; [|split; [|exact Hle]].
  - apply (count_files_spec PATH_MAX t _ _ _ k); try assumption.
    unfold fuel_ok. lia.
  - apply iter_bump_value; lia.
Qed.

End ScanTheorems.

(* ================================================================== *)
(** * More on [copy_file] *)
(* ================================================================== *)

Section CopyFileTheorems2.

Variable PATH_MAX : nat.
Variable buffering : nat -> nat.

(** X7.  A device with less room than the source holds.  [copy_file]
    notices when a call of [fwrite] comes back short: then it returns
    -1 after one report and counts nothing.  What is still in the
    buffer of the stream goes out in [fclose], whose result it does not
    look at: when the shortfall shows only there, it returns 0, counts
    the file and renders its progress line.  Either way the
    destination is left behind with the bytes that fitted, the
    beginning of the source, and the source is as it was.  A library
    that holds the whole file in its buffer gives the second outcome, a
    library that does not buffer the first. *)
Theorem copy_file_on_a_short_device
    (w : World) (src dst : string) (ks kd : key) (wr : bool) (data : list byte) :
  resolve PATH_MAX w src = Ok ks -> ends_slash src = false ->
  fs w !! ks = Some (Reg true wr data) ->
  resolve PATH_MAX w dst = Ok kd -> ends_slash dst = false ->
  ks <> kd -> file_ready (fs w) kd ->
  space w < length data ->
  exists r w' rd',
    copy_file PATH_MAX buffering w src dst = Some (r, w') /\
    fs w' !! kd = Some (Reg rd' true (take (space w) data)) /\
    space w' = 0 /\
    fs w' !! ks = Some (Reg true wr data) /\
    streams w' = streams w /\
    ((r = (-1)%Z /\
      copied_files w' = copied_files w /\ stdout w' = stdout w /\
      stderr w' = stderr w ++ ["write error to '" +:+ dst +:+ "'" +:+ nl])
     \/
     (r = 0%Z /\
      copied_files w' = size_wrap (copied_files w + 1) /\
      stdout w' = stdout w ++ progress_line (copied_files w') (total_files w') /\
      stderr w' = stderr w)) /\
    ((forall n, n <= length data -> buffering n = 0) -> r = 0%Z) /\
    ((forall n, buffering n = n) -> r = (-1)%Z).
Proof.
  intros Hrs Hss Hks Hrd Hsd Hne Hready Hsp.
  unfold copy_file.
  rewrite (fopen_rb_intro PATH_MAX w src ks wr data) by assumption.
  pose proof (fresh_stream_free w) as Hfree.
  unfold new_stream at 1.
  set (f := fresh (dom (streams w))) in *.
  set (w1 := set_streams w (<[f := Stream ks 0 []]> (streams w))).
  destruct (fopen_wb_ready PATH_MAX w1 dst kd) as (m & Ewb & Hop); [assumption..|].
  rewrite Ewb. cbn [fs w1 set_streams] in Hop.
  pose proof (fresh_stream_free (set_fs w1 m)) as Hfree2.
  unfold new_stream.
  set (g := fresh (dom (streams (set_fs w1 m)))) in *.
  cbn [streams set_fs set_streams w1] in Hfree2.
  assert (Hfg : f <> g).
  { intros E. rewrite <- E, lookup_insert_eq in Hfree2. discriminate. }
  rewrite lookup_insert_ne in Hfree2 by assumption.
  destruct (opened_wb_target _ _ _ Hop) as [rd' Hkd].
  assert (Hks2 : m !! ks = Some (Reg true wr data))
    by (eapply opened_wb_other_file; eauto).
  match goal with |- context [copy_loop buffering ?fu ?x _ _ _] =>
    set (w2 := x); set (fuel := fu) end.
  assert (Hsz : fuel = S (length data)).
  { subst fuel w2. unfold stream_size. cbn.
    rewrite lookup_insert_ne by congruence. rewrite lookup_insert_eq.
    rewrite Hks2. reflexivity. }
  destruct (copy_loop_spec buffering fuel w2 f g dst ks kd 0 [] true wr data rd' true [])
    as (r & w' & Hrun & _ & Htot & Hspc & Hstr & Hfr & Hfin & Hres & Hbuf & Hunb).
  - assumption.
  - left. assumption.
  - subst w2. cbn. rewrite lookup_insert_ne by congruence. apply lookup_insert_eq.
  - subst w2. cbn. apply lookup_insert_eq.
  - subst w2. cbn. assumption.
  - subst w2. cbn. assumption.
  - rewrite take_0. reflexivity.
  - lia.
  - lia.
  - exists r, w', rd'. split; [exact Hrun|].
    subst w2.
    cbn [cwd fs space streams stdout stderr total_files copied_files
         set_streams set_fs length Nat.add Nat.sub w1] in *.
    rewrite Nat.sub_0_r in *.
    split; [exact Hfin|]. split; [lia|].
    split; [rewrite Hfr by assumption; exact Hks2|].
    split.
    { rewrite Hstr. rewrite close_both.
      assert (E : delete f (streams w) = streams w) by (apply delete_id; assumption).
      rewrite E. apply delete_id. assumption. }
    split.
    { rewrite Htot.
      destruct Hres as [(-> & Hcp & Hout & Herr)|(-> & _ & Hcp & Hout & Herr)];
        [right|left]; auto. }
    split; [exact Hbuf|].
    intros Hu. apply Hunb; [exact Hu|reflexivity|exact Hsp].
Qed.

(** X8.  A destination that cannot be opened for writing (a directory,
    a file the process may not write, a missing entry of a directory
    that is missing too or takes no entries, a path with a slash at its
    end) costs nothing but a message: [copy_file] returns -1 and the
    world is the one it was given with that message reported.  The
    source was opened and is closed again; no file is made, emptied or
    counted. *)
Theorem copy_file_bad_destination
    (w : World) (src dst : string) (ks kd : key) (wr : bool) (data : list byte) :
  resolve PATH_MAX w src = Ok ks -> ends_slash src = false ->
  fs w !! ks = Some (Reg true wr data) ->
  resolve PATH_MAX w dst = Ok kd ->
  ends_slash dst = true \/ ~ file_ready (fs w) kd ->
  exists e,
    copy_file PATH_MAX buffering w src dst =
    Some ((-1)%Z,
          eprint w ("open dest '" +:+ dst +:+ "': " +:+ strerror e +:+ nl)).
Proof.
  intros Hrs Hss Hks Hrd Hbad. unfold copy_file.
  rewrite (fopen_rb_intro PATH_MAX w src ks wr data) by assumption.
  pose proof (fresh_stream_free w) as Hfree.
  unfold new_stream.
  set (f := fresh (dom (streams w))) in *.
  set (w1 := set_streams w (<[f := Stream ks 0 []]> (streams w))).
  destruct (fopen_wb_not_ready PATH_MAX w1 dst kd) as [e He]; [assumption..|].
  rewrite He. exists e.
  rewrite (fclose_clean _ f ks 0) by (cbn; apply lookup_insert_eq).
  do 2 f_equal.
  unfold eprint, set_streams, w1. cbn.
  rewrite delete_insert_eq, delete_id by assumption.
  destruct w; reflexivity.
Qed.

(** X9.  Whatever becomes of the copy, [copy_file] writes to the
    destination and nowhere else.  Every entry other than the
    destination and the directory it is entered in is as it was; that
    directory is still a directory with the same permissions; and when
    the source cannot be opened, or the destination path cannot be
    resolved, the file system as a whole is as it was. *)
Theorem copy_file_touches_only_destination (w : World) (src dst : string) :
  exists r w',
    copy_file PATH_MAX buffering w src dst = Some (r, w') /\
    (forall kd k, resolve PATH_MAX w dst = Ok kd ->
       k <> kd -> k <> removelast kd -> fs w' !! k = fs w !! k) /\
    (forall kd rd wr names, resolve PATH_MAX w dst = Ok kd ->
       removelast kd <> kd ->
       fs w !! removelast kd = Some (Dir rd wr names) ->
       exists names', fs w' !! removelast kd = Some (Dir rd wr names')) /\
    ((exists e, fopen_rb PATH_MAX w src = Err e) -> fs w' = fs w) /\
    ((exists e, resolve PATH_MAX w dst = Err e) -> fs w' = fs w).
Proof.
  destruct (copy_file_spec PATH_MAX buffering w src dst)
    as (r & w' & Hrun & _ & _ & _ & _ & Hfr & Hpar & _).
  exists r, w'. split; [exact Hrun|]. split; [exact Hfr|]. split; [exact Hpar|].
  unfold copy_file in Hrun. split.
  - intros [e He]. rewrite He in Hrun. injection Hrun as <- <-. reflexivity.
  - intros [e He].
    destruct (fopen_rb PATH_MAX w src) as [[f w1]|e1] eqn:Erb.
    + apply fopen_rb_inv in Erb as (ks & wr & data & _ & _ & _ & _ & ->).
      unfold fopen_wb in Hrun.
      change (resolve PATH_MAX (set_streams w (<[f:=Stream ks 0 []]> (streams w))) dst)
        with (resolve PATH_MAX w dst) in Hrun.
      rewrite He in Hrun.
      rewrite (fclose_clean _ f ks 0) in Hrun by (cbn; apply lookup_insert_eq).
      injection Hrun as <- <-. reflexivity.
    + injection Hrun as <- <-. reflexivity.
Qed.

End CopyFileTheorems2.

(* ================================================================== *)
(** * Nothing is removed *)
(* ================================================================== *)

Lemma kinds_kept_refl m : kinds_kept m m.
Proof. intros k n H. eauto. Qed.

Lemma kinds_kept_trans m1 m2 m3 :
  kinds_kept m1 m2 -> kinds_kept m2 m3 -> kinds_kept m1 m3.
Proof.
  intros H12 H23 k n H. destruct (H12 k n H) as (n2 & H2 & E2).
  destruct (H23 k n2 H2) as (n3 & H3 & E3). exists n3. split; [assumption|congruence].
Qed.

Lemma kinds_kept_insert m k n n0 :
  m !! k = Some n0 -> mode_of n = mode_of n0 -> kinds_kept m (<[k := n]> m).
Proof.
  intros Hk Hm k' n' H. destruct (decide (k' = k)) as [->|Hne].
  - rewrite lookup_insert_eq. exists n. split; [reflexivity|congruence].
  - rewrite lookup_insert_ne by congruence. eauto.
Qed.

Lemma kinds_kept_fresh m k n : m !! k = None -> kinds_kept m (<[k := n]> m).
Proof.
  intros Hk k' n' H. destruct (decide (k' = k)) as [->|Hne]; [congruence|].
  rewrite lookup_insert_ne by congruence. eauto.
Qed.

Lemma opened_wb_kinds m m' k : opened_wb m m' k -> kinds_kept m m'.
Proof.
  intros [(rd & d & Hk & ->)|(Hk & name & rd & names & Hl & Hp & ->)].
  - eapply kinds_kept_insert; [eassumption|reflexivity].
  - apply kinds_kept_trans
      with (<[removelast k := Dir rd true (names ++ [name])]> m).
    + apply (kinds_kept_insert m (removelast k)
               (Dir rd true (names ++ [name])) _ Hp eq_refl).
    + apply kinds_kept_fresh. rewrite lookup_insert_ne; [assumption|].
      apply last_removelast_neq in Hl. congruence.
Qed.

Section Keeps.

Variable PATH_MAX : nat.
Variable buffering : nat -> nat.

Lemma fread_fs w f size : fs (snd (fread w f size)) = fs w.
Proof.
  unfold fread. destruct (streams w !! f) as [[k pos pend]|]; [|reflexivity].
  destruct (fs w !! k) as [[| |]|]; reflexivity.
Qed.

Lemma dev_write_kinds w k pos bytes :
  kinds_kept (fs w) (fs (snd (dev_write w k pos bytes))).
Proof.
  unfold dev_write. destruct bytes as [|b bytes]; [apply kinds_kept_refl|].
  destruct (fs w !! k) as [[rd wr data| |]|] eqn:E; try apply kinds_kept_refl.
  cbn. eapply kinds_kept_insert; [eassumption|reflexivity].
Qed.

Lemma fwrite_kinds w f buf :
  kinds_kept (fs w) (fs (snd (fwrite buffering w f buf))).
Proof.
  unfold fwrite. destruct (streams w !! f) as [[k pos pend]|]; [|apply kinds_kept_refl].
  pose proof (dev_write_kinds w k pos
                (take (Nat.min (buffering (length (pend ++ buf)))
                               (length (pend ++ buf))) (pend ++ buf))) as H.
  destruct (dev_write w k pos _) as [n w1]. exact H.
Qed.

Lemma fclose_kinds w f : kinds_kept (fs w) (fs (snd (fclose w f))).
Proof.
  unfold fclose. destruct (streams w !! f) as [[k pos pend]|]; [|apply kinds_kept_refl].
  pose proof (dev_write_kinds w k pos pend) as H.
  destruct (dev_write w k pos pend) as [n w1]. exact H.
Qed.

Lemma copy_loop_kinds fuel :
  forall w fsrc fdst dst r w',
  copy_loop buffering fuel w fsrc fdst dst = Some (r, w') ->
  kinds_kept (fs w) (fs w').
Proof.
  induction fuel as [|fuel IH]; intros w fsrc fdst dst r w' H; [discriminate|].
  cbn [copy_loop] in H.
  pose proof (fread_fs w fsrc BUFFER_SIZE) as Hr.
  destruct (fread w fsrc BUFFER_SIZE) as [buf w1]. cbn [snd] in Hr.
  rewrite <- Hr.
  destruct (length buf =? 0).
  - pose proof (fclose_kinds w1 fsrc) as H2.
    destruct (fclose w1 fsrc) as [z2 w2]. cbn [snd] in H2.
    pose proof (fclose_kinds w2 fdst) as H3.
    destruct (fclose w2 fdst) as [z3 w3]. cbn [snd] in H3.
    injection H as <- <-. rewrite show_progress_stdout. cbn.
    eapply kinds_kept_trans; eassumption.
  - pose proof (fwrite_kinds w1 fdst buf) as Hw.
    destruct (fwrite buffering w1 fdst buf) as [wrote w2]. cbn [snd] in Hw.
    eapply kinds_kept_trans; [exact Hw|].
    destruct (negb (wrote =? length buf)).
    + set (w3 := eprint w2 _) in H.
      pose proof (fclose_kinds w3 fsrc) as H4.
      destruct (fclose w3 fsrc) as [z4 w4]. cbn [snd] in H4.
      pose proof (fclose_kinds w4 fdst) as H5.
      destruct (fclose w4 fdst) as [z5 w5]. cbn [snd] in H5.
      injection H as <- <-.
      eapply kinds_kept_trans; eassumption.
    + eapply IH. exact H.
Qed.

Lemma copy_file_kinds w src dst r w' :
  copy_file PATH_MAX buffering w src dst = Some (r, w') -> kinds_kept (fs w) (fs w').
Proof.
  unfold copy_file. intros H.
  destruct (fopen_rb PATH_MAX w src) as [[fsrc w1]|e] eqn:Erb.
  2:{ injection H as <- <-. apply kinds_kept_refl. }
  apply fopen_rb_inv in Erb as (ks & wr & data & _ & _ & _ & _ & ->).
  destruct (fopen_wb PATH_MAX _ dst) as [[fdst w2]|e] eqn:Ewb.
  2:{ rewrite (fclose_clean _ fsrc ks 0) in H by (cbn; apply lookup_insert_eq).
      injection H as <- <-. apply kinds_kept_refl. }
  apply fopen_wb_inv in Ewb as (kd & m & _ & _ & _ & -> & Hop).
  apply copy_loop_kinds in H. cbn in H, Hop.
  eapply kinds_kept_trans; [|exact H]. apply opened_wb_kinds with kd. exact Hop.
Qed.

Lemma mkdir_unless_exists_kinds w dst w0 :
  mkdir_unless_exists PATH_MAX w dst = Ok w0 -> kinds_kept (fs w) (fs w0).
Proof.
  unfold mkdir_unless_exists. intros H.
  destruct (mkdir PATH_MAX w dst) as [w1|e] eqn:Em.
  - injection H as <-.
    apply mkdir_inv in Em as (k & name & rd & names & _ & Hk & Hl & Hp & ->).
    cbn. apply kinds_kept_trans
      with (<[removelast k := Dir rd true (names ++ [name])]> (fs w)).
    + apply (kinds_kept_insert (fs w) (removelast k)
               (Dir rd true (names ++ [name])) _ Hp eq_refl).
    + apply kinds_kept_fresh. rewrite lookup_insert_ne; [assumption|].
      apply last_removelast_neq in Hl. congruence.
  - destruct (is_EEXIST e); [|discriminate]. injection H as <-.
    apply kinds_kept_refl.
Qed.

Lemma mkdir_unless_exists_total_files w dst w0 :
  mkdir_unless_exists PATH_MAX w dst = Ok w0 -> total_files w0 = total_files w.
Proof.
  unfold mkdir_unless_exists. intros H.
  destruct (mkdir PATH_MAX w dst) as [w1|e] eqn:Em.
  - injection H as <-.
    apply mkdir_inv in Em as (k & name & rd & names & _ & _ & _ & _ & ->).
    reflexivity.
  - destruct (is_EEXIST e); [|discriminate]. injection H as <-. reflexivity.
Qed.

Lemma fold_left_none {A B} (f : option A -> B -> option A) (l : list B) :
  (forall b, f None b = None) -> fold_left f l None = None.
Proof. intros Hf. induction l as [|b l IH]; cbn; [reflexivity|]. rewrite Hf. exact IH. Qed.

(** ** What every step of the copy pass keeps, the copy pass keeps *)

Section Kept.

Variable R : World -> World -> Prop.
Hypothesis R_refl : forall w, R w w.
Hypothesis R_trans : forall w1 w2 w3, R w1 w2 -> R w2 w3 -> R w1 w3.
Hypothesis R_eprint : forall w msg, R w (eprint w msg).
Hypothesis R_copy_file :
  forall w s d r w', copy_file PATH_MAX buffering w s d = Some (r, w') -> R w w'.
Hypothesis R_mkdir :
  forall w p w0, mkdir_unless_exists PATH_MAX w p = Ok w0 -> R w w0.

Lemma fold_copy_kept rec src dst :
  (forall w s d r w', rec w s d = Some (r, w') -> R w w') ->
  forall names w w',
  fold_left (copy_entry PATH_MAX buffering rec src dst) names (Some w) = Some w' ->
  R w w'.
Proof.
  intros Hrec. induction names as [|n names IH]; intros w w' H.
  - injection H as <-. apply R_refl.
  - cbn [fold_left] in H.
    destruct (copy_entry PATH_MAX buffering rec src dst (Some w) n) as [w1|] eqn:E.
    2:{ rewrite fold_left_none in H by reflexivity. discriminate. }
    eapply R_trans; [|apply (IH _ _ H)].
    clear H IH. cbn [copy_entry] in E.
    destruct (is_dot n); [injection E as <-; apply R_refl|].
    destruct (snprintf PATH_MAX (join src n)) as [r1 srcpath].
    destruct (snprintf PATH_MAX (join dst n)) as [r2 dstpath].
    destruct (too_long PATH_MAX r1 || too_long PATH_MAX r2);
      [injection E as <-; apply R_eprint|].
    destruct (stat PATH_MAX w srcpath) as [st|e];
      [|injection E as <-; apply R_eprint].
    destruct (S_ISDIR st).
    + destruct (rec w srcpath dstpath) as [[r w2]|] eqn:Er; [|discriminate].
      injection E as <-. eapply Hrec. exact Er.
    + destruct (S_ISREG st); [|injection E as <-; apply R_refl].
      destruct (copy_file PATH_MAX buffering w srcpath dstpath) as [[r w2]|] eqn:Er;
        [|discriminate].
      injection E as <-. eapply R_copy_file. exact Er.
Qed.

Lemma copy_dir_kept fuel :
  forall w src dst r w',
  copy_dir PATH_MAX buffering fuel w src dst = Some (r, w') -> R w w'.
Proof.
  induction fuel as [|fuel IH]; intros w src dst r w' H; [discriminate|].
  cbn [copy_dir] in H.
  destruct (mkdir_unless_exists PATH_MAX w dst) as [w0|e] eqn:Em.
  2:{ injection H as <- <-. apply R_eprint. }
  apply R_mkdir in Em.
  eapply R_trans; [exact Em|].
  destruct (opendir PATH_MAX w0 src) as [names|e].
  2:{ injection H as <- <-. apply R_eprint. }
  destruct (fold_left _ names (Some w0)) as [w1|] eqn:Ef; [|discriminate].
  injection H as <- <-.
  eapply fold_copy_kept; [|exact Ef]. exact IH.
Qed.

End Kept.

Lemma copy_dir_kinds fuel w src dst r w' :
  copy_dir PATH_MAX buffering fuel w src dst = Some (r, w') -> kinds_kept (fs w) (fs w').
Proof.
  apply (copy_dir_kept (fun w w' => kinds_kept (fs w) (fs w'))).
  - intros w0. apply kinds_kept_refl.
  - intros w1 w2 w3. apply kinds_kept_trans.
  - intros w0 msg. apply kinds_kept_refl.
  - apply copy_file_kinds.
  - apply mkdir_unless_exists_kinds.
Qed.

Lemma copy_dir_total_files fuel w src dst r w' :
  copy_dir PATH_MAX buffering fuel w src dst = Some (r, w') ->
  total_files w' = total_files w.
Proof.
  apply (copy_dir_kept (fun w w' => total_files w' = total_files w)).
  - reflexivity.
  - intros w1 w2 w3 H1 H2. congruence.
  - reflexivity.
  - intros w0 s d r0 w0' H.
    destruct (copy_file_spec PATH_MAX buffering w0 s d) as (r1 & w1 & Hrun & _ & _ & Ht & _).
    rewrite H in Hrun. injection Hrun as <- <-. exact Ht.
  - apply mkdir_unless_exists_total_files.
Qed.

(** X10.  The program removes nothing.  A fresh process always comes to
    an end, and whatever it was asked to copy and however far it got,
    every entry the file system held at the start is still there at the
    end and of the same kind: a file is still a file, a directory
    still a directory.  (A file at the place of a copy is overwritten;
    entries are only ever added.) *)
Theorem run_removes_nothing (cwd0 : key) (fs0 : gmap key node) (space0 : nat)
    (argv : list string) :
  exists r w',
    run PATH_MAX buffering cwd0 fs0 space0 argv = Some (r, w') /\
    kinds_kept fs0 (fs w') /\
    (forall k, fs w' !! k = None -> fs0 !! k = None).
Proof.
  assert (Hfuel : forall p, fuel_ok PATH_MAX (S PATH_MAX) p)
    by (intros p; unfold fuel_ok; lia).
  assert (Hmain : exists r w',
    run PATH_MAX buffering cwd0 fs0 space0 argv = Some (r, w') /\ kinds_kept fs0 (fs w')).
  { unfold run, main. set (w := boot cwd0 fs0 space0).
    set (src := nth 1 argv ""). set (dst := nth 2 argv "").
    destruct (negb (length argv =? 3)).
    { eexists _, _. split; [reflexivity|]. apply kinds_kept_refl. }
    destruct (stat PATH_MAX w src) as [st|e].
    2:{ eexists _, _. split; [reflexivity|]. apply kinds_kept_refl. }
    destruct (count_files_total PATH_MAX (S PATH_MAX) w src (Hfuel src)) as [n ->].
    pose proof (iter_bump_fs n w) as Hfs. change (fs w) with fs0 in Hfs.
    set (w1 := Nat.iter n bump w) in *.
    destruct (total_files w1 =? 0)%Z.
    { eexists _, _. split; [reflexivity|]. cbn. rewrite Hfs. apply kinds_kept_refl. }
    destruct (S_ISDIR st).
    - destruct (snprintf PATH_MAX (join dst (base_of (trim_trailing_slashes src PATH_MAX))))
        as [rc newdst].
      destruct (too_long PATH_MAX rc).
      { eexists _, _. split; [reflexivity|]. cbn. rewrite Hfs. apply kinds_kept_refl. }
      destruct (mkdir_unless_exists PATH_MAX w1 newdst) as [w2|e] eqn:Em.
      2:{ eexists _, _. split; [reflexivity|]. cbn. rewrite Hfs. apply kinds_kept_refl. }
      apply mkdir_unless_exists_kinds in Em. rewrite Hfs in Em.
      destruct (copy_dir_total PATH_MAX buffering (S PATH_MAX) w2 src newdst (Hfuel src))
        as (r & w' & Hrun).
      rewrite Hrun. cbn [done]. eexists _, _. split; [reflexivity|]. cbn.
      eapply kinds_kept_trans; [exact Em|]. eapply copy_dir_kinds. exact Hrun.
    - destruct (S_ISREG st).
      2:{ eexists _, _. split; [reflexivity|]. cbn. rewrite Hfs. apply kinds_kept_refl. }
      match goal with |- context [let '(_, _) := ?x in _] => destruct x as [rc dstpath] end.
      destruct (too_long PATH_MAX rc).
      { eexists _, _. split; [reflexivity|]. cbn. rewrite Hfs. apply kinds_kept_refl. }
      destruct (copy_file_spec PATH_MAX buffering w1 src dstpath) as (r & w' & Hrun & _).
      rewrite Hrun. cbn [done]. eexists _, _. split; [reflexivity|]. cbn.
      rewrite <- Hfs. eapply copy_file_kinds. exact Hrun. }
  destruct Hmain as (r & w' & Hrun & Hk).
  exists r, w'. split; [exact Hrun|]. split; [exact Hk|].
  intros k Hn. destruct (fs0 !! k) as [n|] eqn:E0; [|reflexivity].
  destruct (Hk k n E0) as (n' & Hn' & _). congruence.
Qed.

End Keeps.

(* ================================================================== *)
(** * The program from end to end *)
(* ================================================================== *)

Lemma nreadable_le_nfiles t : nreadable t <= nfiles t.
Proof.
  induction t as [rd wr data|rd wr ents IH|] using tree_ind'; cbn [nreadable nfiles].
  - destruct rd; lia.
  - apply list_sum_le. intros e Hin.
    rewrite List.Forall_forall in IH. apply IH, Hin.
  - lia.
Qed.

Lemma below_not_parent (kd k : key) :
  kd `prefix_of` k -> k <> kd -> k <> removelast kd.
Proof.
  intros [s ->] Hne E.
  destruct kd as [|a kd'] using rev_ind.
  - cbn in *. congruence.
  - rewrite removelast_last in E.
    apply (f_equal length) in E. rewrite !length_app in E. cbn in E. lia.
Qed.

Section RunTheorems.

Variable PATH_MAX : nat.
Variable buffering : nat -> nat.

(** X11.  The program on a folder.  Let the source be a directory whose
    directories can all be listed, with at least one regular file, all
    paths composed on the way fitting the buffer, and let the folder
    [dst/base], [base] being the last component of the source, be
    makeable or there already, with nothing in it, apart from the
    source, and with room on the device.  Then the program exits with
    status 0; [total_files] is the number of regular files of the
    source and [copied_files] the number of those that can be read;
    below [dst/base] lies a copy of the source, every readable file
    with its bytes; nothing else in the file system has changed, the
    source least of all; one progress line was printed per file
    copied, then "Done."; and each unreadable file was reported once. *)
Theorem run_copies_tree
    (cwd0 : key) (fs0 : gmap key node) (space0 : nat)
    (prog src dst : string) (ksrc : key) (t : tree) :
  let newdst := join dst (base_of (trim_trailing_slashes src PATH_MAX)) in
  let kd := namei cwd0 newdst in
  resolve PATH_MAX (boot cwd0 fs0 space0) src = Ok ksrc ->
  has_tree fs0 ksrc t -> tree_is_dir t = true ->
  listable t = true -> paths_fit PATH_MAX src t = true ->
  fitsb PATH_MAX newdst = true -> paths_fit PATH_MAX newdst t = true ->
  incomparable ksrc kd ->
  (forall k, kd `prefix_of` k -> k <> kd -> fs0 !! k = None) ->
  dst_ready fs0 kd ->
  readable_bytes t <= space0 ->
  0 < nfiles t -> (Z.of_nat (nfiles t) < 2 ^ 64)%Z ->
  exists w',
    run PATH_MAX buffering cwd0 fs0 space0 [prog; src; dst] = Some (0%Z, w') /\
    total_files w' = Z.of_nat (nfiles t) /\
    copied_files w' = Z.of_nat (nreadable t) /\
    copied_to (fs w') kd t /\
    has_tree (fs w') ksrc t /\
    (forall k, outside kd k -> fs w' !! k = fs0 !! k) /\
    stdout w' = lines 0 (Z.of_nat (nfiles t)) (nreadable t)
                ++ [Text (nl +:+ "Done." +:+ nl)] /\
    length (stderr w') = nunreadable t /\
    space w' = space0 - readable_bytes t.
Proof.
  intros newdst kd Hr Ht Hd Hl Hps Hfd Hpd Hinc Hvac Hready Hsp Hpos Hmax.
  unfold run, main. cbn [length Nat.eqb negb nth].
  set (w := boot cwd0 fs0 space0) in *.
  assert (Hs : ends_slash src && negb (tree_is_dir t) = false)
    by (rewrite Hd; apply andb_false_r).
  rewrite (has_tree_stat PATH_MAX w src ksrc t Ht Hr Hs).
  rewrite (count_files_spec PATH_MAX t _ w src ksrc Ht Hr Hs (fuel_ok_top PATH_MAX src)).
  rewrite (scanned_all PATH_MAX t src Hl Hps).
  pose proof (scan_from_boot cwd0 fs0 space0 (nfiles t) Hmax) as Escan.
  fold w in Escan. rewrite Escan. clear Escan.
  set (w1 := set_total w (Z.of_nat (nfiles t))).
  change (total_files w1) with (Z.of_nat (nfiles t)).
  destruct (Z.eqb_spec (Z.of_nat (nfiles t)) 0) as [Hz|_]; [lia|].
  destruct t as [|rd wr ents|]; try discriminate. cbn [tree_mode S_ISDIR].
  fold newdst.
  destruct (snprintf_cases PATH_MAX newdst) as [(Hf & _ & -> & ->)|(_ & E & _)];
    [|congruence].
  assert (Hrd : resolve PATH_MAX w1 newdst = Ok kd).
  { apply resolve_ok. split; [apply join_nonempty|]. split; [apply Hf|reflexivity]. }
  destruct (mkdir_unless_exists_ready PATH_MAX w1 newdst kd Hrd Hready)
    as (w2 & -> & Hs2 & He2 & Hsp2 & Hwd2 & Hfr2 & _).
  pose proof Hs2 as (Hcwd2 & _ & Htot2 & _ & Hout2 & Hcp2 & Hso2).
  assert (Ht2 : has_tree (fs w2) ksrc (TDir rd wr ents)).
  { eapply has_tree_frame; [exact Ht|]. intros k' Hk'.
    apply Hout2. eapply in_source_outside; eauto. }
  destruct (copy_dir_exact PATH_MAX buffering (TDir rd wr ents) (S PATH_MAX) w2 src newdst ksrc kd)
    as (w' & -> & Hstep & Hcopy & Hspace & Herr & _); try assumption.
  - rewrite (resolve_same PATH_MAX w1) by assumption. exact Hr.
  - rewrite (resolve_same PATH_MAX w1) by assumption. exact Hrd.
  - apply fuel_ok_top.
  - intros k Hk Hne. rewrite Hfr2; [apply Hvac; assumption|assumption|].
    apply below_not_parent; assumption.
  - left. exact Hwd2.
  - rewrite Hsp2. exact Hsp.
  - cbn [done]. eexists. split; [reflexivity|].
    pose proof (copy_step_trans _ _ _ _ _ _ Hs2 Hstep) as Hall.
    destruct Hall as (_ & _ & Htot & _ & Hfr & Hcp & Hout).
    cbn [Nat.add] in Hcp, Hout.
    change (copied_files w1) with 0%Z in Hcp, Hout.
    change (total_files w1) with (Z.of_nat (nfiles (TDir rd wr ents))) in Htot, Hout.
    change (stdout w1) with (@nil out_event) in Hout.
    change (fs w1) with fs0 in Hfr.
    cbn [total_files copied_files fs stdout stderr space print].
    pose proof (nreadable_le_nfiles (TDir rd wr ents)) as Hle.
    split; [exact Htot|].
    split; [rewrite Hcp; rewrite iter_incr_value; lia|].
    split; [exact Hcopy|].
    split.
    { eapply has_tree_frame; [exact Ht|]. intros k' Hk'.
      apply Hfr. eapply in_source_outside; eauto. }
    split; [exact Hfr|].
    split; [rewrite Hout; reflexivity|].
    split; [rewrite Herr, He2; reflexivity|].
    rewrite Hspace, Hsp2. reflexivity.
Qed.

(** X12.  The program on a single file.  The copy goes to
    [dst/name], [name] being what follows the last slash of the source
    path, when [dst] is a directory, and to [dst] itself otherwise.
    When the source can be read, that place can be opened for writing
    and is not the source itself, and the device has room, the program
    exits with status 0 and the file there holds the bytes of the
    source, whatever it held before; the source and everything else
    but the directory of the copy are as they were; the one progress
    line shows 1 of 1, "Done." follows, and nothing is reported. *)
Theorem run_copies_file
    (cwd0 : key) (fs0 : gmap key node) (space0 : nat)
    (prog src dst : string) (ks : key) (wr : bool) (data : list byte) :
  let target := file_target PATH_MAX (boot cwd0 fs0 space0) src dst in
  let kt := namei cwd0 target in
  resolve PATH_MAX (boot cwd0 fs0 space0) src = Ok ks ->
  ends_slash src = false ->
  fs0 !! ks = Some (Reg true wr data) ->
  target <> EmptyString -> fitsb PATH_MAX target = true ->
  ends_slash target = false ->
  kt <> ks -> file_ready fs0 kt -> length data <= space0 ->
  exists w' rd',
    run PATH_MAX buffering cwd0 fs0 space0 [prog; src; dst] = Some (0%Z, w') /\
    fs w' !! kt = Some (Reg rd' true data) /\
    fs w' !! ks = Some (Reg true wr data) /\
    (forall k, k <> kt -> k <> removelast kt -> fs w' !! k = fs0 !! k) /\
    total_files w' = 1%Z /\ copied_files w' = 1%Z /\
    stdout w' = progress_line 1 1 ++ [Text (nl +:+ "Done." +:+ nl)] /\
    stderr w' = [] /\
    space w' = space0 - length data.
Proof.
  intros target kt Hr Hss Hks Hne Hfit Hst Hdiff Hready Hsp.
  unfold run, main. cbn [length Nat.eqb negb nth].
  set (w := boot cwd0 fs0 space0) in *.
  assert (Hstat : stat PATH_MAX w src = Ok S_IFREG).
  { unfold stat, lookup_path. rewrite Hr. change (fs w) with fs0.
    rewrite Hks, Hss. reflexivity. }
  rewrite Hstat. cbn [count_files]. rewrite Hstat. cbn [S_ISREG S_ISDIR].
  change (size_wrap (total_files w + 1)) with 1%Z.
  set (w1 := set_total w 1).
  change (total_files w1 =? 0)%Z with false. cbv iota.
  assert (E : match stat PATH_MAX w1 dst with
              | Ok dstst =>
                  if S_ISDIR dstst
                  then snprintf PATH_MAX (join dst (base_of src))
                  else snprintf PATH_MAX dst
              | Err _ => snprintf PATH_MAX dst
              end = snprintf PATH_MAX target).
  { unfold target, file_target.
    rewrite (stat_same PATH_MAX w w1) by reflexivity.
    destruct (stat PATH_MAX w dst) as [dstst|e];
      [destruct (S_ISDIR dstst)|]; reflexivity. }
  rewrite E. clear E.
  destruct (snprintf_cases PATH_MAX target) as [(Hf & _ & -> & ->)|(_ & E & _)];
    [|congruence].
  assert (Hrt : resolve PATH_MAX w1 target = Ok kt).
  { apply resolve_ok. split; [assumption|]. split; [apply Hf|reflexivity]. }
  destruct (copy_file_spec PATH_MAX buffering w1 src target)
    as (r & w' & -> & _ & _ & Htot & _ & Hfr & _ & Hres).
  cbn [done].
  destruct Hres as [(-> & Hcp & Hout & Herr & ks' & kd' & wr' & data' & rd' &
                      Hks' & Hkd' & Hd' & Hfin & Hspace)
                   |(-> & _ & _ & _ & [(e & He & _)|[(f & w0 & e & Hf0 & He & _)
                                                    |(ks' & wr' & data' & Hks' & Hd' & Hlt)]])].
  - change (resolve PATH_MAX w1 src) with (resolve PATH_MAX w src) in Hks'.
    rewrite Hr in Hks'. injection Hks' as <-.
    rewrite Hrt in Hkd'. injection Hkd' as <-.
    change (fs w1) with fs0 in Hd'. rewrite Hks in Hd'. injection Hd' as <- <-.
    destruct (decide (ks = kt)) as [Ek|Hn]; [congruence|].
    destruct (Hspace Hn) as (Hsrc & Hspace').
    change (space w1) with space0 in Hfin, Hspace'.
    rewrite take_ge in Hfin by assumption.
    rewrite Nat.min_l in Hspace' by assumption.
    exists (print w' (Text (nl +:+ "Done." +:+ nl))), rd'.
    split; [reflexivity|].
    cbn [total_files copied_files fs stdout stderr space print].
    split; [exact Hfin|]. split; [exact Hsrc|].
    split; [intros k H1 H2; apply (Hfr kt k Hrt H1 H2)|].
    split; [exact Htot|].
    split; [rewrite Hcp; reflexivity|].
    split; [rewrite Hout, Hcp; reflexivity|].
    split; [exact Herr|exact Hspace'].
  - rewrite (fopen_rb_intro PATH_MAX w1 src ks wr data) in He;
      [discriminate|exact Hr|exact Hks|exact Hss].
  - apply fopen_rb_inv in Hf0 as (ks' & wr' & data' & _ & _ & _ & _ & ->).
    destruct (fopen_wb_ready PATH_MAX
                (set_streams w1 (<[f:=Stream ks' 0 []]> (streams w1))) target kt)
      as (m & Ewb & _); [exact Hrt|exact Hst|exact Hready|].
    rewrite Ewb in He. discriminate.
  - change (resolve PATH_MAX w1 src) with (resolve PATH_MAX w src) in Hks'.
    rewrite Hr in Hks'. injection Hks' as <-.
    change (fs w1) with fs0 in Hd'. rewrite Hks in Hd'. injection Hd' as <- <-.
    change (space w1) with space0 in Hlt. lia.
Qed.

(** X15.  How a run can end.  With status 1 the program has printed
    nothing, reported exactly one thing and left the file system and
    the device as they were: it gives up before it makes anything.
    With status 0 and nothing counted it has printed "No files to
    copy." and done no more.  Otherwise it went through the copy pass,
    and the last thing it printed is "Done.", whatever the copy pass
    ran into. *)
Theorem run_outcomes (cwd0 : key) (fs0 : gmap key node) (space0 : nat)
    (argv : list string) :
  exists r w',
    run PATH_MAX buffering cwd0 fs0 space0 argv = Some (r, w') /\
    ((r = 1%Z /\ fs w' = fs0 /\ space w' = space0 /\ stdout w' = [] /\
      copied_files w' = 0%Z /\ exists msg, stderr w' = [msg])
     \/
     (r = 0%Z /\ total_files w' = 0%Z /\ fs w' = fs0 /\ space w' = space0 /\
      stdout w' = [Text ("No files to copy." +:+ nl)] /\ stderr w' = [])
     \/
     (r = 0%Z /\ total_files w' <> 0%Z /\
      exists out, stdout w' = out ++ [Text (nl +:+ "Done." +:+ nl)])).
Proof.
  unfold run, main. set (w := boot cwd0 fs0 space0).
  set (src := nth 1 argv ""). set (dst := nth 2 argv "").
  destruct (negb (length argv =? 3)).
  { eexists _, _. split; [reflexivity|]. left. cbn. eauto 10. }
  destruct (stat PATH_MAX w src) as [st|e].
  2:{ eexists _, _. split; [reflexivity|]. left. cbn. eauto 10. }
  destruct (count_files_total PATH_MAX (S PATH_MAX) w src (fuel_ok_top PATH_MAX src))
    as [n ->].
  rewrite (iter_bump_total n w).
  set (z := total_files (Nat.iter n bump w)).
  set (w1 := set_total w z).
  change (total_files w1) with z.
  destruct (Z.eqb_spec z 0) as [Hz|Hnz].
  { eexists _, _. split; [reflexivity|]. right. left. cbn. auto 10. }
  assert (Hfail : forall msg,
    exists r w',
      Some (1%Z, eprint w1 msg) = Some (r, w') /\
      ((r = 1%Z /\ fs w' = fs0 /\ space w' = space0 /\ stdout w' = [] /\
        copied_files w' = 0%Z /\ exists msg, stderr w' = [msg])
       \/
       (r = 0%Z /\ total_files w' = 0%Z /\ fs w' = fs0 /\ space w' = space0 /\
        stdout w' = [Text ("No files to copy." +:+ nl)] /\ stderr w' = [])
       \/
       (r = 0%Z /\ total_files w' <> 0%Z /\
        exists out, stdout w' = out ++ [Text (nl +:+ "Done." +:+ nl)]))).
  { intros msg. eexists _, _. split; [reflexivity|]. left. cbn. eauto 10. }
  assert (Hdone : forall r0 w0,
    total_files w0 = z ->
    exists r w',
      done (Some (r0, w0)) = Some (r, w') /\
      ((r = 1%Z /\ fs w' = fs0 /\ space w' = space0 /\ stdout w' = [] /\
        copied_files w' = 0%Z /\ exists msg, stderr w' = [msg])
       \/
       (r = 0%Z /\ total_files w' = 0%Z /\ fs w' = fs0 /\ space w' = space0 /\
        stdout w' = [Text ("No files to copy." +:+ nl)] /\ stderr w' = [])
       \/
       (r = 0%Z /\ total_files w' <> 0%Z /\
        exists out, stdout w' = out ++ [Text (nl +:+ "Done." +:+ nl)]))).
  { intros r0 w0 Ht. eexists _, _. split; [reflexivity|]. right. right.
    cbn. split; [reflexivity|]. split; [congruence|]. eauto. }
  destruct (S_ISDIR st).
  - destruct (snprintf PATH_MAX (join dst (base_of (trim_trailing_slashes src PATH_MAX))))
      as [rc newdst].
    destruct (too_long PATH_MAX rc); [apply Hfail|].
    destruct (mkdir_unless_exists PATH_MAX w1 newdst) as [w2|e] eqn:Em;
      [|apply Hfail].
    apply mkdir_unless_exists_total_files in Em.
    destruct (copy_dir_total PATH_MAX buffering (S PATH_MAX) w2 src newdst (fuel_ok_top PATH_MAX src))
      as (r & w' & Hrun).
    rewrite Hrun. apply Hdone.
    rewrite (copy_dir_total_files PATH_MAX buffering _ _ _ _ _ _ Hrun). exact Em.
  - destruct (S_ISREG st); [|apply Hfail].
    match goal with |- context [let '(_, _) := ?x in _] => destruct x as [rc dstpath] end.
    destruct (too_long PATH_MAX rc); [apply Hfail|].
    destruct (copy_file_spec PATH_MAX buffering w1 src dstpath) as (r & w' & Hrun & _ & _ & Ht & _).
    rewrite Hrun. apply Hdone. exact Ht.
Qed.

(** X19.  The program writes below the folder of the copy and nowhere
    else.  For a source directory and a folder [dst/base] that lies
    neither in the source nor above it, whatever the files of the
    source are like and whatever fails on the way, the run comes to an
    end with every entry of the file system as it was, those at or
    below [dst/base] and the directory [dst/base] is entered in
    excepted; the source tree in particular is untouched. *)
Theorem run_writes_only_below_destination
    (cwd0 : key) (fs0 : gmap key node) (space0 : nat)
    (prog src dst : string) (ksrc : key) (t : tree) :
  let kd := namei cwd0 (join dst (base_of (trim_trailing_slashes src PATH_MAX))) in
  resolve PATH_MAX (boot cwd0 fs0 space0) src = Ok ksrc ->
  has_tree fs0 ksrc t -> tree_is_dir t = true ->
  incomparable ksrc kd ->
  exists r w',
    run PATH_MAX buffering cwd0 fs0 space0 [prog; src; dst] = Some (r, w') /\
    (forall k, outside kd k -> fs w' !! k = fs0 !! k) /\
    has_tree (fs w') ksrc t /\
    space w' <= space0.
Proof.
  intros kd Hr Ht Hd Hinc.
  assert (Hsame : forall (r : Z) (w' : World),
    fs w' = fs0 -> space w' = space0 ->
    exists r0 w0,
      Some (r, w') = Some (r0, w0) /\
      (forall k, outside kd k -> fs w0 !! k = fs0 !! k) /\
      has_tree (fs w0) ksrc t /\ space w0 <= space0).
  { intros r w' Hfs Hsp. exists r, w'. split; [reflexivity|].
    rewrite Hfs, Hsp. auto. }
  unfold run, main. cbn [length Nat.eqb negb nth].
  set (w := boot cwd0 fs0 space0) in *.
  assert (Hs : ends_slash src && negb (tree_is_dir t) = false)
    by (rewrite Hd; apply andb_false_r).
  rewrite (has_tree_stat PATH_MAX w src ksrc t Ht Hr Hs).
  rewrite (count_files_spec PATH_MAX t _ w src ksrc Ht Hr Hs (fuel_ok_top PATH_MAX src)).
  rewrite (iter_bump_total _ w).
  set (z := total_files (Nat.iter (scanned PATH_MAX src t) bump w)).
  set (w1 := set_total w z).
  destruct (total_files w1 =? 0)%Z; [apply Hsame; reflexivity|].
  destruct t as [|rd wr ents|]; try discriminate. cbn [tree_mode S_ISDIR].
  set (newdst := join dst (base_of (trim_trailing_slashes src PATH_MAX))) in *.
  destruct (snprintf_cases PATH_MAX newdst) as [(Hf & _ & -> & ->)|(_ & _ & E)].
  2:{ destruct (snprintf PATH_MAX newdst) as [rc nd]. cbn [fst] in E. rewrite E.
      apply Hsame; reflexivity. }
  assert (Hrd : resolve PATH_MAX w1 newdst = Ok kd).
  { apply resolve_ok. split; [apply join_nonempty|]. split; [apply Hf|reflexivity]. }
  destruct (mkdir_unless_exists PATH_MAX w1 newdst) as [w2|e] eqn:Em;
    [|apply Hsame; reflexivity].
  destruct (mkdir_unless_exists_step PATH_MAX _ _ _ _ Em Hrd) as (Hs2 & _).
  assert (Ht2 : has_tree (fs w2) ksrc (TDir rd wr ents)).
  { eapply has_tree_frame; [exact Ht|]. intros k' Hk'.
    destruct Hs2 as (_ & _ & _ & _ & Hfr & _). rewrite Hfr; [reflexivity|].
    eapply in_source_outside; eauto. }
  assert (Hcwd2 : cwd w2 = cwd w1) by apply Hs2.
  destruct (copy_dir_bound PATH_MAX buffering _ (S PATH_MAX) w2 src newdst ksrc kd Ht2)
    as (r & w' & c & Hrun & Hs' & _).
  - rewrite (resolve_same PATH_MAX w1) by assumption. exact Hr.
  - rewrite (resolve_same PATH_MAX w1) by assumption. exact Hrd.
  - exact Hinc.
  - apply fuel_ok_top.
  - rewrite Hrun. cbn [done].
    pose proof (copy_step_trans _ _ _ _ _ _ Hs2 Hs') as Hstep.
    destruct Hstep as (_ & _ & _ & Hsp & Hfr & _).
    eexists _, _. split; [reflexivity|].
    cbn [fs space print]. change (fs w1) with fs0 in Hfr.
    split; [exact Hfr|]. split; [|exact Hsp].
    eapply has_tree_frame; [exact Ht|]. intros k' Hk'.
    apply Hfr. eapply in_source_outside; eauto.
Qed.

End RunTheorems.

(* ================================================================== *)
(** * Destinations that are in the way *)
(* ================================================================== *)

Lemma only_reported_refl w : only_reported w w.
Proof. repeat split. Qed.

Lemma only_reported_eprint w msg : only_reported w (eprint w msg).
Proof. repeat split. Qed.

Lemma only_reported_trans w1 w2 w3 :
  only_reported w1 w2 -> only_reported w2 w3 -> only_reported w1 w3.
Proof.
  intros (A1 & A2 & A3 & A4 & A5 & A6 & A7) (B1 & B2 & B3 & B4 & B5 & B6 & B7).
  repeat split; congruence.
Qed.

Section Blocked.

Variable PATH_MAX : nat.
Variable buffering : nat -> nat.

Lemma copy_file_not_ready w src dst kd :
  resolve PATH_MAX w dst = Ok kd ->
  ends_slash dst = true \/ ~ file_ready (fs w) kd ->
  exists msg, copy_file PATH_MAX buffering w src dst = Some ((-1)%Z, eprint w msg).
Proof.
  intros Hrd Hbad. unfold copy_file.
  destruct (fopen_rb PATH_MAX w src) as [[f w1]|e] eqn:Erb; [|eauto].
  apply fopen_rb_inv in Erb as (ks & wr & data & _ & _ & _ & Hfree & ->).
  destruct (fopen_wb_not_ready PATH_MAX
              (set_streams w (<[f:=Stream ks 0 []]> (streams w))) dst kd)
    as [e He]; [assumption..|].
  rewrite He.
  rewrite (fclose_clean _ f ks 0) by (cbn; apply lookup_insert_eq).
  eexists. do 2 f_equal.
  unfold eprint, set_streams. cbn.
  rewrite delete_insert_eq, delete_id by assumption.
  destruct w; reflexivity.
Qed.

Lemma copy_dir_blocked fuel w src dst kd :
  resolve PATH_MAX w dst = Ok kd -> fs w !! kd = None ->
  ~ writable_dir (fs w) (removelast kd) ->
  exists msg, copy_dir PATH_MAX buffering (S fuel) w src dst = Some ((-1)%Z, eprint w msg).
Proof.
  intros Hrd Hk Hp. cbn [copy_dir].
  unfold mkdir_unless_exists, mkdir. rewrite Hrd, Hk. unfold link_child.
  destruct (last kd) as [name|]; [|cbn; eauto].
  destruct (fs w !! removelast kd) as [[| rd [|] names|]|] eqn:E; cbn; eauto.
  exfalso. apply Hp. exists rd, names. exact E.
Qed.

(** The [readdir] loop when the place of the copy is taken by a file:
    every entry ends in a report, or in nothing at all. *)
Lemma fold_copy_blocked fuel src dst ksrc kd w0 rd' wr' d :
  resolve PATH_MAX w0 src = Ok ksrc -> resolve PATH_MAX w0 dst = Ok kd ->
  fs w0 !! kd = Some (Reg rd' wr' d) ->
  (forall k, kd `prefix_of` k -> k <> kd -> fs w0 !! k = None) ->
  0 < fuel ->
  forall names, Forall valid_name names ->
  forall w, only_reported w0 w ->
  exists w',
    fold_left (copy_entry PATH_MAX buffering (copy_dir PATH_MAX buffering fuel) src dst)
              names (Some w) = Some w' /\
    only_reported w0 w'.
Proof.
  intros Hrs Hrd Hkd Hvac Hfuel.
  destruct fuel as [|fuel]; [lia|]. clear Hfuel.
  induction names as [|n names IH]; intros Hv w Hw; [eauto|].
  apply Forall_cons in Hv as [Hn Hv].
  cbn [fold_left].
  assert (Hstep : exists w1,
    copy_entry PATH_MAX buffering (copy_dir PATH_MAX buffering (S fuel)) src dst (Some w) n = Some w1 /\
    only_reported w w1).
  { rewrite copy_entry_valid by apply Hn.
    destruct (fitsb PATH_MAX (join src n)) eqn:Efs; cbn [andb];
      [|eexists; split; [reflexivity|apply only_reported_eprint]].
    destruct (fitsb PATH_MAX (join dst n)) eqn:Efd;
      [|eexists; split; [reflexivity|apply only_reported_eprint]].
    destruct Hw as (Hcwd & Hfs & _).
    assert (Hrn : resolve PATH_MAX w (join dst n) = Ok (kd ++ [n])).
    { apply resolve_join; [|assumption|apply fitsb_fits; assumption].
      rewrite (resolve_same PATH_MAX w0) by assumption. exact Hrd. }
    assert (Hnone : fs w !! (kd ++ [n]) = None).
    { rewrite Hfs. apply Hvac; [apply prefix_app_r; reflexivity|].
      intros E. apply (f_equal length) in E. rewrite length_app in E. cbn in E. lia. }
    assert (Hpar : ~ writable_dir (fs w) (removelast (kd ++ [n]))).
    { rewrite removelast_last, Hfs. intros (a & b & E). congruence. }
    destruct (stat PATH_MAX w (join src n)) as [st|e];
      [|eexists; split; [reflexivity|apply only_reported_eprint]].
    destruct (S_ISDIR st).
    - destruct (copy_dir_blocked fuel w (join src n) (join dst n) (kd ++ [n]))
        as [msg ->]; try assumption.
      eexists. split; [reflexivity|apply only_reported_eprint].
    - destruct (S_ISREG st);
        [|eexists; split; [reflexivity|apply only_reported_refl]].
      destruct (copy_file_not_ready w (join src n) (join dst n) (kd ++ [n]))
        as [msg ->]; [assumption| |].
      + right. intros [(a & b & E)|(_ & name & _ & Hwd)]; [congruence|].
        apply Hpar. exact Hwd.
      + eexists. split; [reflexivity|apply only_reported_eprint]. }
  destruct Hstep as (w1 & -> & Hw1).
  apply IH; [assumption|]. eapply only_reported_trans; eassumption.
Qed.

(** X13.  A regular file where the folder of the copy should be.  The
    program takes "File exists" from [mkdir] for a folder that is
    there, whatever it is that exists.  So with a regular file at
    [dst/base] it goes through the copy pass all the same: each entry
    of the source ends in a report or in nothing, no file is copied,
    the file system is left exactly as it was, and the program prints
    "Done." and exits with status 0. *)
Theorem run_onto_a_file_copies_nothing
    (cwd0 : key) (fs0 : gmap key node) (space0 : nat)
    (prog src dst : string) (ksrc : key) (wr : bool)
    (ents : list (string * tree)) (rd' wr' : bool) (d : list byte) :
  let t := TDir true wr ents in
  let newdst := join dst (base_of (trim_trailing_slashes src PATH_MAX)) in
  let kd := namei cwd0 newdst in
  resolve PATH_MAX (boot cwd0 fs0 space0) src = Ok ksrc ->
  has_tree fs0 ksrc t ->
  listable t = true -> paths_fit PATH_MAX src t = true ->
  0 < nfiles t -> (Z.of_nat (nfiles t) < 2 ^ 64)%Z ->
  fitsb PATH_MAX newdst = true ->
  fs0 !! kd = Some (Reg rd' wr' d) ->
  (forall k, kd `prefix_of` k -> k <> kd -> fs0 !! k = None) ->
  exists w',
    run PATH_MAX buffering cwd0 fs0 space0 [prog; src; dst] = Some (0%Z, w') /\
    fs w' = fs0 /\ space w' = space0 /\
    total_files w' = Z.of_nat (nfiles t) /\ copied_files w' = 0%Z /\
    stdout w' = [Text (nl +:+ "Done." +:+ nl)].
Proof.
  intros t newdst kd Hr Ht Hl Hps Hpos Hmax Hfd Hkd Hvac.
  unfold run, main. cbn [length Nat.eqb negb nth].
  set (w := boot cwd0 fs0 space0) in *.
  assert (Hs : ends_slash src && negb (tree_is_dir t) = false)
    by apply andb_false_r.
  rewrite (has_tree_stat PATH_MAX w src ksrc t Ht Hr Hs).
  rewrite (count_files_spec PATH_MAX t _ w src ksrc Ht Hr Hs (fuel_ok_top PATH_MAX src)).
  rewrite (scanned_all PATH_MAX t src Hl Hps).
  pose proof (scan_from_boot cwd0 fs0 space0 (nfiles t) Hmax) as Escan.
  fold w in Escan. rewrite Escan. clear Escan.
  set (w1 := set_total w (Z.of_nat (nfiles t))).
  change (total_files w1) with (Z.of_nat (nfiles t)).
  destruct (Z.eqb_spec (Z.of_nat (nfiles t)) 0) as [Hz|_]; [lia|].
  cbn [t tree_mode S_ISDIR]. fold newdst.
  destruct (snprintf_cases PATH_MAX newdst) as [(Hf & _ & -> & ->)|(_ & E & _)];
    [|congruence].
  assert (Hrd : resolve PATH_MAX w1 newdst = Ok kd).
  { apply resolve_ok. split; [apply join_nonempty|]. split; [apply Hf|reflexivity]. }
  assert (Hm : mkdir_unless_exists PATH_MAX w1 newdst = Ok w1).
  { unfold mkdir_unless_exists, mkdir. rewrite Hrd. change (fs w1) with fs0.
    rewrite Hkd. reflexivity. }
  rewrite Hm. cbn [copy_dir]. rewrite Hm.
  inversion Ht as [|k0 rd0 wr0 names ents0 Hdir Hnames Hnd Hv Hch|]; subst.
  rewrite (opendir_dir PATH_MAX w1 src ksrc true wr names Hdir Hr).
  rewrite fold_copy_entries, Hnames.
  assert (Hp0 : 0 < PATH_MAX).
  { apply resolve_ok in Hr as (_ & Hlen & _). lia. }
  destruct (fold_copy_blocked PATH_MAX src newdst ksrc kd w1 rd' wr' d Hr Hrd Hkd Hvac
              Hp0 (map fst ents) Hv w1 (only_reported_refl w1))
    as (w' & -> & (_ & Hfs & Hsp & _ & Hout & Htot & Hcp)).
  cbn [done]. eexists. split; [reflexivity|].
  cbn [total_files copied_files fs stdout stderr space print].
  rewrite Hfs, Hsp, Htot, Hcp, Hout. repeat split.
Qed.

(** X14.  [copy_dir] makes the destination before it looks into the
    source.  For a source directory that may not be listed it returns
    -1 after the report of [opendir], and by then the destination
    directory has been made: an empty folder is what the copy of such a
    directory comes to. *)
Theorem copy_dir_unlistable_source_leaves_folder
    (fuel : nat) (w : World) (src dst : string) (ksrc kd : key)
    (wr : bool) (names : list string) :
  0 < fuel ->
  resolve PATH_MAX w src = Ok ksrc -> fs w !! ksrc = Some (Dir false wr names) ->
  resolve PATH_MAX w dst = Ok kd -> fs w !! kd = None ->
  dst_ready (fs w) kd -> outside kd ksrc ->
  exists w0,
    copy_dir PATH_MAX buffering fuel w src dst =
      Some ((-1)%Z, eprint w0 ("opendir '" +:+ src +:+ "': "
                               +:+ strerror EACCES +:+ nl)) /\
    mkdir PATH_MAX w dst = Ok w0 /\
    fs w0 !! kd = Some (Dir true true ["."; ".."]) /\
    copied_files w0 = copied_files w.
Proof.
  intros Hfuel Hrs Hks Hrd Hnone Hready [Ho1 Ho2].
  destruct fuel as [|fuel]; [lia|]. cbn [copy_dir].
  destruct (mkdir_unless_exists_ready PATH_MAX w dst kd Hrd Hready)
    as (w0 & Hm & Hstep & _ & _ & _ & Hfr & _).
  rewrite Hm.
  assert (Hks0 : fs w0 !! ksrc = Some (Dir false wr names)).
  { rewrite Hfr; [assumption| |assumption].
    intros ->. apply Ho1. reflexivity. }
  assert (Hrs0 : resolve PATH_MAX w0 src = Ok ksrc).
  { rewrite (resolve_same PATH_MAX w); [assumption|apply Hstep]. }
  rewrite (opendir_dir PATH_MAX w0 src ksrc false wr names Hks0 Hrs0).
  exists w0. split; [reflexivity|].
  unfold mkdir_unless_exists in Hm.
  destruct (mkdir PATH_MAX w dst) as [w0'|e] eqn:Emk.
  - injection Hm as ->. split; [reflexivity|].
    apply mkdir_inv in Emk as (k & name & rd & nms & Hk & _ & _ & _ & ->).
    rewrite Hrd in Hk. injection Hk as <-. cbn.
    rewrite lookup_insert_eq. split; reflexivity.
  - exfalso. destruct (is_EEXIST e) eqn:Ee; [|discriminate].
    destruct (mkdir_eexist PATH_MAX w dst e Emk Ee) as (k & n & Hk & Hn).
    rewrite Hrd in Hk. injection Hk as <-. congruence.
Qed.

End Blocked.

(* ================================================================== *)
(** * The progress line of a finished copy *)
(* ================================================================== *)

(** A finite number divided by itself is one. *)
Lemma ddiv_same s m e :
  ddiv (S754_finite s m e) (S754_finite s m e) = double_of_Z 1.
Proof.
  unfold ddiv, SFdiv, SFdiv_core_binary.
  rewrite !Z.sub_diag.
  change (Z.min (fexp 53 1024 0) 0) with (-53)%Z.
  change (0 - -53)%Z with 53%Z. cbv iota.
  rewrite Z.shiftl_mul_pow2 by discriminate.
  destruct (Z.div_eucl (Z.pos m * 2 ^ 53) (Z.pos m)) as [q r] eqn:E.
  assert (Hq : q = (2 ^ 53)%Z).
  { change q with (fst (q, r)). rewrite <- E.
    change (fst (Z.div_eucl (Z.pos m * 2 ^ 53) (Z.pos m)))
      with (Z.pos m * 2 ^ 53 / Z.pos m)%Z.
    rewrite Z.mul_comm. apply Z.div_mul. discriminate. }
  assert (Hr : r = 0%Z).
  { change r with (snd (q, r)). rewrite <- E.
    change (snd (Z.div_eucl (Z.pos m * 2 ^ 53) (Z.pos m)))
      with ((Z.pos m * 2 ^ 53) mod Z.pos m)%Z.
    rewrite Z.mul_comm. apply Z.mod_mul. discriminate. }
  subst q r.
  assert (Hl : new_location (Z.pos m) 0 = loc_Exact).
  { unfold new_location, new_location_even, new_location_odd.
    destruct (Z.even (Z.pos m)); reflexivity. }
  rewrite Hl. destruct s; vm_compute; reflexivity.
Qed.

(** X16.  A finished copy shows a full bar.  When [copied_files] has
    reached [total_files], and the total as a [double] is a finite
    number other than zero, the line printed shows 100 per cent, and all
    forty cells of the bar are filled: there is no transition cell. *)
Theorem show_progress_complete (w : World) :
  copied_files w = total_files w ->
  (exists s m e, double_of_Z (total_files w) = S754_finite s m e) ->
  show_progress w =
  print w (Bar (rep "="%char 40) (double_of_Z 100)
               (copied_files w) (total_files w)).
Proof.
  intros Heq (s & m & e & Hfin).
  unfold show_progress.
  destruct (Z.eqb_spec (total_files w) 0) as [Hz|_].
  { rewrite Hz in Hfin. discriminate. }
  assert (Hp : progress_of (copied_files w) (total_files w) = double_of_Z 100).
  { unfold progress_of. rewrite Heq, Hfin, ddiv_same. vm_compute. reflexivity. }
  rewrite Hp.
  assert (Hpos : pos_of (double_of_Z 100) = 40%Z) by (vm_compute; reflexivity).
  rewrite Hpos. reflexivity.
Qed.

Lemma show_progress_complete_demo :
  show_progress (mkWorld [] ∅ 0 ∅ [] [] 18446744073709551615 18446744073709551615) =
  print (mkWorld [] ∅ 0 ∅ [] [] 18446744073709551615 18446744073709551615)
    (Bar (rep "="%char 40) (double_of_Z 100)
         (copied_files (mkWorld [] ∅ 0 ∅ [] [] 18446744073709551615
                                18446744073709551615))
         (total_files (mkWorld [] ∅ 0 ∅ [] [] 18446744073709551615
                               18446744073709551615))).
Proof.
  apply (show_progress_complete
           (mkWorld [] ∅ 0 ∅ [] [] 18446744073709551615 18446744073709551615)).
  - reflexivity.
  - eexists _, _, _. vm_compute. reflexivity.
Defined.

(* ================================================================== *)
(** * Counting the copies *)
(* ================================================================== *)

Lemma counted_refl w : counted w w 0.
Proof. repeat split. cbn. rewrite app_nil_r. reflexivity. Qed.

Lemma counted_eprint w msg : counted w (eprint w msg) 0.
Proof. repeat split. cbn. rewrite app_nil_r. reflexivity. Qed.

Lemma counted_trans w1 w2 w3 a b :
  counted w1 w2 a -> counted w2 w3 b -> counted w1 w3 (a + b).
Proof.
  intros (A1 & A2 & A3 & A4) (B1 & B2 & B3 & B4).
  split; [congruence|]. split; [congruence|]. split.
  - rewrite B3, A3, (Nat.add_comm a b), Nat.iter_add. reflexivity.
  - rewrite B4, A4, A3, A2, lines_add, app_assoc. reflexivity.
Qed.

Section Trace.

Variable PATH_MAX : nat.
Variable buffering : nat -> nat.

Lemma copy_file_counted w src dst r w' :
  copy_file PATH_MAX buffering w src dst = Some (r, w') ->
  exists c, counted w w' c.
Proof.
  intros H.
  destruct (copy_file_spec PATH_MAX buffering w src dst)
    as (r1 & w1 & Hrun & _ & Hstr & Htot & _ & _ & _ & Hres).
  rewrite H in Hrun. injection Hrun as <- <-.
  destruct Hres as [(_ & Hcp & Hout & _)|(_ & Hcp & Hout & _)].
  - exists 1. split; [assumption|]. split; [assumption|]. split; [exact Hcp|].
    rewrite lines_one. rewrite Hout, Hcp. reflexivity.
  - exists 0. split; [assumption|]. split; [assumption|]. split; [exact Hcp|].
    cbn. rewrite app_nil_r. exact Hout.
Qed.

Lemma mkdir_unless_exists_counted w dst w0 :
  mkdir_unless_exists PATH_MAX w dst = Ok w0 -> counted w w0 0.
Proof.
  unfold mkdir_unless_exists. intros H.
  destruct (mkdir PATH_MAX w dst) as [w1|e] eqn:Em.
  - injection H as <-.
    apply mkdir_inv in Em as (k & name & rd & names & _ & _ & _ & _ & ->).
    repeat split. cbn. rewrite app_nil_r. reflexivity.
  - destruct (is_EEXIST e); [|discriminate]. injection H as <-.
    apply counted_refl.
Qed.

Lemma copy_dir_counted fuel w src dst r w' :
  copy_dir PATH_MAX buffering fuel w src dst = Some (r, w') ->
  exists c, counted w w' c.
Proof.
  apply (copy_dir_kept PATH_MAX buffering (fun w w' => exists c, counted w w' c)).
  - intros w0. exists 0. apply counted_refl.
  - intros w1 w2 w3 [a Ha] [b Hb]. exists (a + b).
    eapply counted_trans; eassumption.
  - intros w0 msg. exists 0. apply counted_eprint.
  - apply copy_file_counted.
  - intros w0 p w1 H. exists 0. eapply mkdir_unless_exists_counted. exact H.
Qed.

(** What a run leaves behind of its streams and counters. *)
Lemma run_counted cwd0 fs0 space0 argv :
  exists r w' c,
    run PATH_MAX buffering cwd0 fs0 space0 argv = Some (r, w') /\
    streams w' = ∅ /\
    copied_files w' = Nat.iter c incr 0%Z /\
    bars (stdout w') = bars (lines 0 (total_files w') c).
Proof.
  unfold run, main. set (w := boot cwd0 fs0 space0).
  set (src := nth 1 argv ""). set (dst := nth 2 argv "").
  destruct (negb (length argv =? 3)).
  { eexists _, _, 0. split; [reflexivity|]. cbn. auto. }
  destruct (stat PATH_MAX w src) as [st|e].
  2:{ eexists _, _, 0. split; [reflexivity|]. cbn. auto. }
  destruct (count_files_total PATH_MAX (S PATH_MAX) w src (fuel_ok_top PATH_MAX src))
    as [n ->].
  rewrite (iter_bump_total n w).
  set (z := total_files (Nat.iter n bump w)).
  set (w1 := set_total w z).
  change (total_files w1) with z.
  destruct (z =? 0)%Z.
  { eexists _, _, 0. split; [reflexivity|]. cbn. auto. }
  assert (Hfail : forall msg,
    exists r w' c,
      Some (1%Z, eprint w1 msg) = Some (r, w') /\
      streams w' = ∅ /\ copied_files w' = Nat.iter c incr 0%Z /\
      bars (stdout w') = bars (lines 0 (total_files w') c)).
  { intros msg. eexists _, _, 0. split; [reflexivity|]. cbn. auto. }
  assert (Hdone : forall r0 w0 c,
    counted w1 w0 c ->
    exists r w' c,
      done (Some (r0, w0)) = Some (r, w') /\
      streams w' = ∅ /\ copied_files w' = Nat.iter c incr 0%Z /\
      bars (stdout w') = bars (lines 0 (total_files w') c)).
  { intros r0 w0 c (Hs & Ht & Hc & Ho). eexists _, _, c.
    split; [reflexivity|]. cbn [streams copied_files stdout total_files print].
    split; [exact Hs|]. split; [exact Hc|].
    rewrite Ho, Ht, bars_app. cbn. rewrite app_nil_r. reflexivity. }
  destruct (S_ISDIR st).
  - destruct (snprintf PATH_MAX (join dst (base_of (trim_trailing_slashes src PATH_MAX))))
      as [rc newdst].
    destruct (too_long PATH_MAX rc); [apply Hfail|].
    destruct (mkdir_unless_exists PATH_MAX w1 newdst) as [w2|e] eqn:Em;
      [|apply Hfail].
    apply mkdir_unless_exists_counted in Em.
    destruct (copy_dir_total PATH_MAX buffering (S PATH_MAX) w2 src newdst (fuel_ok_top PATH_MAX src))
      as (r & w' & Hrun).
    rewrite Hrun.
    destruct (copy_dir_counted _ _ _ _ _ _ Hrun) as [c Hc].
    apply (Hdone r w' (0 + c)). eapply counted_trans; eassumption.
  - destruct (S_ISREG st); [|apply Hfail].
    match goal with |- context [let '(_, _) := ?x in _] => destruct x as [rc dstpath] end.
    destruct (too_long PATH_MAX rc); [apply Hfail|].
    destruct (copy_file_spec PATH_MAX buffering w1 src dstpath) as (r & w' & Hrun & _).
    rewrite Hrun.
    destruct (copy_file_counted _ _ _ _ _ Hrun) as [c Hc].
    apply (Hdone r w' c Hc).
Qed.

(** X17.  The progress line follows the counter.  In every run,
    whatever is copied where, [copied_files] starts at zero and goes up
    by one per rendering of the progress line and in no other way: the
    lines printed are those of [copied_files] at 1, 2, ... up to its
    final value, in this order, each against the [total_files] that the
    scan left, which the copy pass never changes. *)
Theorem run_progress_follows_copies
    (cwd0 : key) (fs0 : gmap key node) (space0 : nat) (argv : list string) :
  exists r w' c,
    run PATH_MAX buffering cwd0 fs0 space0 argv = Some (r, w') /\
    copied_files w' = Nat.iter c incr 0%Z /\
    bars (stdout w') = bars (lines 0 (total_files w') c) /\
    ((Z.of_nat c < 2 ^ 64)%Z -> total_files w' <> 0%Z ->
     copied_files w' = Z.of_nat c /\
     bars (stdout w') = map (fun i => (Z.of_nat i, total_files w')) (seq 1 c)).
Proof.
  destruct (run_counted cwd0 fs0 space0 argv) as (r & w' & c & Hrun & _ & Hc & Hb).
  exists r, w', c. split; [exact Hrun|]. split; [exact Hc|]. split; [exact Hb|].
  intros Hlt Hnz. split.
  - rewrite Hc. rewrite iter_incr_value; lia.
  - rewrite Hb. rewrite bars_lines by lia. apply map_ext. intros i. f_equal; lia.
Qed.

(** X18.  No stream is left open.  However a run ends, every [FILE] the
    program opened has been closed by then: the failure paths of
    [copy_file] close what was opened before them, and nothing else
    opens a stream. *)
Theorem run_closes_every_stream
    (cwd0 : key) (fs0 : gmap key node) (space0 : nat) (argv : list string) :
  exists r w',
    run PATH_MAX buffering cwd0 fs0 space0 argv = Some (r, w') /\ streams w' = ∅.
Proof.
  destruct (run_counted cwd0 fs0 space0 argv) as (r & w' & c & Hrun & Hs & _).
  exists r, w'. split; [exact Hrun|exact Hs].
Qed.

End Trace.

(* ================================================================== *)
(** * More theorems on concrete file systems *)
(* ================================================================== *)

Lemma count_files_counts_what_it_reaches_demo :
  exists w',
    count_files 4096 4097 (boot [] fs_deep 0) "top" = Some w' /\
    total_files w' = (total_files (boot [] fs_deep 0)
                      + Z.of_nat (scanned 4096 "top" t_deep))%Z /\
    scanned 4096 "top" t_deep <= nfiles t_deep.
Proof.
  apply (count_files_counts_what_it_reaches 4096 (boot [] fs_deep 0) "top"
           ["top"] t_deep).
  - vm_compute. reflexivity.
  - apply has_treeb_sound. vm_compute. reflexivity.
  - reflexivity.
  - vm_compute. discriminate.
  - vm_compute. reflexivity.
Defined.

Lemma copy_file_on_a_short_device_demo :
  exists w' rd',
    copy_file 4096 (buffered 4096) (boot [] fs_demo 2) "d/f" "b/f" = Some (0%Z, w') /\
    fs w' !! ["b"; "f"] = Some (Reg rd' true [x01; x02]) /\
    space w' = 0 /\
    fs w' !! ["d"; "f"] = Some (Reg true true [x01; x02; x03]) /\
    copied_files w' = 1%Z /\
    stderr w' = [].
Proof.
  destruct (copy_file_on_a_short_device 4096 (buffered 4096) (boot [] fs_demo 2)
              "d/f" "b/f" ["d"; "f"] ["b"; "f"] true [x01; x02; x03])
    as (r & w' & rd' & Hrun & Hdst & Hspace & Hsrc & _ & Hres & Hbuf & _).
  - vm_compute. reflexivity.
  - reflexivity.
  - vm_compute. reflexivity.
  - vm_compute. reflexivity.
  - reflexivity.
  - discriminate.
  - right. split; [vm_compute; reflexivity|].
    exists "f". split; [reflexivity|].
    exists true, ["."; ".."]. vm_compute. reflexivity.
  - apply Nat.ltb_lt. vm_compute. reflexivity.
  - assert (Hr : r = 0%Z).
    { apply Hbuf. intros n Hn. unfold buffered.
      destruct (Nat.ltb_spec n 4096) as [_|Hge]; [reflexivity|].
      cbn [length] in Hn. lia. }
    subst r. exists w', rd'.
    split; [exact Hrun|]. split; [exact Hdst|]. split; [exact Hspace|].
    split; [exact Hsrc|].
    destruct Hres as [(Hr & _)|(_ & Hcp & _ & Herr)]; [discriminate|].
    split; [exact Hcp|exact Herr].
Defined.

(** The same copy through a library that does not buffer: the second
    byte is the last that fits, [fwrite] comes back short and the
    status is -1, with the same two bytes left at the destination. *)
Lemma copy_file_on_a_short_device_unbuffered :
  option_map (fun p => (fst p, fs (snd p) !! ["b"; "f"], copied_files (snd p)))
             (copy_file 4096 unbuffered (boot [] fs_demo 2) "d/f" "b/f")
  = Some ((-1)%Z, Some (Reg true true [x01; x02]), 0%Z).
Proof. vm_compute. reflexivity. Qed.

Lemma copy_file_bad_destination_demo :
  exists e,
    copy_file 4096 (buffered 4096) w_demo "d/f" "d/s" =
    Some ((-1)%Z,
          eprint w_demo ("open dest '" +:+ "d/s" +:+ "': " +:+ strerror e +:+ nl)).
Proof.
  apply (copy_file_bad_destination 4096 (buffered 4096) w_demo "d/f" "d/s"
           ["d"; "f"] ["d"; "s"] true [x01; x02; x03]).
  - vm_compute. reflexivity.
  - reflexivity.
  - vm_compute. reflexivity.
  - vm_compute. reflexivity.
  - right. intros [(rd & d & E)|(E & _)]; vm_compute in E; discriminate.
Defined.

Lemma run_copies_tree_demo :
  exists w',
    run 4096 (buffered 4096) [] fs_demo 100 ["cpx"; "d"; "b"] = Some (0%Z, w') /\
    total_files w' = Z.of_nat (nfiles t_demo) /\
    copied_files w' = Z.of_nat (nreadable t_demo) /\
    copied_to (fs w')
      (namei [] (join "b" (base_of (trim_trailing_slashes "d" 4096)))) t_demo /\
    has_tree (fs w') ["d"] t_demo /\
    (forall k,
       outside (namei [] (join "b" (base_of (trim_trailing_slashes "d" 4096)))) k ->
       fs w' !! k = fs_demo !! k) /\
    stdout w' = lines 0 (Z.of_nat (nfiles t_demo)) (nreadable t_demo)
                ++ [Text (nl +:+ "Done." +:+ nl)] /\
    length (stderr w') = nunreadable t_demo /\
    space w' = 100 - readable_bytes t_demo.
Proof.
  apply (run_copies_tree 4096 (buffered 4096) [] fs_demo 100 "cpx" "d" "b" ["d"] t_demo).
  - vm_compute. reflexivity.
  - apply has_treeb_sound. vm_compute. reflexivity.
  - reflexivity.
  - reflexivity.
  - vm_compute. reflexivity.
  - vm_compute. reflexivity.
  - vm_compute. reflexivity.
  - apply incomparableb_sound. vm_compute. reflexivity.
  - apply clearb_below. vm_compute. reflexivity.
  - right. split; [vm_compute; reflexivity|].
    exists "d". split; [reflexivity|].
    exists true, ["."; ".."]. vm_compute. reflexivity.
  - apply Nat.leb_le. vm_compute. reflexivity.
  - apply Nat.ltb_lt. vm_compute. reflexivity.
  - vm_compute. reflexivity.
Defined.

Lemma run_copies_file_demo :
  exists w' rd',
    run 4096 (buffered 4096) [] fs_demo 100 ["cpx"; "d/f"; "b"] = Some (0%Z, w') /\
    fs w' !! namei [] (file_target 4096 (boot [] fs_demo 100) "d/f" "b")
    = Some (Reg rd' true [x01; x02; x03]) /\
    fs w' !! ["d"; "f"] = Some (Reg true true [x01; x02; x03]) /\
    (forall k,
       k <> namei [] (file_target 4096 (boot [] fs_demo 100) "d/f" "b") ->
       k <> removelast (namei [] (file_target 4096 (boot [] fs_demo 100) "d/f" "b")) ->
       fs w' !! k = fs_demo !! k) /\
    total_files w' = 1%Z /\ copied_files w' = 1%Z /\
    stdout w' = progress_line 1 1 ++ [Text (nl +:+ "Done." +:+ nl)] /\
    stderr w' = [] /\
    space w' = 100 - length [x01; x02; x03].
Proof.
  apply (run_copies_file 4096 (buffered 4096) [] fs_demo 100 "cpx" "d/f" "b"
           ["d"; "f"] true [x01; x02; x03]).
  - vm_compute. reflexivity.
  - reflexivity.
  - vm_compute. reflexivity.
  - vm_compute. discriminate.
  - vm_compute. reflexivity.
  - vm_compute. reflexivity.
  - vm_compute. discriminate.
  - right. split; [vm_compute; reflexivity|].
    exists "f". split; [vm_compute; reflexivity|].
    exists true, ["."; ".."]. vm_compute. reflexivity.
  - apply Nat.leb_le. vm_compute. reflexivity.
Defined.

(** The copy of [/d/f] asked into [/b] is the file [/b/f]. *)
Lemma run_copies_file_into_folder :
  file_target 4096 (boot [] fs_demo 100) "d/f" "b" = "b/f" /\
  file_target 4096 (boot [] fs_demo 100) "d/f" "b/new" = "b/new" /\
  exists w',
    run 4096 (buffered 4096) [] fs_demo 100 ["cpx"; "d/f"; "b"] = Some (0%Z, w') /\
    fs w' !! ["b"; "f"] = Some (Reg true true [x01; x02; x03]).
Proof.
  split; [vm_compute; reflexivity|]. split; [vm_compute; reflexivity|].
  eexists. split; vm_compute; reflexivity.
Qed.

Lemma run_onto_a_file_copies_nothing_demo :
  exists w',
    run 4096 (buffered 4096) [] fs_taken 100 ["cpx"; "d"; "b"] = Some (0%Z, w') /\
    fs w' = fs_taken /\ space w' = 100 /\
    total_files w' = Z.of_nat (nfiles t_demo) /\ copied_files w' = 0%Z /\
    stdout w' = [Text (nl +:+ "Done." +:+ nl)].
Proof.
  apply (run_onto_a_file_copies_nothing 4096 (buffered 4096) [] fs_taken 100 "cpx" "d" "b" ["d"] true
           [ ("f", TFile true true [x01; x02; x03]);
             ("g", TFile false true [x04]);
             ("p", TOther);
             ("s", TDir true true [("h", TFile true true [x05; x06])]) ]
           true true [x0a]).
  - vm_compute. reflexivity.
  - apply has_treeb_sound. vm_compute. reflexivity.
  - reflexivity.
  - vm_compute. reflexivity.
  - apply Nat.ltb_lt. vm_compute. reflexivity.
  - vm_compute. reflexivity.
  - vm_compute. reflexivity.
  - vm_compute. reflexivity.
  - apply clearb_below. vm_compute. reflexivity.
Defined.

Lemma copy_dir_unlistable_source_leaves_folder_demo :
  exists w0,
    copy_dir 4096 (buffered 4096) 4097 (boot [] fs_locked 100) "d/s" "b/s" =
      Some ((-1)%Z, eprint w0 ("opendir '" +:+ "d/s" +:+ "': "
                               +:+ strerror EACCES +:+ nl)) /\
    mkdir 4096 (boot [] fs_locked 100) "b/s" = Ok w0 /\
    fs w0 !! ["b"; "s"] = Some (Dir true true ["."; ".."]) /\
    copied_files w0 = copied_files (boot [] fs_locked 100).
Proof.
  apply (copy_dir_unlistable_source_leaves_folder 4096 (buffered 4096) 4097 (boot [] fs_locked 100)
           "d/s" "b/s" ["d"; "s"] ["b"; "s"] true ["."; ".."; "h"]).
  - apply Nat.ltb_lt. vm_compute. reflexivity.
  - vm_compute. reflexivity.
  - vm_compute. reflexivity.
  - vm_compute. reflexivity.
  - vm_compute. reflexivity.
  - right. split; [vm_compute; reflexivity|].
    exists "s". split; [reflexivity|].
    exists true, ["."; ".."]. vm_compute. reflexivity.
  - split; [|discriminate].
    intros H. apply (bool_decide_eq_true_2 _) in H. vm_compute in H. discriminate.
Defined.

(** With room for two bytes only, the copy of [/d] into [/b] fails
    half way; [/d] is as it was all the same. *)
Lemma run_writes_only_below_destination_demo :
  exists r w',
    run 4096 (buffered 4096) [] fs_demo 2 ["cpx"; "d"; "b"] = Some (r, w') /\
    (forall k,
       outside (namei [] (join "b" (base_of (trim_trailing_slashes "d" 4096)))) k ->
       fs w' !! k = fs_demo !! k) /\
    has_tree (fs w') ["d"] t_demo /\
    space w' <= 2.
Proof.
  apply (run_writes_only_below_destination 4096 (buffered 4096) [] fs_demo 2 "cpx" "d" "b"
           ["d"] t_demo).
  - vm_compute. reflexivity.
  - apply has_treeb_sound. vm_compute. reflexivity.
  - reflexivity.
  - apply incomparableb_sound. vm_compute. reflexivity.
Defined.
